(** * Mutual-fund analytics backend: rate limiter, ingestion and analytics

    A shallow embedding of the core of the repository:

    - [src/utils/rateLimiter.js]      (module [RateLimiter])
    - [src/services/analyticsService.js] (module [Analytics])
    - [src/services/mfApiClient.js]   (module [MfApiClient])
    - [src/services/backfillService.js], [src/dao/syncStateDao.js]
                                      (module [Backfill])
    - [src/dao/fundsDao.js], [src/routes/funds.js]
                                      (modules [FundsDao], [FundsRoutes])
    - [src/services/incrementalSyncService.js], [src/dao/navHistoryDao.js]
                                      (module [IncrementalSync])
    - [src/services/schemeDiscovery.js] (module [SchemeDiscovery])

    JavaScript numbers are modelled by exact rationals ([Q]) where the code
    computes with fractions and by integers ([Z]) where it uses
    [parseInt]/[Date.now()]; rounding errors of IEEE doubles are outside the
    model.  The NAVs the database driver hands over as decimal strings are
    kept as such ([Analytics.NavValue]), and a Redis key is kept with the
    deadline of its [EXPIRE].  Asynchronous functions are modelled by their
    sequential semantics: every [await] is a call. *)

From Stdlib Require Import ZArith QArith Qround Qminmax Lia Lqa List Bool.
From Stdlib Require Import Ascii String DecimalString Sorting.Sorted Permutation.
From stdpp Require Import gmap strings list fin_maps.

Import ListNotations.
Local Open Scope Z_scope.

(** Closes a comparison of two closed rationals. *)
Ltac closed_rational := vm_compute; first [reflexivity | discriminate].

(** * Part I: the embedding *)

(** ** Rate limiter ([src/utils/rateLimiter.js]) *)

Module RateLimiter.

(** [config.rateLimiting.*]: every field is read with [parseInt], hence an
    integer. *)
Record BucketConfig := mkConfig {
  capacity   : Z;
  refillRate : Z;
  intervalMs : Z
}.

(** [config.rateLimiting]: the three buckets of the limiter. *)
Record RateLimiting := mkRateLimiting {
  perSecond : BucketConfig;
  perMinute : BucketConfig;
  perHour   : BucketConfig
}.

(** The defaults of the configuration module (no environment overrides). *)
Definition defaultRateLimiting : RateLimiting :=
  mkRateLimiting (mkConfig 2 2 1000) (mkConfig 50 50 60000) (mkConfig 300 300 3600000).

(** The Redis hash of one bucket: [tokens] is read with [parseFloat]
    ([tonumber] in Lua), [last_refill] with [parseInt]. *)
Record Bucket := mkBucket {
  tokens      : Q;
  last_refill : Z
}.

(** A key of the store: the hash kept under it and, once [EXPIRE] has been
    called on the key, the time in milliseconds after which the key is gone. *)
Record Entry := mkEntry {
  hash     : Bucket;
  expireAt : option Z
}.

(** The time to live that every check sets on the key of its bucket:
    [EXPIRE key 7200], in seconds. *)
Definition TTL_SECONDS : Z := 7200.

(** The commands of the store.  The store reads the clock of the caller: a
    command of a check runs at the [Date.now()] that check has read.  A key
    whose time to live has run out stays in the map and is invisible to every
    command. *)
Definition expired (t : Z) (e : Entry) : bool :=
  match expireAt e with
  | Some deadline => deadline <? t
  | None => false
  end.

(** [HMGET key tokens last_refill] and [hgetall(key)]: the hash of a live
    key. *)
Definition HGETALL (t : Z) (key : string) (store : gmap string Entry) : option Bucket :=
  match store !! key with
  | Some e => if expired t e then None else Some (hash e)
  | None => None
  end.

(** [HSET key tokens _ last_refill _]: both fields are overwritten; a live
    key keeps its time to live, a key that is gone is created without one. *)
Definition HSET (t : Z) (key : string) (b : Bucket) (store : gmap string Entry)
    : gmap string Entry :=
  <[key := mkEntry b (match store !! key with
                      | Some e => if expired t e then None else expireAt e
                      | None => None
                      end)]> store.

(** [EXPIRE key seconds] *)
Definition EXPIRE (t : Z) (key : string) (seconds : Z) (store : gmap string Entry)
    : gmap string Entry :=
  match store !! key with
  | Some e =>
    if expired t e then store
    else <[key := mkEntry (hash e) (Some (t + seconds * 1000))]> store
  | None => store
  end.

(** [DEL key] *)
Definition DEL (key : string) (store : gmap string Entry) : gmap string Entry :=
  delete key store.

(** What a bucket check returns: [{allowed, tokensRemaining, waitTimeMs}]. *)
Record CheckResult := mkResult {
  allowed         : bool;
  tokensRemaining : Q;
  waitTimeMs      : Z
}.

(** [const KEY_PREFIX = 'ratelimit:mfapi:'] and [config.redis.keyPrefix]. *)
Definition KEY_PREFIX : string := "ratelimit:mfapi:".
Definition redisKeyPrefix : string := "mf_analytics:".

(** [math.floor((elapsed / intervalMs) * refillRate)] *)
Definition tokensToAdd (cfg : BucketConfig) (elapsed : Z) : Z :=
  Qfloor ((inject_Z elapsed / inject_Z (intervalMs cfg)) * inject_Z (refillRate cfg)).

(** [math.ceil((tokensNeeded / refillRate) * intervalMs)] *)
Definition waitFor (cfg : BucketConfig) (tokensNeeded : Q) : Z :=
  Qceiling ((tokensNeeded / inject_Z (refillRate cfg)) * inject_Z (intervalMs cfg)).

(** The refill phase shared by the Lua script and the Upstash variant:
    tokens are added and [last_refill] advanced only when at least one whole
    token is due. *)
Definition refillFrom (cfg : BucketConfig) (currentTimeMs : Z) (b : Bucket) : Bucket :=
  let elapsed := currentTimeMs - last_refill b in
  let add := tokensToAdd cfg elapsed in
  if 0 <? add
  then mkBucket (Qmin (inject_Z (capacity cfg)) (tokens b + inject_Z add)) currentTimeMs
  else b.

(** The Lua script starts from the hash read; a missing hash
    ([tokens == nil]) starts full at the current time. *)
Definition startFrom (cfg : BucketConfig) (currentTimeMs : Z) (stored : option Bucket) : Bucket :=
  match stored with
  | Some b => b
  | None => mkBucket (inject_Z (capacity cfg)) currentTimeMs
  end.

Definition refill (cfg : BucketConfig) (currentTimeMs : Z) (stored : option Bucket) : Bucket :=
  refillFrom cfg currentTimeMs (startFrom cfg currentTimeMs stored).

(** Lines 35 to 59 of the script without its store calls: from the hash
    read by [HMGET], the hash written back by [HSET] and the reply
    [{allowed, tokens, waitTimeMs}]. *)
Definition bucketStep (cfg : BucketConfig) (tokensRequested : Q)
    (currentTimeMs : Z) (stored : option Bucket) : Bucket * CheckResult :=
  let b := refill cfg currentTimeMs stored in
  if Qle_bool tokensRequested (tokens b)
  then
    let tokens' := (tokens b - tokensRequested)%Q in
    (mkBucket tokens' (last_refill b), mkResult true tokens' 0)
  else
    let tokensNeeded := (tokensRequested - tokens b)%Q in
    (b, mkResult false (tokens b) (waitFor cfg tokensNeeded)).

(** [TOKEN_BUCKET_LUA]: one atomic read-refill-consume-write step on the
    key: [HMGET], the computation, then [HSET] and [EXPIRE key 7200] in
    either branch. *)
Definition TOKEN_BUCKET_LUA (cfg : BucketConfig) (tokensRequested : Q)
    (currentTimeMs : Z) (key : string) (store : gmap string Entry)
    : gmap string Entry * CheckResult :=
  let bucket := HGETALL currentTimeMs key store in
  let '(b, reply) := bucketStep cfg tokensRequested currentTimeMs bucket in
  let store := HSET currentTimeMs key b store in
  let store := EXPIRE currentTimeMs key TTL_SECONDS store in
  (store, reply).

(** The REST calls of the Upstash variant may throw; the fault says which of
    the three calls of one check does. *)
Inductive Fault := FaultHgetall | FaultHset | FaultExpire.

(** The environment of one bucket check: the value of [Date.now()] and the
    fault, if any, of the store. *)
Record Call := mkCall {
  now   : Z;
  fault : option Fault
}.

Definition at_time (t : Z) : Call := mkCall t None.

(** The Redis client in use ([getRedisClient], [isUpstashRedis]): ioredis,
    or the Upstash REST client.  The latter hands the fields of a hash back
    either as the strings stored or, with automatic deserialization, parsed:
    a stored ["0"] then arrives as the number 0.  [src/utils/redis.js]
    builds the Upstash client from its URL and token alone, which leaves
    automatic deserialization on. *)
Inductive Backend :=
| Standard
| Upstash (automaticDeserialization : bool).

Definition isUpstashRedis (backend : Backend) : bool :=
  match backend with
  | Standard => false
  | Upstash _ => true
  end.

(** The truthiness of a hash field holding the number [q]: the string
    [q.toString()] is never empty; the parsed number is falsy when it is 0. *)
Definition fieldTruthy (automaticDeserialization : bool) (q : Q) : bool :=
  if automaticDeserialization then negb (Qeq_bool q 0) else true.

(** [bucket?.tokens ? parseFloat(bucket.tokens) : bucketConfig.capacity] and
    [bucket?.last_refill ? parseInt(bucket.last_refill, 10) : currentTimeMs]. *)
Definition upstashStart (automaticDeserialization : bool) (cfg : BucketConfig)
    (currentTimeMs : Z) (bucket : option Bucket) : Bucket :=
  let tokens :=
    match bucket with
    | Some b =>
      if fieldTruthy automaticDeserialization (tokens b) then tokens b
      else inject_Z (capacity cfg)
    | None => inject_Z (capacity cfg)
    end in
  let lastRefill :=
    match bucket with
    | Some b =>
      if fieldTruthy automaticDeserialization (inject_Z (last_refill b)) then last_refill b
      else currentTimeMs
    | None => currentTimeMs
    end in
  mkBucket tokens lastRefill.

(** [checkBucketUpstash]: the same computation done client-side with
    [hgetall], [hset] and [expire(key, 7200)].  Any exception is caught and
    the request is allowed (fail open); when [expire] throws, the hash has
    been written and the time to live of the key is not renewed. *)
Definition checkBucketUpstash (automaticDeserialization : bool) (key : string)
    (cfg : BucketConfig) (c : Call)
    (store : gmap string Entry) : gmap string Entry * CheckResult :=
  let failOpen := mkResult true 0 0 in
  match fault c with
  | Some FaultHgetall => (store, failOpen)
  | f =>
    let b := refillFrom cfg (now c)
               (upstashStart automaticDeserialization cfg (now c)
                  (HGETALL (now c) key store)) in
    let '(b', r) :=
      if Qle_bool 1 (tokens b)
      then
        let tokens' := (tokens b - 1)%Q in
        (mkBucket tokens' (last_refill b), mkResult true tokens' 0)
      else
        let tokensNeeded := (1 - tokens b)%Q in
        (b, mkResult false (tokens b) (waitFor cfg tokensNeeded)) in
    match f with
    | Some FaultHset => (store, failOpen)
    | Some _ => (HSET (now c) key b' store, failOpen)
    | None => (EXPIRE (now c) key TTL_SECONDS (HSET (now c) key b' store), r)
    end
  end.

(** Redis converts the numbers of a script reply to integers, dropping the
    fraction. *)
Definition truncate (q : Q) : Q :=
  inject_Z (if Qle_bool 0 q then Qfloor q else Qceiling q).

(** [checkBucketStandard]: [EVALSHA] of the script with one token requested,
    under the key [KEY_PREFIX + bucketName] (ioredis prepends its own
    [keyPrefix]).  The model covers the calls on which [evalsha] returns. *)
Definition checkBucketStandard (key : string) (cfg : BucketConfig) (c : Call)
    (store : gmap string Entry) : gmap string Entry * CheckResult :=
  let '(store', result) := TOKEN_BUCKET_LUA cfg 1 (now c) key store in
  (store',
   mkResult (allowed result) (truncate (tokensRemaining result)) (waitTimeMs result)).

(** [checkBucket]: dispatch on [isUpstashRedis()]. *)
Definition checkBucket (backend : Backend) (bucketName : string) (cfg : BucketConfig)
    (c : Call) (store : gmap string Entry) : gmap string Entry * CheckResult :=
  match backend with
  | Upstash automaticDeserialization =>
    checkBucketUpstash automaticDeserialization
      (redisKeyPrefix ++ KEY_PREFIX ++ bucketName) cfg c store
  | Standard => checkBucketStandard (KEY_PREFIX ++ bucketName) cfg c store
  end.

(** The state threaded through the [for] loop of [acquireToken]. *)
Record LoopState := mkLoop {
  ls_store   : gmap string Entry;
  ls_results : gmap string CheckResult;
  ls_allowed : bool;
  ls_maxWaitTime : Z
}.

(** The body of [for (const bucket of buckets)]. *)
Definition loopBody (backend : Backend) (ls : LoopState)
    (bucket : string * BucketConfig * Call) : LoopState :=
  let '(name, cfg, c) := bucket in
  let '(store', result) := checkBucket backend name cfg c (ls_store ls) in
  let results' := <[name := result]> (ls_results ls) in
  if allowed result
  then mkLoop store' results' (ls_allowed ls) (ls_maxWaitTime ls)
  else mkLoop store' results' false (Z.max (ls_maxWaitTime ls) (waitTimeMs result)).

(** What [acquireToken] returns. *)
Record AcquireResult := mkAcquire {
  acq_allowed    : bool;
  acq_waitTimeMs : Z;
  bucketStates   : gmap string CheckResult
}.

(** [acquireToken]: the three buckets are checked in order, each check with
    its own reading of the clock. *)
Definition acquireToken (backend : Backend) (rateLimiting : RateLimiting)
    (c1 c2 c3 : Call) (store : gmap string Entry) : gmap string Entry * AcquireResult :=
  let buckets :=
    [ ("per_second"%string, perSecond rateLimiting, c1);
      ("per_minute"%string, perMinute rateLimiting, c2);
      ("per_hour"%string, perHour rateLimiting, c3) ] in
  let ls := fold_left (loopBody backend) buckets (mkLoop store ∅ true 0) in
  (ls_store ls, mkAcquire (ls_allowed ls) (ls_maxWaitTime ls) (ls_results ls)).

(** *** Specification-side notions for one bucket *)

(** The key under which [checkBucket] keeps a bucket. *)
Definition bucketKey (backend : Backend) (bucketName : string) : string :=
  if isUpstashRedis backend
  then redisKeyPrefix ++ KEY_PREFIX ++ bucketName
  else KEY_PREFIX ++ bucketName.

(** [maxWaitTime] after one more iteration of the loop of [acquireToken]. *)
Definition foldWait (r : CheckResult) (m : Z) : Z :=
  if allowed r then m else Z.max m (waitTimeMs r).

(** The client hands hash fields back as numbers. *)
Definition parsesNumbers (backend : Backend) : bool :=
  match backend with
  | Upstash true => true
  | _ => false
  end.

(** A sequence of fault-free checks of one bucket, at the given times;
    returns the final store and the replies in order. *)
Fixpoint run (backend : Backend) (bucketName : string) (cfg : BucketConfig)
    (times : list Z) (store : gmap string Entry) : gmap string Entry * list CheckResult :=
  match times with
  | [] => (store, [])
  | t :: ts =>
    let '(store', r) := checkBucket backend bucketName cfg (at_time t) store in
    let '(final, rs) := run backend bucketName cfg ts store' in
    (final, r :: rs)
  end.

(** The number of [allowed = true] replies. *)
Definition countAllowed (rs : list CheckResult) : Z :=
  Z.of_nat (List.length (List.filter allowed rs)).

(** The accesses all fall in one window of length [intervalMs]: the times are
    non-decreasing and the last is at most [intervalMs] after the first. *)
Fixpoint nondecreasing (ts : list Z) : Prop :=
  match ts with
  | t1 :: ((t2 :: _) as rest) => t1 <= t2 /\ nondecreasing rest
  | _ => True
  end.

Definition inWindow (cfg : BucketConfig) (ts : list Z) : Prop :=
  nondecreasing ts /\
  match ts with
  | [] => True
  | t1 :: _ => List.last ts t1 - t1 <= intervalMs cfg
  end.

(** A configuration with a non-negative capacity and refill rate and a
    positive interval. *)
Definition validConfig (cfg : BucketConfig) : Prop :=
  0 <= capacity cfg /\ 0 <= refillRate cfg /\ 0 < intervalMs cfg.

(** The (fractional) number of tokens that accrue in [elapsed] milliseconds:
    the quantity [tokensToAdd] rounds down. *)
Definition due (cfg : BucketConfig) (elapsed : Z) : Q :=
  (inject_Z elapsed / inject_Z (intervalMs cfg)) * inject_Z (refillRate cfg).

(** Tokens in the bucket plus tokens accrued and not yet credited at time [t]. *)
Definition potential (cfg : BucketConfig) (t : Z) (b : Bucket) : Q :=
  tokens b + due cfg (t - last_refill b).

(** The steps of the script on the hash of one bucket alone, each step
    reading the hash the step before has written. *)
Fixpoint runBucket (cfg : BucketConfig) (times : list Z) (stored : option Bucket)
    : option Bucket * list CheckResult :=
  match times with
  | [] => (stored, [])
  | t :: ts =>
    let '(b, r) := bucketStep cfg 1 t stored in
    let '(final, rs) := runBucket cfg ts (Some b) in
    (final, r :: rs)
  end.

(** The wait a denied check must carry according to the consume rule:
    [ceil((1 - tokens) / refillRate * intervalMs)], for the tokens the bucket
    holds, refilled, when the check is denied. *)
Definition deniedWait (cfg : BucketConfig) (key : string)
    (out : gmap string Entry * CheckResult) : Prop :=
  allowed (snd out) = false ->
  exists e, fst out !! key = Some e /\
    waitTimeMs (snd out) =
    Qceiling (((1 - tokens (hash e)) / inject_Z (refillRate cfg)) * inject_Z (intervalMs cfg)).

(** Refill rate and interval are positive in all three buckets. *)
Definition positiveRates (rl : RateLimiting) : Prop :=
  (0 < refillRate (perSecond rl) /\ 0 < intervalMs (perSecond rl)) /\
  (0 < refillRate (perMinute rl) /\ 0 < intervalMs (perMinute rl)) /\
  (0 < refillRate (perHour rl) /\ 0 < intervalMs (perHour rl)).

(** [acquireToken] with the three checks of one call reading the same time
    and no store fault. *)
Definition acquireAt (backend : Backend) (rl : RateLimiting) (t : Z)
    (store : gmap string Entry) : gmap string Entry * AcquireResult :=
  acquireToken backend rl (at_time t) (at_time t) (at_time t) store.

(** A bucket state the limiter itself can have produced by time [t]: absent,
    or with between 0 and [capacity] tokens and a refill time not after [t]. *)
Definition wfBucket (cfg : BucketConfig) (t : Z) (b : Bucket) : Prop :=
  (0 <= tokens b)%Q /\ (tokens b <= inject_Z (capacity cfg))%Q /\ last_refill b <= t.

Definition wellFormed (cfg : BucketConfig) (t : Z) (stored : option Bucket) : Prop :=
  match stored with
  | None => True
  | Some b => wfBucket cfg t b
  end.

End RateLimiter.

(** ** JavaScript values *)

Module JS.

(** The values the modelled code handles: [null], [undefined], numbers
    (exact rationals, and [NaN]) and strings. *)
Inductive jsval :=
| JNull
| JUndefined
| JNum (q : Q)
| JNaN
| JStr (s : string).

(** [ToBoolean]: what [v ? a : b] tests. *)
Definition truthy (v : jsval) : bool :=
  match v with
  | JNull | JUndefined | JNaN => false
  | JNum q => negb (Qeq_bool q 0)
  | JStr s => negb (String.eqb s "")
  end.

(** [a[i]]: an element of an array of numbers, [undefined] out of range. *)
Definition index (a : list Q) (i : Z) : jsval :=
  if i <? 0 then JUndefined
  else match nth_error a (Z.to_nat i) with
       | Some x => JNum x
       | None => JUndefined
       end.

(** [parseFloat] on a string: leading white space is skipped, then the longest
    prefix of the form [sign digits . digits] is read; [NaN] when there is no
    digit.  Exponents and [Infinity] are not modelled. *)
Definition isDigit (c : ascii) : bool :=
  (48 <=? nat_of_ascii c)%nat && (nat_of_ascii c <=? 57)%nat.

Definition digitValue (c : ascii) : Z := Z.of_nat (nat_of_ascii c) - 48.

Definition isSpace (c : ascii) : bool :=
  match nat_of_ascii c with
  | 9%nat | 10%nat | 11%nat | 12%nat | 13%nat | 32%nat => true
  | _ => false
  end.

Fixpoint skipSpaces (s : string) : string :=
  match s with
  | String c s' => if isSpace c then skipSpaces s' else s
  | EmptyString => s
  end.

(** Reads a run of digits: its value, its length and the rest of the string. *)
Fixpoint readDigits (s : string) (acc : Z) (count : nat) : Z * nat * string :=
  match s with
  | String c s' =>
    if isDigit c then readDigits s' (10 * acc + digitValue c) (S count)
    else (acc, count, s)
  | EmptyString => (acc, count, s)
  end.

Definition parseUnsigned (s : string) : option Q :=
  let '(ip, n1, rest) := readDigits s 0 0 in
  match rest with
  | String "."%char rest' =>
    let '(fp, n2, _) := readDigits rest' 0 0 in
    if (n1 + n2 =? 0)%nat then None
    else Some (inject_Z ip + inject_Z fp / inject_Z (10 ^ Z.of_nat n2))%Q
  | _ => if (n1 =? 0)%nat then None else Some (inject_Z ip)
  end.

Definition parseFloatString (s : string) : jsval :=
  let s := skipSpaces s in
  let '(negative, body) :=
    match s with
    | String "-"%char s' => (true, s')
    | String "+"%char s' => (false, s')
    | _ => (false, s)
    end in
  match parseUnsigned body with
  | Some q => JNum (if negative then - q else q)%Q
  | None => JNaN
  end.

(** [parseFloat(v)]: a number is converted to its decimal string and read
    back, which gives the number itself; [null] and [undefined] print as words
    and give [NaN]. *)
Definition parseFloat (v : jsval) : jsval :=
  match v with
  | JStr s => parseFloatString s
  | JNum q => JNum q
  | _ => JNaN
  end.

(** The number denoted by [x.toFixed(1)]: [x] rounded to one decimal, halves
    away from zero.  The code rounds the double it holds, which for a product
    such as [0.1235 * 100] lies just under the half and is rounded down: on
    the numbers that end in a half of a tenth the model is not the code. *)
Definition toFixed1 (x : Q) : Q :=
  if Qle_bool 0 x
  then (inject_Z (Qfloor (x * 10 + (1 # 2))) / 10)%Q
  else (- (inject_Z (Qfloor (- x * 10 + (1 # 2))) / 10))%Q.

(** Decimal digits, and numbers padded with zeros to two and four digits. *)
Definition digit (n : Z) : ascii := ascii_of_nat (48 + Z.to_nat n).

Definition pad2 (n : Z) : string :=
  String (digit (n / 10)) (String (digit (n mod 10)) EmptyString).

Definition pad4 (n : Z) : string :=
  String (digit (n / 1000)) (String (digit ((n / 100) mod 10))
    (String (digit ((n / 10) mod 10)) (String (digit (n mod 10)) EmptyString))).

(** Equality of values up to the representation of rationals. *)
Definition same (v w : jsval) : Prop :=
  match v, w with
  | JNum p, JNum q => (p == q)%Q
  | _, _ => v = w
  end.

End JS.

(** ** Upstream client ([src/services/mfApiClient.js]) *)

Module MfApiClient.
Import JS.

(** One element [{date, nav}] of the upstream [data] array. *)
Record ApiItem := mkItem {
  item_date : string;
  item_nav  : string
}.

(** The upstream [meta] object.  [scheme_code] is carried as the string
    [String(meta.scheme_code)] produces. *)
Record ApiMeta := mkMeta {
  fund_house      : string;
  scheme_type     : string;
  scheme_category : string;
  scheme_code     : string;
  scheme_name     : string
}.

(** The upstream response; [meta] and [data] may be missing. *)
Record ApiResponse := mkResponse {
  meta : option ApiMeta;
  data : option (list ApiItem)
}.

(** A call either returns or throws an [Error] with a message. *)
Inductive outcome (A : Type) :=
| Returned (a : A)
| Thrown (message : string).
Arguments Returned {A} a.
Arguments Thrown {A} message.

Record NormalizedMeta := mkNormalizedMeta {
  schemeCode : string;
  schemeName : string;
  amc        : string;
  category   : string;
  schemeType : string
}.

(** An element [{date, nav}] of the normalized history. *)
Record NavRecord := mkNavRecord {
  date : string;
  nav  : jsval
}.

Record SchemeData := mkSchemeData {
  normalizedMeta : NormalizedMeta;
  navHistory     : list NavRecord
}.

(** [s.split(sep)] for a one-character separator. *)
Fixpoint split (sep : ascii) (s : string) : list string :=
  match s with
  | EmptyString => [EmptyString]
  | String c s' =>
    if Ascii.eqb c sep then EmptyString :: split sep s'
    else
      match split sep s' with
      | piece :: pieces => String c piece :: pieces
      | [] => [String c EmptyString]
      end
  end.

(** An element of a destructured array, printed in a template string:
    a missing element prints as [undefined]. *)
Definition component (parts : list string) (i : nat) : string :=
  List.nth i parts "undefined"%string.

(** [parseNavDate(dateStr)] *)
Definition parseNavDate (dateStr : string) : string :=
  let parts := split "-"%char dateStr in
  let day := component parts 0 in
  let month := component parts 1 in
  let year := component parts 2 in
  (year ++ "-" ++ month ++ "-" ++ day)%string.

(** [a.date.localeCompare(b.date)]: on the strings of digits and hyphens at
    hand, the collation order is the order of the character codes. *)
Definition localeCompare (a b : string) : comparison := String.compare a b.

(** [Array.prototype.sort] with the comparator
    [(a, b) => a.date.localeCompare(b.date)]: a stable sort. *)
Fixpoint insertByDate (x : NavRecord) (l : list NavRecord) : list NavRecord :=
  match l with
  | [] => [x]
  | y :: l' =>
    match localeCompare (date x) (date y) with
    | Gt => y :: insertByDate x l'
    | _ => x :: l
    end
  end.

Fixpoint sortByDate (l : list NavRecord) : list NavRecord :=
  match l with
  | [] => []
  | x :: l' => insertByDate x (sortByDate l')
  end.

(** [normalizeSchemeData(apiResponse)]; reading a property of a missing
    [meta] throws a [TypeError]. *)
Definition normalizeSchemeData (apiResponse : ApiResponse) : outcome SchemeData :=
  match meta apiResponse with
  | None => Thrown "Cannot read properties of undefined (reading 'scheme_code')"
  | Some meta =>
    let data := data apiResponse in
    let normalizedMeta :=
      mkNormalizedMeta (scheme_code meta) (scheme_name meta) (fund_house meta)
                       (scheme_category meta) (scheme_type meta) in
    let navHistory :=
      sortByDate
        (List.map (fun item => mkNavRecord (parseNavDate (item_date item))
                                           (parseFloat (JStr (item_nav item))))
                  (match data with Some d => d | None => [] end)) in
    Returned (mkSchemeData normalizedMeta navHistory)
  end.

(** *** Specification-side notions *)

(** A calendar date. *)
Record CalendarDate := mkDate {
  year  : Z;
  month : Z;
  day   : Z
}.

Definition validDate (d : CalendarDate) : Prop :=
  (0 <= year d < 10000 /\ 0 <= month d < 100 /\ 0 <= day d < 100)%Z.

(** Calendar order. *)
Definition earlier (a b : CalendarDate) : Prop :=
  (year a < year b \/
   (year a = year b /\ (month a < month b \/ (month a = month b /\ day a < day b))))%Z.

(** [DD-MM-YYYY], the upstream format, and [YYYY-MM-DD], the ISO format. *)
Definition upstreamFormat (d : CalendarDate) : string :=
  (pad2 (day d) ++ "-" ++ pad2 (month d) ++ "-" ++ pad4 (year d))%string.

Definition isoFormat (d : CalendarDate) : string :=
  (pad4 (year d) ++ "-" ++ pad2 (month d) ++ "-" ++ pad2 (day d))%string.

(** A string without hyphen. *)
Fixpoint noHyphen (s : string) : bool :=
  match s with
  | EmptyString => true
  | String c s' => negb (Ascii.eqb c "-") && noHyphen s'
  end.

(** Every element is related to the next one. *)
Fixpoint chain {A : Type} (R : A -> A -> Prop) (l : list A) : Prop :=
  match l with
  | a :: ((b :: _) as rest) => R a b /\ chain R rest
  | _ => True
  end.

(** A list of dates in strictly descending calendar order. *)
Definition descending (ds : list CalendarDate) : Prop :=
  chain (fun a b => earlier b a) ds.

(** A history in strictly ascending order of its ISO date strings. *)
Definition ascendingIso (l : list NavRecord) : Prop :=
  chain (fun a b => String.compare (date a) (date b) = Lt) l.


(** A decimal numeral such as [12.3456]: the digits before the point and
    the digits after it, the most significant first. *)
Record Numeral := mkNumeral {
  wholeDigits    : list Z;
  fractionDigits : list Z
}.

Definition isDigits (ds : list Z) : Prop := Forall (fun d => 0 <= d < 10) ds.

Definition validNumeral (n : Numeral) : Prop :=
  wholeDigits n <> [] /\ isDigits (wholeDigits n) /\ isDigits (fractionDigits n).

(** The numeral as it is written. *)
Fixpoint digitsText (ds : list Z) : string :=
  match ds with
  | [] => EmptyString
  | d :: rest => String (digit d) (digitsText rest)
  end.

Definition numeralText (n : Numeral) : string :=
  (digitsText (wholeDigits n) ++ "." ++ digitsText (fractionDigits n))%string.

(** The number the numeral denotes: every digit counts for its power of
    ten. *)
Fixpoint digitsValue (ds : list Z) : Z :=
  match ds with
  | [] => 0
  | d :: rest => d * 10 ^ Z.of_nat (List.length rest) + digitsValue rest
  end.

Definition numeralValue (n : Numeral) : Q :=
  (inject_Z (digitsValue (wholeDigits n))
   + inject_Z (digitsValue (fractionDigits n))
     / inject_Z (10 ^ Z.of_nat (List.length (fractionDigits n))))%Q.

(** The upstream [data] array holding the given dates and NAVs, and its
    date-ascending view with the dates in ISO format and the NAVs as the
    numbers their numerals denote. *)
Definition upstreamData (entries : list (CalendarDate * Numeral)) : list ApiItem :=
  List.map (fun e => mkItem (upstreamFormat (fst e)) (numeralText (snd e))) entries.

Definition ascendingView (entries : list (CalendarDate * Numeral)) : list NavRecord :=
  List.rev (List.map (fun e => mkNavRecord (isoFormat (fst e)) (JNum (numeralValue (snd e))))
                     entries).

End MfApiClient.

(** ** Backfill orchestrator ([src/services/backfillService.js],
       [src/dao/syncStateDao.js], [src/dao/fundsDao.js],
       [src/dao/navHistoryDao.js]) *)

Module Backfill.
Import JS MfApiClient.

(** The [status] column of [sync_state]. *)
Inductive Status := Pending | InProgress | Completed | Failed.

Definition Status_eqb (a b : Status) : bool :=
  match a, b with
  | Pending, Pending | InProgress, InProgress | Completed, Completed | Failed, Failed => true
  | _, _ => false
  end.

(** A row of [sync_state], keyed by [(scheme_code, sync_type)]. *)
Record SyncState := mkSyncState {
  status           : Status;
  last_synced_date : option string;
  total_records    : Z;
  error_message    : option string;
  started_at       : option string;
  completed_at     : option string
}.

(** The [updates] object of [syncStateDao.update]: the columns to set. *)
Record Updates := mkUpdates {
  u_status         : option Status;
  u_lastSyncedDate : option (option string);
  u_totalRecords   : option Z;
  u_errorMessage   : option (option string);
  u_startedAt      : option (option string);
  u_completedAt    : option (option string)
}.

(** A row of [funds], keyed by [scheme_code]. *)
Record FundRow := mkFundRow {
  fund_scheme_name : string;
  fund_amc         : string;
  fund_category    : string;
  fund_scheme_type : option string
}.

(** A scheme descriptor [{schemeCode, schemeName, amc, category}] produced
    by discovery; a missing [amc] or [category] is the empty string. *)
Record Scheme := mkScheme {
  s_schemeCode : string;
  s_schemeName : string;
  s_amc        : string;
  s_category   : string
}.

(** The trace of a run: what the backfill service logs at level [info] or
    [error], and the calls of [mfApiClient.getSchemeData] it makes, recorded
    so that what a run fetches can be told. *)
Inductive LogEvent :=
| StartingBackfill (schemeCode : string)
| GetSchemeData (schemeCode : string)
| BackfillCompleted (schemeCode : string)
| BackfillFailed (schemeCode : string) (error : string)
| SkippingCompleted (schemeCode : string).

(** The relational store and the trace. *)
Record State := mkState {
  funds       : gmap string FundRow;
  nav_history : gmap (string * string) jsval;
  sync_state  : gmap (string * string) SyncState;
  logs        : list LogEvent
}.

(** The collaborators of one run: the upstream fetch
    ([mfApiClient.getSchemeData], rate-limit wait included), the failures of
    the fund and NAV writes, and the clock. *)
Record World := mkWorld {
  getSchemeData  : string -> outcome ApiResponse;
  fundWriteFault : string -> option string;
  navWriteFault  : string -> option string;
  clock          : string
}.

Definition logInfo (e : LogEvent) (st : State) : State :=
  mkState (funds st) (nav_history st) (sync_state st) (logs st ++ [e]).

(** [syncStateDao.findBySchemeAndType] *)
Definition findBySchemeAndType (schemeCode syncType : string) (st : State) : option SyncState :=
  sync_state st !! (schemeCode, syncType).

(** [syncStateDao.create]: the other columns take their defaults. *)
Definition create (schemeCode syncType : string) (status : Status) (st : State) : State :=
  mkState (funds st) (nav_history st)
    (<[(schemeCode, syncType) := mkSyncState status None 0 None None None]> (sync_state st))
    (logs st).

Definition applyUpdates (u : Updates) (row : SyncState) : SyncState :=
  mkSyncState
    (match u_status u with Some v => v | None => status row end)
    (match u_lastSyncedDate u with Some v => v | None => last_synced_date row end)
    (match u_totalRecords u with Some v => v | None => total_records row end)
    (match u_errorMessage u with Some v => v | None => error_message row end)
    (match u_startedAt u with Some v => v | None => started_at row end)
    (match u_completedAt u with Some v => v | None => completed_at row end).

(** [syncStateDao.update]: an [UPDATE ... WHERE scheme_code = ? AND
    sync_type = ?]; no row, no change. *)
Definition update (schemeCode syncType : string) (updates : Updates) (st : State) : State :=
  mkState (funds st) (nav_history st)
    (match sync_state st !! (schemeCode, syncType) with
     | Some row => <[(schemeCode, syncType) := applyUpdates updates row]> (sync_state st)
     | None => sync_state st
     end)
    (logs st).

Definition updateSyncState := update.

(** [fundsDao.upsert] *)
Definition upsertFund (schemeCode : string) (row : FundRow) (st : State) : State :=
  mkState (<[schemeCode := row]> (funds st)) (nav_history st) (sync_state st) (logs st).

(** [navHistoryDao.bulkUpsert]: [INSERT ... ON DUPLICATE KEY UPDATE nav]. *)
Definition upsertNavHistory (schemeCode : string) (navHistory : list NavRecord) (st : State)
    : State :=
  mkState (funds st)
    (fold_left (fun m r => <[(schemeCode, date r) := nav r]> m) navHistory (nav_history st))
    (sync_state st) (logs st).

(** [getSyncState(schemeCode, syncType, schemeInfo)]; its statements run
    outside any [try] and are taken to succeed.  The [INSERT] of [create]
    needs a [funds] row of the scheme (foreign key), which the upsert before
    it provides when [schemeInfo] is given: the model covers the calls that
    find the sync-state row, or find or make the fund row. *)
Definition getSyncState (schemeCode syncType : string) (schemeInfo : option Scheme) (st : State)
    : State * option SyncState :=
  match findBySchemeAndType schemeCode syncType st with
  | Some state => (st, Some state)
  | None =>
    let st :=
      match schemeInfo with
      | Some info =>
        upsertFund (s_schemeCode info)
          (mkFundRow (s_schemeName info) (s_amc info) (s_category info) None) st
      | None => st
      end in
    let st := create schemeCode syncType Pending st in
    (st, findBySchemeAndType schemeCode syncType st)
  end.

(** [a || b] on strings. *)
Definition orElse (a b : string) : string :=
  if String.eqb a "" then b else a.

(** What [backfillScheme] returns: [{success, schemeCode, dateRange, error}].
    ([recordsInserted], the [affectedRows] the database reports, is left
    out.) *)
Record BackfillResult := mkBackfillResult {
  success     : bool;
  r_schemeCode : string;
  dateRange   : option (option string * option string);
  error       : option string
}.

(** The body of the [try] block of [backfillScheme] after the first state
    update: the state reached and either the normalized history or the
    message of the exception thrown. *)
Definition fetchAndStore (w : World) (scheme : Scheme) (st : State)
    : State * outcome (list NavRecord) :=
  let schemeCode := s_schemeCode scheme in
  let st := logInfo (GetSchemeData schemeCode) st in
  match getSchemeData w schemeCode with
  | Thrown e => (st, Thrown e)
  | Returned apiData =>
    match normalizeSchemeData apiData with
    | Thrown e => (st, Thrown e)
    | Returned sd =>
      let meta := normalizedMeta sd in
      let navHistory := navHistory sd in
      match fundWriteFault w schemeCode with
      | Some e => (st, Thrown e)
      | None =>
        let st :=
          upsertFund schemeCode
            (mkFundRow (schemeName meta)
                       (orElse (s_amc scheme) (amc meta))
                       (orElse (s_category scheme) (category meta))
                       (if String.eqb (schemeType meta) "" then None else Some (schemeType meta)))
            st in
        match navHistory with
        | [] => (st, Returned navHistory)
        | _ =>
          match navWriteFault w schemeCode with
          | Some e => (st, Thrown e)
          | None => (upsertNavHistory schemeCode navHistory st, Returned navHistory)
          end
        end
      end
    end
  end.

(** [backfillScheme(scheme, requestId)] *)
Definition backfillScheme (w : World) (scheme : Scheme) (st : State) : State * BackfillResult :=
  let schemeCode := s_schemeCode scheme in
  let st := logInfo (StartingBackfill schemeCode) st in
  let st :=
    updateSyncState schemeCode "backfill"
      (mkUpdates (Some InProgress) None None (Some None) (Some (Some (clock w))) None) st in
  match fetchAndStore w scheme st with
  | (st, Returned navHistory) =>
    let startDate := option_map date (List.head navHistory) in
    let endDate :=
      match navHistory with
      | [] => None
      | first :: _ => Some (date (List.last navHistory first))
      end in
    let st :=
      updateSyncState schemeCode "backfill"
        (mkUpdates (Some Completed) (Some endDate)
                   (Some (Z.of_nat (List.length navHistory))) None None
                   (Some (Some (clock w)))) st in
    let st := logInfo (BackfillCompleted schemeCode) st in
    (st, mkBackfillResult true schemeCode (Some (startDate, endDate)) None)
  | (st, Thrown message) =>
    let st :=
      updateSyncState schemeCode "backfill"
        (mkUpdates (Some Failed) None None (Some (Some message)) None None) st in
    let st := logInfo (BackfillFailed schemeCode message) st in
    (st, mkBackfillResult false schemeCode None (Some message))
  end.

(** The [results] object of [backfillAllSchemes]. *)
Record Results := mkResults {
  total     : Z;
  completed : Z;
  failed    : Z;
  skipped   : Z;
  errors    : list (string * string)
}.

(** One iteration of the loop of [backfillAllSchemes].  [getSyncState]
    returns the row it has found or just created, so the last branch is never
    taken. *)
Definition backfillOne (w : World) (acc : State * Results) (scheme : Scheme) : State * Results :=
  let '(st, results) := acc in
  let '(st, syncState) := getSyncState (s_schemeCode scheme) "backfill" (Some scheme) st in
  match syncState with
  | Some row =>
    if Status_eqb (status row) Completed
    then
      (logInfo (SkippingCompleted (s_schemeCode scheme)) st,
       mkResults (total results) (completed results) (failed results)
                 (skipped results + 1) (errors results))
    else
      let '(st, result) := backfillScheme w scheme st in
      if success result
      then (st, mkResults (total results) (completed results + 1) (failed results)
                          (skipped results) (errors results))
      else (st, mkResults (total results) (completed results) (failed results + 1)
                          (skipped results)
                          (errors results ++
                           [(s_schemeCode scheme,
                             match error result with Some e => e | None => "" end)]))
  | None => (st, results)
  end.

(** [backfillAllSchemes(schemes, requestId)], without progress callback. *)
Definition backfillAllSchemes (w : World) (schemes : list Scheme) (st : State)
    : State * Results :=
  fold_left (backfillOne w) schemes
    (st, mkResults (Z.of_nat (List.length schemes)) 0 0 0 []).

(** *** Specification-side notions *)

(** The schemes whose processing was started, resp. skipped, in log order. *)
Definition processed (l : list LogEvent) : list string :=
  List.flat_map (fun e => match e with StartingBackfill c => [c] | _ => [] end) l.

Definition skippedSchemes (l : list LogEvent) : list string :=
  List.flat_map (fun e => match e with SkippingCompleted c => [c] | _ => [] end) l.

(** The schemes fetched from upstream, in the order of the calls. *)
Definition fetched (l : list LogEvent) : list string :=
  List.flat_map (fun e => match e with GetSchemeData c => [c] | _ => [] end) l.

(** The backfill sync-state of a scheme is [completed]. *)
Definition isCompleted (st : State) (scheme : Scheme) : bool :=
  match sync_state st !! (s_schemeCode scheme, "backfill"%string) with
  | Some row => Status_eqb (status row) Completed
  | None => false
  end.

(** The message of the exception raised by the fetch, the normalization or
    the writes of one scheme, if any. *)
Definition raised (w : World) (scheme : Scheme) : option string :=
  match getSchemeData w (s_schemeCode scheme) with
  | Thrown e => Some e
  | Returned apiData =>
    match normalizeSchemeData apiData with
    | Thrown e => Some e
    | Returned sd =>
      match fundWriteFault w (s_schemeCode scheme) with
      | Some e => Some e
      | None =>
        match navHistory sd with
        | [] => None
        | _ => navWriteFault w (s_schemeCode scheme)
        end
      end
    end
  end.

(** The normalized history of the scheme, when the fetch returns one. *)
Definition fetchedHistory (w : World) (scheme : Scheme) : option (list NavRecord) :=
  match getSchemeData w (s_schemeCode scheme) with
  | Returned apiData =>
    match normalizeSchemeData apiData with
    | Returned sd => Some (navHistory sd)
    | Thrown _ => None
    end
  | Thrown _ => None
  end.

(** The backfill of the scheme throws. *)
Definition raises (w : World) (scheme : Scheme) : bool :=
  match raised w scheme with
  | Some _ => true
  | None => false
  end.

(** The NAV the last record of the history dated [d] carries, if any. *)
Definition recorded (history : list NavRecord) (d : string) : option jsval :=
  fold_left (fun acc r => if String.eqb (date r) d then Some (nav r) else acc) history None.

(** The calls of [getSyncState] that run to their end: the sync-state row is
    there, or the [INSERT] of [create] finds the [funds] row its foreign key
    refers to, in the table already or upserted from [schemeInfo] just
    before.  On any other call the [INSERT] is rejected and the function
    throws. *)
Definition fundRowProvided (schemeCode syncType : string) (schemeInfo : option Scheme)
    (st : State) : Prop :=
  is_Some (sync_state st !! (schemeCode, syncType)) \/
  is_Some (funds st !! schemeCode) \/
  exists info, schemeInfo = Some info /\ s_schemeCode info = schemeCode.

(** The rows of the scheme are in [st'] what they are in [st]: its backfill
    sync-state, its fund row and its NAV rows. *)
Definition rowsKept (schemeCode : string) (st st' : State) : Prop :=
  sync_state st' !! (schemeCode, "backfill"%string)
    = sync_state st !! (schemeCode, "backfill"%string) /\
  funds st' !! schemeCode = funds st !! schemeCode /\
  forall d, nav_history st' !! (schemeCode, d) = nav_history st !! (schemeCode, d).

(** [st'] holds what a backfill of the scheme from scratch leaves on top of
    [st].  When nothing throws: the sync-state row is [completed] with the
    number of records fetched, and the NAV table holds every record fetched,
    under its date (the later record of a date fetched twice), and the rows
    of the other dates as they were.  When something throws: the sync-state
    row is [failed] with the message, and the NAV rows are as they were. *)
Definition backfilledRows (w : World) (scheme : Scheme) (st st' : State) : Prop :=
  let code := s_schemeCode scheme in
  match raised w scheme with
  | None =>
    exists history row,
      fetchedHistory w scheme = Some history /\
      sync_state st' !! (code, "backfill"%string) = Some row /\
      status row = Completed /\
      total_records row = Z.of_nat (List.length history) /\
      forall d, nav_history st' !! (code, d)
                = match recorded history d with
                  | Some v => Some v
                  | None => nav_history st !! (code, d)
                  end
  | Some message =>
    exists row,
      sync_state st' !! (code, "backfill"%string) = Some row /\
      status row = Failed /\ error_message row = Some message /\
      forall d, nav_history st' !! (code, d) = nav_history st !! (code, d)
  end.

(** The order of the ISO date strings of two records. *)
Definition dateLe (a b : NavRecord) : Prop := String.compare (date a) (date b) <> Gt.

(** [d] is the greatest [nav_date] of the history ([None] for an empty one),
    in the order of the ISO strings. *)
Definition isMaxDate (d : option string) (history : list NavRecord) : Prop :=
  match d with
  | None => history = []
  | Some d =>
    In d (List.map date history) /\
    forall r, In r history -> String.compare (date r) d <> Gt
  end.

(** *** Fixtures, after [tests/pipelineResumability.test.js] *)

Definition fixtureSchemes : list Scheme :=
  [ mkScheme "118989" "HDFC Mid Cap Opportunities" "HDFC" "Mid Cap Direct Growth";
    mkScheme "120596" "Axis Small Cap Fund" "Axis" "Small Cap Direct Growth";
    mkScheme "125354" "SBI Small Cap Fund" "SBI" "Small Cap Direct Growth" ].

Definition fixtureState : State :=
  mkState ∅ ∅
    (<[("118989", "backfill")%string :=
         mkSyncState Completed (Some "2026-01-20"%string) 3000 None None None]>
     (<[("120596", "backfill")%string :=
         mkSyncState Failed None 0 (Some "Timeout"%string) None None]>
      (<[("125354", "backfill")%string := mkSyncState Pending None 0 None None None]> ∅)))
    [].

(** An upstream that answers every scheme with two NAV points, and a store
    whose writes succeed. *)
Definition fixtureWorld : World :=
  mkWorld
    (fun code => Returned (mkResponse
       (Some (mkMeta "Fund House" "Open Ended" "Equity" code "Scheme"))
       (Some [mkItem "03-01-2024" "12.5"; mkItem "02-01-2024" "12.25"])))
    (fun _ => None) (fun _ => None) "2024-01-04 06:00:00".

End Backfill.

(** ** Fund ranking ([src/dao/fundsDao.js]) and the database driver
       ([src/db/connection.js]) *)

Module FundsDao.
Import JS.

(** A [DECIMAL(10,4)] value: a whole number of ten-thousandths.  [None] is
    SQL [NULL]. *)
Definition decimal4 := Z.

Definition decimalValue (n : decimal4) : Q := (inject_Z n / 10000)%Q.

(** A row of the join of [funds], [analytics] and the latest [nav_history]
    row that [rankByMetric] selects from. *)
Record RankRow := mkRankRow {
  scheme_code           : string;
  scheme_name           : string;
  amc                   : string;
  category              : string;
  window_type           : string;
  rolling_return_min    : option decimal4;
  rolling_return_max    : option decimal4;
  rolling_return_median : option decimal4;
  rolling_return_p25    : option decimal4;
  rolling_return_p75    : option decimal4;
  max_drawdown          : option decimal4;
  cagr_min              : option decimal4;
  cagr_max              : option decimal4;
  cagr_median           : option decimal4;
  latest_nav            : option decimal4;
  latest_nav_date       : option string
}.

(** The parameters [{category, sortBy, window, limit}]. *)
Record RankParams := mkRankParams {
  p_category : string;
  p_sortBy   : string;
  p_window   : string;
  p_limit    : nat
}.

(** [sortColumnMap[sortBy] || 'rolling_return_median'], for a [sortBy] that
    is a key of the map or names no property at all (a name every object
    inherits, such as [constructor], is not covered). *)
Definition sortColumn (sortBy : string) (r : RankRow) : option decimal4 :=
  if String.eqb sortBy "median_return" then rolling_return_median r
  else if String.eqb sortBy "max_drawdown" then max_drawdown r
  else if String.eqb sortBy "cagr_median" then cagr_median r
  else rolling_return_median r.

(** [sortBy === 'max_drawdown' ? 'ASC' : 'DESC'] *)
Inductive SortOrder := ASC | DESC.

Definition sortOrder (sortBy : string) : SortOrder :=
  if String.eqb sortBy "max_drawdown" then ASC else DESC.

(** [ORDER BY column order]: where the first row may stand with respect to
    the second. *)
Definition inOrder (o : SortOrder) (a b : option decimal4) : bool :=
  match a, b with
  | Some x, Some y =>
    match o with
    | ASC => (x <=? y)%Z
    | DESC => (y <=? x)%Z
    end
  | _, _ => true
  end.

(** A model of [LIKE] for ASCII text: [%] matches any run of characters,
    [_] any one character, letters match whatever their case. *)
Definition lower (c : ascii) : ascii :=
  let n := nat_of_ascii c in
  if (65 <=? n)%nat && (n <=? 90)%nat then ascii_of_nat (n + 32) else c.

Fixpoint likeMatch (value pattern : string) {struct pattern} : bool :=
  match pattern with
  | EmptyString => match value with EmptyString => true | _ => false end
  | String c pattern' =>
    if Ascii.eqb c "%" then
      (fix anySuffix (v : string) : bool :=
         likeMatch v pattern' ||
         match v with
         | EmptyString => false
         | String _ v' => anySuffix v'
         end) value
    else
      match value with
      | EmptyString => false
      | String d value' =>
        (Ascii.eqb c "_" || Ascii.eqb (lower c) (lower d)) && likeMatch value' pattern'
      end
  end.

Section WithLike.

(** [value LIKE pattern] under the collation of the table; the semantics of
    the database, a parameter here. *)
Variable LIKE : string -> string -> bool.

(** The row has a value in the sort column. *)
Definition keyed (p : RankParams) (r : RankRow) : Prop :=
  exists x, sortColumn (p_sortBy p) r = Some x.

(** The first row may stand before the second. *)
Definition rowOrder (p : RankParams) (a b : RankRow) : Prop :=
  inOrder (sortOrder (p_sortBy p)) (sortColumn (p_sortBy p) a) (sortColumn (p_sortBy p) b) = true.

(** The [WHERE] clause. *)
Definition selected (p : RankParams) (r : RankRow) : bool :=
  LIKE (category r) ("%" ++ p_category p ++ "%")%string
  && String.eqb (window_type r) (p_window p)
  && match sortColumn (p_sortBy p) r with Some _ => true | None => false end.

(** What the query of [rankByMetric] may return on the joined rows: the
    first [limit] rows of any arrangement of the selected rows that is in
    the order of the sort column.  SQL leaves the order of rows with equal
    sort values open. *)
Definition rankByMetric (p : RankParams) (joined : list RankRow) (out : list RankRow) : Prop :=
  exists arranged,
    Permutation arranged (List.filter (selected p) joined) /\
    StronglySorted (rowOrder p) arranged /\
    out = List.firstn (p_limit p) arranged.

(** One admissible execution: a stable sort of the selected rows in the
    order the join lists them. *)
Fixpoint insertRow (p : RankParams) (x : RankRow) (l : list RankRow) : list RankRow :=
  match l with
  | [] => [x]
  | y :: l' =>
    if inOrder (sortOrder (p_sortBy p)) (sortColumn (p_sortBy p) x) (sortColumn (p_sortBy p) y)
    then x :: l
    else y :: insertRow p x l'
  end.

Fixpoint sortRows (p : RankParams) (l : list RankRow) : list RankRow :=
  match l with
  | [] => []
  | x :: l' => insertRow p x (sortRows p l')
  end.

Definition rankByMetricStable (p : RankParams) (joined : list RankRow) : list RankRow :=
  List.firstn (p_limit p) (sortRows p (List.filter (selected p) joined)).

End WithLike.

(** [getPool()]: the pool is created without [decimalNumbers], so the driver
    delivers [DECIMAL] columns as strings; with the option set it would
    deliver numbers. *)
Definition pool_decimalNumbers : bool := false.

(** The string of a [DECIMAL(10,4)] value, e.g. ["-0.2000"]. *)
Definition renderDecimal4 (n : decimal4) : string :=
  ((if (n <? 0)%Z then "-" else "") ++
   NilZero.string_of_uint (N.to_uint (Z.to_N (Z.abs n / 10000))) ++ "." ++
   pad4 (Z.abs n mod 10000))%string.

(** The JavaScript value the driver hands over for a [DECIMAL] column. *)
Definition deliverDecimal (decimalNumbers : bool) (v : option decimal4) : jsval :=
  match v with
  | None => JNull
  | Some n => if decimalNumbers then JNum (decimalValue n) else JStr (renderDecimal4 n)
  end.

(** *** Specification-side notions *)

(** Rows with equal sort values stand in the order [before] of their
    [scheme_code]s. *)
Definition tiesBrokenBy (before : string -> string -> Prop) (sortBy : string)
    (out : list RankRow) : Prop :=
  forall i a b,
    List.nth_error out i = Some a -> List.nth_error out (S i) = Some b ->
    sortColumn sortBy a = sortColumn sortBy b ->
    before (scheme_code a) (scheme_code b).

(** Two funds of one category with the same 1Y median return. *)
Definition tiedFunds : list RankRow :=
  [ mkRankRow "100" "Fund A" "HDFC" "Mid Cap Direct Growth" "1Y"
      (Some 100) (Some 3000) (Some 1500) (Some 900) (Some 2100) (Some (-2000))
      (Some 100) (Some 3000) (Some 1500) (Some 1000000) (Some "2026-01-20"%string);
    mkRankRow "200" "Fund B" "HDFC" "Mid Cap Direct Growth" "1Y"
      (Some 200) (Some 2800) (Some 1500) (Some 800) (Some 2000) (Some (-2000))
      (Some 200) (Some 2800) (Some 1500) (Some 2000000) (Some "2026-01-20"%string) ].

End FundsDao.

(** ** Analytics engine ([src/services/analyticsService.js]) *)

Module Analytics.
Import JS.
Local Open Scope Q_scope.

(** The [nav] of a row of the NAV history: a number, when the caller has
    built the row from numbers, or the text of the [DECIMAL(15,4)] column, such
    as ["100.0000"], when the row comes from [navHistoryDao.findAllByScheme]
    as in [computeSchemeAnalytics]: the pool is created without
    [decimalNumbers] and delivers every [DECIMAL] as a string.  The text is
    carried as the whole number of ten-thousandths it prints. *)
Inductive NavValue :=
| NavNumber (q : Q)
| NavDecimal (n : FundsDao.decimal4).

(** [ToNumber]: what the arithmetic operators, and a comparison with a
    number, make of the value. *)
Definition toNumber (v : NavValue) : Q :=
  match v with
  | NavNumber q => q
  | NavDecimal n => FundsDao.decimalValue n
  end.

(** [a > b]: two strings are compared as strings, character code by
    character code; in every other case the numbers are compared. *)
Definition greaterThan (a b : NavValue) : bool :=
  match a, b with
  | NavDecimal m, NavDecimal n =>
    match String.compare (FundsDao.renderDecimal4 m) (FundsDao.renderDecimal4 n) with
    | Gt => true
    | _ => false
    end
  | _, _ => negb (Qle_bool (toNumber a) (toNumber b))
  end.

(** A row [{date, nav}] of the NAV history.  The ISO date string is carried
    as its day number (days since the epoch): [new Date(s)] is midnight UTC of
    that day, [toISOString().split('T')[0]] its inverse, and
    [setDate(getDate() - n)] moves [n] days back (the process time zone has
    no daylight saving). *)
Record NavPoint := mkNav {
  date : Z;
  nav  : NavValue
}.

(** [config.analyticsWindows] and [config.windowToDays]. *)
Inductive WindowType := W1Y | W3Y | W5Y | W10Y.

Definition analyticsWindows : list WindowType := [W1Y; W3Y; W5Y; W10Y].

Definition windowToDays (w : WindowType) : Z :=
  match w with
  | W1Y => 365
  | W3Y => 365 * 3
  | W5Y => 365 * 5
  | W10Y => 365 * 10
  end.

(** [parseInt(windowType.replace('Y', ''), 10)] *)
Definition windowYears (w : WindowType) : Z :=
  match w with
  | W1Y => 1
  | W3Y => 3
  | W5Y => 5
  | W10Y => 10
  end.

(** [calculatePercentile(sortedArray, percentile)] *)
Definition calculatePercentile (sortedArray : list Q) (percentile : Q) : jsval :=
  match sortedArray with
  | [] => JNull
  | [x] => JNum x
  | _ =>
    let index := (percentile / 100) * inject_Z (Z.of_nat (List.length sortedArray) - 1) in
    let lower := Qfloor index in
    let upper := Qceiling index in
    let fraction := index - inject_Z lower in
    if (lower =? upper)%Z then JS.index sortedArray lower
    else
      match JS.index sortedArray lower, JS.index sortedArray upper with
      | JNum lo, JNum hi => JNum (lo * (1 - fraction) + hi * fraction)
      | _, _ => JNaN
      end
  end.

(** [calculateReturn(startNav, endNav)] *)
Definition calculateReturn (startNav endNav : NavValue) : jsval :=
  if Qle_bool (toNumber startNav) 0 then JNull
  else JNum ((toNumber endNav - toNumber startNav) / toNumber startNav).

(** The state of the sweep of [calculateMaxDrawdown]: [peak], which is the
    [nav] of a row as the row holds it, and [maxDrawdown].  The test
    [nav > peak] compares the two values as they are, the subtraction and the
    division convert them to numbers.  The quotient is the rational one; a
    peak of 0, where JavaScript gives [NaN] or an infinity, is outside the
    histories the theorems are about. *)
Definition drawdownStep (st : NavValue * Q) (p : NavPoint) : NavValue * Q :=
  let '(peak, maxDrawdown) := st in
  let peak := if greaterThan (nav p) peak then nav p else peak in
  let drawdown := (toNumber (nav p) - toNumber peak) / toNumber peak in
  let maxDrawdown := if negb (Qle_bool maxDrawdown drawdown) then drawdown else maxDrawdown in
  (peak, maxDrawdown).

(** [calculateMaxDrawdown(navHistory)] *)
Definition calculateMaxDrawdown (navHistory : list NavPoint) : jsval :=
  if (Z.of_nat (List.length navHistory) <? 2)%Z then JNull
  else
    match navHistory with
    | [] => JNull
    | first :: _ => JNum (snd (fold_left drawdownStep navHistory (nav first, 0)))
    end.

(** [navByDate]: the [Map] from date to NAV; a later row replaces an earlier
    one with the same date. *)
Definition navByDate (navHistory : list NavPoint) : gmap Z NavValue :=
  fold_left (fun m p => <[date p := nav p]> m) navHistory ∅.

(** The inner loop [for (offset = 0; offset <= 5; offset++)]: the NAV at the
    first of the six dates [pastDate .. pastDate + 5] that has one. *)
Definition findPastNav (byDate : gmap Z NavValue) (pastDate : Z) : option NavValue :=
  List.fold_right
    (fun offset later =>
       match byDate !! (pastDate + offset)%Z with
       | Some v => Some v
       | None => later
       end)
    None [0; 1; 2; 3; 4; 5]%Z.

(** [calculateRollingReturns(navHistory, windowDays)] *)
Definition calculateRollingReturns (navHistory : list NavPoint) (windowDays : Z) : list Q :=
  let byDate := navByDate navHistory in
  List.flat_map
    (fun p =>
       match findPastNav byDate (date p - windowDays)%Z with
       | Some pastNav =>
         match calculateReturn pastNav (nav p) with
         | JNum r => [r]
         | _ => []
         end
       | None => []
       end)
    navHistory.

(** [[...xs].sort((a, b) => a - b)]: a stable ascending sort. *)
Fixpoint insertNum (x : Q) (l : list Q) : list Q :=
  match l with
  | [] => [x]
  | y :: l' => if Qle_bool x y then x :: l else y :: insertNum x l'
  end.

Fixpoint sortNum (l : list Q) : list Q :=
  match l with
  | [] => []
  | x :: l' => insertNum x (sortNum l')
  end.

(** The object built by [computeSchemeAnalytics]. *)
Record SchemeAnalytics := mkAnalytics {
  rollingReturnMin    : jsval;
  rollingReturnMax    : jsval;
  rollingReturnMedian : jsval;
  rollingReturnP25    : jsval;
  rollingReturnP75    : jsval;
  maxDrawdown         : jsval;
  cagrMin             : jsval;
  cagrMax             : jsval;
  cagrMedian          : jsval;
  dataStartDate       : Z;
  dataEndDate         : Z
}.

(** The sufficiency test: [historyDays < windowDays * 0.9], with
    [historyDays = (lastDate - firstDate) / (1000 * 60 * 60 * 24)]. *)
Definition historyDays (firstDate lastDate : Z) : Q :=
  inject_Z (lastDate * 86400000 - firstDate * 86400000) / inject_Z (1000 * 60 * 60 * 24).

Definition insufficient (firstDate lastDate : Z) (windowDays : Z) : bool :=
  negb (Qle_bool (inject_Z windowDays * (9 # 10)) (historyDays firstDate lastDate)).

Section WithPow.

(** [Math.pow] on fractional exponents leaves the rationals; it is a
    parameter of the functions that use it. *)
Variable Math_pow : Q -> Q -> Q.

(** [calculateCAGR(startNav, endNav, years)] *)
Definition calculateCAGR (startNav endNav : NavValue) (years : Z) : jsval :=
  if Qle_bool (toNumber startNav) 0 || (years <=? 0)%Z then JNull
  else JNum (Math_pow (toNumber endNav / toNumber startNav) (1 / inject_Z years) - 1).

(** [calculateRollingCAGRs(navHistory, windowYears)] *)
Definition calculateRollingCAGRs (navHistory : list NavPoint) (windowYears : Z) : list Q :=
  let windowDays := (windowYears * 365)%Z in
  let byDate := navByDate navHistory in
  List.flat_map
    (fun p =>
       match findPastNav byDate (date p - windowDays)%Z with
       | Some pastNav =>
         match calculateCAGR pastNav (nav p) windowYears with
         | JNum r => [r]
         | _ => []
         end
       | None => []
       end)
    navHistory.

(** [computeSchemeAnalytics], on the rows [getAllNavHistory] returned;
    [None] is the [null] of a skipped window. *)
Definition computeSchemeAnalytics (navHistory : list NavPoint) (windowType : WindowType)
    : option SchemeAnalytics :=
  let windowDays := windowToDays windowType in
  let windowYears := windowYears windowType in
  match navHistory with
  | [] => None
  | first :: _ =>
    let last := List.last navHistory first in
    if insufficient (date first) (date last) windowDays then None
    else
      let rollingReturns := calculateRollingReturns navHistory windowDays in
      if (Z.of_nat (List.length rollingReturns) =? 0)%Z then None
      else
        let sortedReturns := sortNum rollingReturns in
        let rollingCAGRs := calculateRollingCAGRs navHistory windowYears in
        let sortedCAGRs := sortNum rollingCAGRs in
        let maxDrawdown := calculateMaxDrawdown navHistory in
        let nonEmpty := (0 <? Z.of_nat (List.length sortedCAGRs))%Z in
        Some (mkAnalytics
          (JS.index sortedReturns 0)
          (JS.index sortedReturns (Z.of_nat (List.length sortedReturns) - 1))
          (calculatePercentile sortedReturns 50)
          (calculatePercentile sortedReturns 25)
          (calculatePercentile sortedReturns 75)
          maxDrawdown
          (if nonEmpty then JS.index sortedCAGRs 0 else JNull)
          (if nonEmpty then JS.index sortedCAGRs (Z.of_nat (List.length sortedCAGRs) - 1) else JNull)
          (if nonEmpty then calculatePercentile sortedCAGRs 50 else JNull)
          (date first)
          (date last))
  end.

End WithPow.

(** *** Specification-side notions *)

(** The running peak at each point of a series: the largest NAV so far. *)
Fixpoint runningPeaks (peak : Q) (navs : list Q) : list Q :=
  match navs with
  | [] => []
  | x :: rest =>
    let peak' := Qmax peak x in
    peak' :: runningPeaks peak' rest
  end.

(** The drawdown [(nav - peak) / peak] at each point. *)
Fixpoint drawdowns (peak : Q) (navs : list Q) : list Q :=
  match navs with
  | [] => []
  | x :: rest =>
    let peak' := Qmax peak x in
    ((x - peak') / peak') :: drawdowns peak' rest
  end.

(** The number a row holds as its NAV, and the rows that hold it as a
    number. *)
Definition navNumber (p : NavPoint) : Q := toNumber (nav p).

Definition numeric (p : NavPoint) : Prop := exists q, nav p = NavNumber q.

(** The row with the number [q] as NAV. *)
Definition numberRow (d : Z) (q : Q) : NavPoint := mkNav d (NavNumber q).

(** The row as [nav_history] delivers it: the NAV is the text of [n]
    ten-thousandths. *)
Definition decimalRow (d : Z) (n : FundsDao.decimal4) : NavPoint := mkNav d (NavDecimal n).

(** The drawdowns of a history: the sweep starts with the first NAV as peak. *)
Definition drawdownsOf (navHistory : list NavPoint) : list Q :=
  match navHistory with
  | [] => []
  | first :: _ => drawdowns (navNumber first) (List.map navNumber navHistory)
  end.

(** [m] is the least element of [l]. *)
Definition isMinimum (m : Q) (l : list Q) : Prop :=
  (exists d, In d l /\ m == d) /\ (forall d, In d l -> m <= d).

(** A series that never falls. *)
Fixpoint nonDecreasing (navs : list Q) : Prop :=
  match navs with
  | x :: ((y :: _) as rest) => x <= y /\ nonDecreasing rest
  | _ => True
  end.

(** Rows in ascending date order, as [ORDER BY nav_date ASC] returns them. *)
Fixpoint datesAscending (navHistory : list NavPoint) : Prop :=
  match navHistory with
  | p :: ((q :: _) as rest) => (date p <= date q)%Z /\ datesAscending rest
  | _ => True
  end.

End Analytics.

(** ** Read API ([src/routes/funds.js]) *)

Module FundsRoutes.
Import JS.

(** [v ? parseFloat((parseFloat(v) * 100).toFixed(1)) : null]: how every
    percentage of the two responses is formatted. *)
Definition formatPercent (v : jsval) : jsval :=
  if truthy v
  then match parseFloat v with
       | JNum q => JNum (toFixed1 (q * 100))
       | _ => JNaN
       end
  else JNull.

(** The row object [fundService.getAnalytics(code, window)] resolves to. *)
Record AnalyticsRow := mkAnalyticsRow {
  rolling_return_min    : jsval;
  rolling_return_max    : jsval;
  rolling_return_median : jsval;
  rolling_return_p25    : jsval;
  rolling_return_p75    : jsval;
  max_drawdown          : jsval;
  cagr_min              : jsval;
  cagr_max              : jsval;
  cagr_median           : jsval
}.

(** The percentages of the response of [GET /funds/:code/analytics]. *)
Record AnalyticsResponse := mkAnalyticsResponse {
  rolling_returns_min    : jsval;
  rolling_returns_max    : jsval;
  rolling_returns_median : jsval;
  rolling_returns_p25    : jsval;
  rolling_returns_p75    : jsval;
  resp_max_drawdown      : jsval;
  resp_cagr_min          : jsval;
  resp_cagr_max          : jsval;
  resp_cagr_median       : jsval
}.

Definition analyticsResponse (analytics : AnalyticsRow) : AnalyticsResponse :=
  mkAnalyticsResponse
    (formatPercent (rolling_return_min analytics))
    (formatPercent (rolling_return_max analytics))
    (formatPercent (rolling_return_median analytics))
    (formatPercent (rolling_return_p25 analytics))
    (formatPercent (rolling_return_p75 analytics))
    (formatPercent (max_drawdown analytics))
    (formatPercent (cagr_min analytics))
    (formatPercent (cagr_max analytics))
    (formatPercent (cagr_median analytics)).

(** A row object [fundService.rankFunds] resolves to, as far as the route
    reads it. *)
Record RankedRow := mkRankedRow {
  rr_scheme_code           : string;
  rr_scheme_name           : string;
  rr_amc                   : string;
  rr_rolling_return_median : jsval;
  rr_max_drawdown          : jsval;
  rr_latest_nav            : jsval;
  rr_latest_nav_date       : jsval
}.

(** An element of [formattedFunds]. *)
Record FormattedFund := mkFormattedFund {
  rank          : Z;
  fund_code     : string;
  fund_name     : string;
  ff_amc        : string;
  median_return : jsval;
  ff_max_drawdown : jsval;
  current_nav   : jsval;
  last_updated  : jsval
}.

(** [x || null] *)
Definition orNull (v : jsval) : jsval := if truthy v then v else JNull.

(** [ranked.map((fund, index) => ({...}))] *)
Fixpoint formattedFundsFrom (index : Z) (ranked : list RankedRow) : list FormattedFund :=
  match ranked with
  | [] => []
  | fund :: rest =>
    mkFormattedFund (index + 1) (rr_scheme_code fund) (rr_scheme_name fund) (rr_amc fund)
      (formatPercent (rr_rolling_return_median fund))
      (formatPercent (rr_max_drawdown fund))
      (orNull (rr_latest_nav fund)) (orNull (rr_latest_nav_date fund))
    :: formattedFundsFrom (index + 1) rest
  end.

Definition formattedFunds (ranked : list RankedRow) : list FormattedFund :=
  formattedFundsFrom 0 ranked.

(** The row objects the driver makes of the database rows. *)
Definition deliverRanked (decimalNumbers : bool) (r : FundsDao.RankRow) : RankedRow :=
  mkRankedRow (FundsDao.scheme_code r) (FundsDao.scheme_name r) (FundsDao.amc r)
    (FundsDao.deliverDecimal decimalNumbers (FundsDao.rolling_return_median r))
    (FundsDao.deliverDecimal decimalNumbers (FundsDao.max_drawdown r))
    (FundsDao.deliverDecimal decimalNumbers (FundsDao.latest_nav r))
    (match FundsDao.latest_nav_date r with Some d => JStr d | None => JNull end).

End FundsRoutes.

(** ** Rate limiter: monitoring and reset ([src/utils/rateLimiter.js]) *)

Module RateLimiterStatus.
Import RateLimiter.

(** What [peekBucket] returns: [{tokens, lastRefill}], each [null] when the
    field is missing or falsy. *)
Record Peek := mkPeek {
  peek_tokens     : option Q;
  peek_lastRefill : option Z
}.

(** The key prefix of [peekBucket] and [resetBuckets]:
    [isUpstashRedis() ? config.redis.keyPrefix + KEY_PREFIX : KEY_PREFIX]. *)
Definition keyPrefix (backend : Backend) : string :=
  if isUpstashRedis backend then redisKeyPrefix ++ KEY_PREFIX else KEY_PREFIX.

(** [peekBucket(bucketName)]: reads the hash with [hgetall], at the time
    [t] of the store, and consumes nothing. *)
Definition peekBucket (backend : Backend) (bucketName : string) (t : Z)
    (store : gmap string Entry) : Peek :=
  let key := (keyPrefix backend ++ bucketName)%string in
  let bucket := HGETALL t key store in
  mkPeek
    (match bucket with
     | Some b => if fieldTruthy (parsesNumbers backend) (tokens b) then Some (tokens b) else None
     | None => None
     end)
    (match bucket with
     | Some b =>
       if fieldTruthy (parsesNumbers backend) (inject_Z (last_refill b))
       then Some (last_refill b) else None
     | None => None
     end).

(** What [getStatus] returns: the three buckets peeked and the three
    capacities. *)
Record LimiterStatus := mkLimiterStatus {
  status_buckets : gmap string Peek;
  status_limits  : gmap string Z
}.

Definition bucketNames : list string := ["per_second"; "per_minute"; "per_hour"]%string.

(** [getStatus()] *)
Definition getStatus (backend : Backend) (rl : RateLimiting) (t : Z)
    (store : gmap string Entry) : LimiterStatus :=
  mkLimiterStatus
    (fold_left (fun status bucket => <[bucket := peekBucket backend bucket t store]> status)
               bucketNames ∅)
    (<["per_hour"%string := capacity (perHour rl)]>
       (<["per_minute"%string := capacity (perMinute rl)]>
          (<["per_second"%string := capacity (perSecond rl)]> ∅))).

(** [resetBuckets()]: [del] of the three keys. *)
Definition resetBuckets (backend : Backend) (store : gmap string Entry) : gmap string Entry :=
  fold_left (fun s bucket => DEL (keyPrefix backend ++ bucket)%string s) bucketNames store.

End RateLimiterStatus.

(** ** Analytics: medians and the batch computation
       ([src/services/analyticsService.js]) *)

Module AnalyticsBatch.
Import JS MfApiClient Analytics.
Local Open Scope Q_scope.

(** [calculateMedian(array)] *)
Definition calculateMedian (array : list Q) : jsval :=
  if (Z.of_nat (List.length array) =? 0)%Z then JNull
  else
    let sorted := sortNum array in
    calculatePercentile sorted 50.

(** The window types as the strings of [config.analyticsWindows]. *)
Definition windowName (w : WindowType) : string :=
  match w with
  | W1Y => "1Y"
  | W3Y => "3Y"
  | W5Y => "5Y"
  | W10Y => "10Y"
  end.

(** The collaborators of a batch: [fundService.getAllNavHistory], which may
    throw, and the failure, if any, of [fundService.upsertAnalytics]. *)
Record AnalyticsWorld := mkAnalyticsWorld {
  getAllNavHistory     : string -> outcome (list NavPoint);
  upsertAnalyticsFault : string -> WindowType -> option string
}.

(** An entry of the object [computeAllWindowsForScheme] returns:
    [{computed: true, analytics}] or
    [{computed: false, reason: 'insufficient_data'}]. *)
Definition WindowResult : Type := WindowType * option SchemeAnalytics.

(** [results.byWindow[w]]: [{computed, skipped}]. *)
Record WindowCount := mkWindowCount {
  wc_computed : Z;
  wc_skipped  : Z
}.

(** The [results] object of [computeAllAnalytics]. *)
Record AnalyticsResults := mkAnalyticsResults {
  ar_total    : Z;
  ar_computed : Z;
  ar_skipped  : Z;
  byWindow    : gmap string WindowCount
}.

(** [result.computed] *)
Definition isComputed (r : option SchemeAnalytics) : bool :=
  match r with Some _ => true | None => false end.

(** [computed++] or [skipped++] *)
Definition bump (computed : bool) (c : WindowCount) : WindowCount :=
  if computed then mkWindowCount (wc_computed c + 1) (wc_skipped c)
  else mkWindowCount (wc_computed c) (wc_skipped c + 1).

Section WithPow.

Variable Math_pow : Q -> Q -> Q.

(** One iteration of [for (const windowType of config.analyticsWindows)] in
    [computeAllWindowsForScheme]; an exception ends the loop. *)
Definition windowStep (w : AnalyticsWorld) (schemeCode : string)
    (acc : gmap (string * string) SchemeAnalytics * outcome (list WindowResult))
    (windowType : WindowType)
    : gmap (string * string) SchemeAnalytics * outcome (list WindowResult) :=
  match acc with
  | (table, Returned results) =>
    match getAllNavHistory w schemeCode with
    | Thrown e => (table, Thrown e)
    | Returned navHistory =>
      match computeSchemeAnalytics Math_pow navHistory windowType with
      | Some analytics =>
        match upsertAnalyticsFault w schemeCode windowType with
        | Some e => (table, Thrown e)
        | None =>
          (<[(schemeCode, windowName windowType) := analytics]> table,
           Returned (results ++ [(windowType, Some analytics)]))
        end
      | None => (table, Returned (results ++ [(windowType, None)]))
      end
    end
  | (table, Thrown e) => (table, Thrown e)
  end.

(** [computeAllWindowsForScheme(schemeCode, requestId)], on the [analytics]
    table. *)
Definition computeAllWindowsForScheme (w : AnalyticsWorld) (schemeCode : string)
    (table : gmap (string * string) SchemeAnalytics)
    : gmap (string * string) SchemeAnalytics * outcome (list WindowResult) :=
  fold_left (windowStep w schemeCode) analyticsWindows (table, Returned []).

(** The loop over [Object.entries(schemeResults)]: the counters of the
    windows and [anyComputed]. *)
Definition countWindows (schemeResults : list WindowResult)
    (byWindow : gmap string WindowCount) : gmap string WindowCount * bool :=
  fold_left
    (fun acc entry =>
       let '(byWindow, anyComputed) := acc in
       let '(window, result) := entry in
       match result with
       | Some _ => (alter (bump true) (windowName window) byWindow, true)
       | None => (alter (bump false) (windowName window) byWindow, anyComputed)
       end)
    schemeResults (byWindow, false).

(** One iteration of the loop of [computeAllAnalytics] over the schemes. *)
Definition analyticsOne (w : AnalyticsWorld)
    (acc : gmap (string * string) SchemeAnalytics * AnalyticsResults) (schemeCode : string)
    : gmap (string * string) SchemeAnalytics * AnalyticsResults :=
  let '(table, results) := acc in
  match computeAllWindowsForScheme w schemeCode table with
  | (table, Returned schemeResults) =>
    let '(byWindow, anyComputed) := countWindows schemeResults (byWindow results) in
    if anyComputed
    then (table, mkAnalyticsResults (ar_total results) (ar_computed results + 1)
                                    (ar_skipped results) byWindow)
    else (table, mkAnalyticsResults (ar_total results) (ar_computed results)
                                    (ar_skipped results + 1) byWindow)
  | (table, Thrown _) =>
    (table, mkAnalyticsResults (ar_total results) (ar_computed results)
                               (ar_skipped results + 1) (byWindow results))
  end.

(** [computeAllAnalytics(schemes, requestId)], without progress callback, on
    the scheme codes of [schemes]. *)
Definition computeAllAnalytics (w : AnalyticsWorld) (schemes : list string)
    (table : gmap (string * string) SchemeAnalytics)
    : gmap (string * string) SchemeAnalytics * AnalyticsResults :=
  let byWindow :=
    fold_left (fun m window => <[windowName window := mkWindowCount 0 0]> m)
              analyticsWindows ∅ in
  fold_left (analyticsOne w) schemes
    (table, mkAnalyticsResults (Z.of_nat (List.length schemes)) 0 0 byWindow).

(** *** Specification-side notions *)

(** The computation of the scheme's windows runs to its end. *)
Definition completes (w : AnalyticsWorld) (schemeCode : string) : bool :=
  match snd (computeAllWindowsForScheme w schemeCode ∅) with
  | Returned _ => true
  | Thrown _ => false
  end.

(** The number of schemes whose computation runs to its end. *)
Definition completed (w : AnalyticsWorld) (schemes : list string) : Z :=
  Z.of_nat (List.length (List.filter (completes w) schemes)).

End WithPow.

(** Two arrays with equal numbers at every index. *)
Definition sameNumbers (a b : list Q) : Prop := Forall2 Qeq a b.

End AnalyticsBatch.

(** ** Pending schemes and the incremental sync
       ([src/services/backfillService.js],
        [src/services/incrementalSyncService.js], [src/dao/navHistoryDao.js]) *)

Module IncrementalSync.
Import JS MfApiClient Backfill.

(** [getPendingSchemes(schemes)]: the schemes whose backfill sync-state is
    not [completed]; [getSyncState] is called without scheme info. *)
Definition getPendingSchemes (schemes : list Scheme) (st : State) : State * list Scheme :=
  fold_left
    (fun acc scheme =>
       let '(st, pending) := acc in
       let '(st, syncState) := getSyncState (s_schemeCode scheme) "backfill" None st in
       match syncState with
       | Some row =>
         if Status_eqb (status row) Completed then (st, pending)
         else (st, pending ++ [scheme])
       | None => (st, pending)
       end)
    schemes (st, []).

(** The [nav_date]s of the rows of a scheme in [nav_history]. *)
Definition schemeDates (schemeCode : string) (st : State) : list string :=
  List.map (fun kv => snd (fst kv))
    (List.filter (fun kv => String.eqb (fst (fst kv)) schemeCode)
                 (map_to_list (nav_history st))).

(** The later of two ISO dates. *)
Definition laterDate (a b : string) : string :=
  match String.compare a b with
  | Lt => b
  | _ => a
  end.

(** [navHistoryDao.findLatestDate]: [SELECT MAX(nav_date)], then
    [result?.latest_date || null].  The dates are ISO strings, ordered as
    their character codes are. *)
Definition findLatestDate (schemeCode : string) (st : State) : option string :=
  match schemeDates schemeCode st with
  | [] => None
  | d :: ds =>
    let latest_date := fold_left laterDate ds d in
    if String.eqb latest_date "" then None else Some latest_date
  end.

Definition getLatestNavDate := findLatestDate.

(** [navHistoryDao.countByScheme]: [SELECT COUNT( * )], then
    [result?.count || 0]. *)
Definition countByScheme (schemeCode : string) (st : State) : Z :=
  Z.of_nat (List.length (schemeDates schemeCode st)).

Definition getNavCount := countByScheme.

(** [nav.date > lastSyncedDate] on strings. *)
Definition newerThan (lastSyncedDate : string) (r : NavRecord) : bool :=
  match String.compare (date r) lastSyncedDate with
  | Gt => true
  | _ => false
  end.

(** What [syncScheme] returns: [{success, schemeCode, newRecords, error}].
    ([recordsInserted], the [affectedRows] the database reports, is left
    out.) *)
Record SyncResult := mkSyncResult {
  sync_success    : bool;
  sync_schemeCode : string;
  newRecords      : Z;
  sync_error      : option string
}.

(** The body of the [try] block of [syncScheme] after the first state update,
    given the latest date read before it: the state reached and either the
    new records or the message of the exception thrown. *)
Definition fetchNew (w : World) (schemeCode : string) (lastSyncedDate : option string)
    (st : State) : State * outcome (list NavRecord) :=
  match getSchemeData w schemeCode with
  | Thrown e => (st, Thrown e)
  | Returned apiData =>
    match normalizeSchemeData apiData with
    | Thrown e => (st, Thrown e)
    | Returned sd =>
      let navHistory := navHistory sd in
      let newNavRecords :=
        match lastSyncedDate with
        | Some d => List.filter (newerThan d) navHistory
        | None => navHistory
        end in
      match newNavRecords with
      | [] => (st, Returned newNavRecords)
      | _ =>
        match navWriteFault w schemeCode with
        | Some e => (st, Thrown e)
        | None => (upsertNavHistory schemeCode newNavRecords st, Returned newNavRecords)
        end
      end
    end
  end.

(** [syncScheme(schemeCode, requestId)]; logging is left out. *)
Definition syncScheme (w : World) (schemeCode : string) (st : State) : State * SyncResult :=
  let lastSyncedDate := getLatestNavDate schemeCode st in
  let st :=
    updateSyncState schemeCode "incremental"
      (mkUpdates (Some InProgress) None None (Some None) (Some (Some (clock w))) None) st in
  match fetchNew w schemeCode lastSyncedDate st with
  | (st, Returned newNavRecords) =>
    let newLatestDate :=
      match newNavRecords with
      | [] => lastSyncedDate
      | first :: _ => Some (date (List.last newNavRecords first))
      end in
    let st :=
      updateSyncState schemeCode "incremental"
        (mkUpdates (Some Completed) (Some newLatestDate)
                   (Some (getNavCount schemeCode st)) None None
                   (Some (Some (clock w)))) st in
    (st, mkSyncResult true schemeCode (Z.of_nat (List.length newNavRecords)) None)
  | (st, Thrown message) =>
    let st :=
      updateSyncState schemeCode "incremental"
        (mkUpdates (Some Failed) None None (Some (Some message)) None None) st in
    (st, mkSyncResult false schemeCode 0 (Some message))
  end.

(** The [results] object of [syncAllSchemes]. *)
Record SyncResults := mkSyncResults {
  sr_total           : Z;
  synced             : Z;
  sr_failed          : Z;
  totalNewRecords    : Z;
  sr_errors          : list (string * string)
}.

(** One iteration of the loop of [syncAllSchemes]. *)
Definition syncOne (w : World) (acc : State * SyncResults) (scheme : Scheme)
    : State * SyncResults :=
  let '(st, results) := acc in
  let '(st, _) := getSyncState (s_schemeCode scheme) "incremental" None st in
  let '(st, result) := syncScheme w (s_schemeCode scheme) st in
  if sync_success result
  then (st, mkSyncResults (sr_total results) (synced results + 1) (sr_failed results)
                          (totalNewRecords results + newRecords result) (sr_errors results))
  else (st, mkSyncResults (sr_total results) (synced results) (sr_failed results + 1)
                          (totalNewRecords results)
                          (sr_errors results ++
                           [(s_schemeCode scheme,
                             match sync_error result with Some e => e | None => "" end)])).

(** [syncAllSchemes(schemes, requestId)], without progress callback. *)
Definition syncAllSchemes (w : World) (schemes : list Scheme) (st : State)
    : State * SyncResults :=
  fold_left (syncOne w) schemes
    (st, mkSyncResults (Z.of_nat (List.length schemes)) 0 0 0 []).

(** *** Specification-side notions *)

(** The [sync_state] table after [syncStateDao.update]. *)
Definition updatedRows (key : string * string) (u : Updates)
    (rows : gmap (string * string) SyncState) : gmap (string * string) SyncState :=
  match rows !! key with
  | Some row => <[key := applyUpdates u row]> rows
  | None => rows
  end.

(** The three tables of two states agree. *)
Definition sameTables (a b : State) : Prop :=
  funds a = funds b /\ nav_history a = nav_history b /\ sync_state a = sync_state b.

(** No row of the scheme in [nav_history] has an empty date. *)
Definition datedRows (schemeCode : string) (st : State) : Prop :=
  forall d v, nav_history st !! (schemeCode, d) = Some v -> d <> ""%string.

(** [latest] is the greatest date of the scheme's rows in [nav_history], in
    the order of the ISO strings; [None] when the scheme has no row. *)
Definition isLatest (schemeCode : string) (st : State) (latest : option string) : Prop :=
  match latest with
  | Some m =>
    (exists v, nav_history st !! (schemeCode, m) = Some v) /\
    forall d v, nav_history st !! (schemeCode, d) = Some v -> String.compare d m <> Gt
  | None => forall d, nav_history st !! (schemeCode, d) = None
  end.

(** The records the incremental sync of the scheme finds new. *)
Definition newHistory (w : World) (schemeCode : string) (st : State) : option (list NavRecord) :=
  match getSchemeData w schemeCode with
  | Returned apiData =>
    match normalizeSchemeData apiData with
    | Returned sd =>
      Some match findLatestDate schemeCode st with
           | Some d => List.filter (newerThan d) (navHistory sd)
           | None => navHistory sd
           end
    | Thrown _ => None
    end
  | Thrown _ => None
  end.

End IncrementalSync.

(** ** Scheme discovery ([src/services/schemeDiscovery.js]) *)

Module SchemeDiscovery.
Import JS.

(** A scheme of the upstream list: [{schemeCode, schemeName}].  The code
    arrives as a number or a string; the name may be missing. *)
Record ApiScheme := mkApiScheme {
  api_schemeCode : jsval;
  api_schemeName : option string
}.

(** [config.schemeFilters] *)
Record SchemeFilters := mkSchemeFilters {
  amcs        : list string;
  categories  : list string;
  mustInclude : list string
}.

Definition schemeFilters : SchemeFilters :=
  mkSchemeFilters
    ["ICICI Prudential"; "HDFC"; "Axis"; "SBI"; "Kotak"]
    ["Mid Cap"; "Small Cap"]
    ["Direct"; "Growth"].

(** A categorized scheme: [{...scheme, amc, category}]. *)
Record CategorizedScheme := mkCategorized {
  cs_schemeCode : jsval;
  cs_schemeName : option string;
  cs_amc        : string;
  cs_category   : string
}.

(** [s.includes(sub)] *)
Fixpoint includes (s sub : string) : bool :=
  if String.prefix sub s then true
  else
    match s with
    | EmptyString => false
    | String _ s' => includes s' sub
    end.

(** [toLowerCase] on ASCII text. *)
Fixpoint asciiLowerCase (s : string) : string :=
  match s with
  | EmptyString => EmptyString
  | String c s' => String (FundsDao.lower c) (asciiLowerCase s')
  end.

Section WithLowerCase.

(** [String.prototype.toLowerCase], a parameter: on text outside ASCII it
    follows the Unicode case mapping. *)
Variable toLowerCase : string -> string.

(** [scheme.schemeName?.toLowerCase() || ''] *)
Definition lowerName (scheme : ApiScheme) : string :=
  match api_schemeName scheme with
  | Some name => toLowerCase name
  | None => ""
  end.

(** [filterSchemes(schemes, filters)] *)
Definition filterSchemes (schemes : list ApiScheme) (filters : SchemeFilters)
    : list ApiScheme :=
  List.filter
    (fun scheme =>
       let name := lowerName scheme in
       let matchesAmc := existsb (fun amc => includes name (toLowerCase amc)) (amcs filters) in
       if negb matchesAmc then false
       else
         let matchesCategory :=
           existsb (fun cat => includes name (toLowerCase cat)) (categories filters) in
         if negb matchesCategory then false
         else forallb (fun term => includes name (toLowerCase term)) (mustInclude filters))
    schemes.

(** The loop [for (const amcName of amcs)] of [categorizeScheme]: the first
    AMC the name includes, ['Unknown'] when there is none. *)
Fixpoint findAmc (name : string) (amcs : list string) : string :=
  match amcs with
  | [] => "Unknown"
  | amcName :: rest =>
    if includes name (toLowerCase amcName) then amcName else findAmc name rest
  end.

(** [categorizeScheme(scheme)] *)
Definition categorizeScheme (scheme : ApiScheme) : CategorizedScheme :=
  let name := lowerName scheme in
  let amc := findAmc name (amcs schemeFilters) in
  let category :=
    if includes name "mid cap" then "Mid Cap Direct Growth"
    else if includes name "small cap" then "Small Cap Direct Growth"
    else "Unknown" in
  mkCategorized (api_schemeCode scheme) (api_schemeName scheme) amc category.

(** [discoverSchemes], on the list [getAllSchemes] returned.  The object
    literal sets [schemeCode: String(scheme.schemeCode)] and [schemeName] and
    then spreads [categorizeScheme(scheme)] over them, which carries the
    scheme's own [schemeCode] and [schemeName]: these are the values kept. *)
Definition discoverSchemes (allSchemes : list ApiScheme) : list CategorizedScheme :=
  let matchingSchemes := filterSchemes allSchemes schemeFilters in
  List.map categorizeScheme matchingSchemes.

End WithLowerCase.

(** [groupByCategory] and [groupByAmc]: a [reduce] that appends every scheme
    to the array kept under its key.  The keys are not names of properties of
    [Object.prototype]. *)
Definition groupBy (key : CategorizedScheme -> string) (schemes : list CategorizedScheme)
    : gmap string (list CategorizedScheme) :=
  fold_left
    (fun acc scheme =>
       match acc !! key scheme with
       | None => <[key scheme := [scheme]]> acc
       | Some group => <[key scheme := group ++ [scheme]]> acc
       end)
    schemes ∅.

Definition groupByCategory := groupBy cs_category.
Definition groupByAmc := groupBy cs_amc.

End SchemeDiscovery.

(** * Part II: theorems *)

Lemma firstn_In {A : Type} (n : nat) (l : list A) (x : A) :
  In x (List.firstn n l) -> In x l.
Proof.
  revert n. induction l as [|a l IH]; intros n H.
  - rewrite firstn_nil in H. exact H.
  - destruct n as [|n]; [destruct H|]. cbn [List.firstn] in H.
    destruct H as [->|H]; [left; reflexivity|right; eapply IH; exact H].
Qed.

Lemma last_In {A : Type} (l : list A) :
  forall x d : A, In (List.last (x :: l) d) (x :: l).
Proof.
  induction l as [|z l IH]; intros x d; [left; reflexivity|].
  change (List.last (x :: z :: l) d) with (List.last (z :: l) d). right. apply IH.
Qed.

Lemma last_cons {A : Type} (d x : A) (l : list A) : List.last (x :: l) d = List.last l x.
Proof.
  revert d x. induction l as [|a l IH]; intros d x; [reflexivity|].
  change (List.last (x :: a :: l) d) with (List.last (a :: l) d).
  rewrite (IH d a). symmetry. apply IH.
Qed.


(** ** Rate limiter *)

Section RateLimiterFacts.
Import RateLimiter.
Local Open Scope Q_scope.

Lemma due_plus cfg e1 e2 : due cfg (e1 + e2) == due cfg e1 + due cfg e2.
Proof. unfold due, Qdiv. rewrite inject_Z_plus. ring. Qed.

Lemma due_nonneg cfg e : validConfig cfg -> (0 <= e)%Z -> 0 <= due cfg e.
Proof.
  intros (_ & HR & HI) He. unfold due.
  apply Qmult_le_0_compat.
  - apply Qle_shift_div_l.
    + replace 0 with (inject_Z 0) by reflexivity. rewrite <- Zlt_Qlt. exact HI.
    + rewrite Qmult_0_l. replace 0 with (inject_Z 0) by reflexivity.
      rewrite <- Zle_Qle. exact He.
  - replace 0 with (inject_Z 0) by reflexivity. rewrite <- Zle_Qle. exact HR.
Qed.

Lemma due_le_rate cfg e :
  validConfig cfg -> (e <= intervalMs cfg)%Z -> due cfg e <= inject_Z (refillRate cfg).
Proof.
  intros (_ & HR & HI) He. unfold due.
  assert (H0 : 0 < inject_Z (intervalMs cfg)).
  { replace 0 with (inject_Z 0) by reflexivity. rewrite <- Zlt_Qlt. exact HI. }
  assert (HR' : 0 <= inject_Z (refillRate cfg)).
  { replace 0 with (inject_Z 0) by reflexivity. rewrite <- Zle_Qle. exact HR. }
  assert (H1 : inject_Z e / inject_Z (intervalMs cfg) <= 1).
  { apply Qle_shift_div_r; [exact H0|]. rewrite Qmult_1_l. rewrite <- Zle_Qle. exact He. }
  apply Qle_trans with (1 * inject_Z (refillRate cfg)).
  - apply Qmult_le_compat_r; assumption.
  - rewrite Qmult_1_l. apply Qle_refl.
Qed.

Lemma due_0 cfg : due cfg 0 == 0.
Proof. unfold due, Qdiv. change (inject_Z 0) with 0. ring. Qed.

Lemma tokensToAdd_floor cfg e : tokensToAdd cfg e = Qfloor (due cfg e).
Proof. reflexivity. Qed.

Lemma refill_later cfg t t' b :
  validConfig cfg -> wfBucket cfg t b -> (t <= t')%Z ->
  wfBucket cfg t' (refill cfg t' (Some b)) /\
  potential cfg t' (refill cfg t' (Some b)) <= potential cfg t' b.
Proof.
  intros Hv (H0 & Hc & Hl) Ht. unfold wfBucket, refill, refillFrom, startFrom, potential. cbn [tokens last_refill].
  pose proof (Qfloor_le (due cfg (t' - last_refill b))) as Hfl.
  fold (due cfg (t' - last_refill b)) in *.
  rewrite tokensToAdd_floor.
  destruct (Z.ltb_spec 0 (Qfloor (due cfg (t' - last_refill b)))) as [Hadd|Hadd];
    cbn [tokens last_refill].
  - assert (Ha : 0 < inject_Z (Qfloor (due cfg (t' - last_refill b)))).
    { replace 0 with (inject_Z 0) by reflexivity. rewrite <- Zlt_Qlt. exact Hadd. }
    pose proof (Q.le_min_l (inject_Z (capacity cfg))
                  (tokens b + inject_Z (Qfloor (due cfg (t' - last_refill b))))) as Hm1.
    pose proof (Q.le_min_r (inject_Z (capacity cfg))
                  (tokens b + inject_Z (Qfloor (due cfg (t' - last_refill b))))) as Hm2.
    assert (Hc0 : 0 <= inject_Z (capacity cfg)) by lra.
    split; [split; [|split]|].
    + apply Q.min_glb; lra.
    + exact Hm1.
    + lia.
    + rewrite Z.sub_diag, due_0. lra.
  - split; [split; [|split]|]; try assumption; try lia. apply Qle_refl.
Qed.

(** The first access of a window: whatever was accrued while idle, the
    refilled bucket holds less than [capacity + 1] tokens, credited or due. *)
Lemma refill_first cfg t stored :
  validConfig cfg -> wellFormed cfg t stored ->
  wfBucket cfg t (refill cfg t stored) /\
  potential cfg t (refill cfg t stored) < inject_Z (capacity cfg) + 1.
Proof.
  intros Hv Hwf.
  assert (Hc0 : 0 <= inject_Z (capacity cfg)).
  { destruct Hv as (Hc & _). replace 0 with (inject_Z 0) by reflexivity.
    rewrite <- Zle_Qle. exact Hc. }
  pose proof (due_0 cfg) as Hz.
  destruct stored as [b|].
  - destruct Hwf as (H0 & Hc & Hl).
    unfold wfBucket, refill, refillFrom, startFrom, potential. cbn [tokens last_refill].
    rewrite tokensToAdd_floor.
    pose proof (Qlt_floor (due cfg (t - last_refill b))) as Hfl.
    destruct (Z.ltb_spec 0 (Qfloor (due cfg (t - last_refill b)))) as [Hadd|Hadd];
      cbn [tokens last_refill].
    + pose proof (Q.le_min_l (inject_Z (capacity cfg))
                  (tokens b + inject_Z (Qfloor (due cfg (t - last_refill b))))) as Hm1.
      assert (Ha : 0 < inject_Z (Qfloor (due cfg (t - last_refill b)))).
      { replace 0 with (inject_Z 0) by reflexivity. rewrite <- Zlt_Qlt. exact Hadd. }
      rewrite Z.sub_diag, Hz.
      split; [split; [|split]|]; [apply Q.min_glb; lra | exact Hm1 | lia | lra].
    + assert (Hle : inject_Z (Qfloor (due cfg (t - last_refill b)) + 1) <= 1).
      { replace 1 with (inject_Z 1) by reflexivity. rewrite <- Zle_Qle. lia. }
      split; [split; [|split]|]; [assumption | assumption | assumption | lra].
  - unfold wfBucket, refill, refillFrom, startFrom, potential. cbn [tokens last_refill].
    rewrite tokensToAdd_floor, Z.sub_diag.
    assert (Hf : Qfloor (due cfg 0) = 0%Z).
    { rewrite (Qfloor_comp _ _ Hz). reflexivity. }
    rewrite Hf. cbn [Z.ltb Z.compare tokens last_refill]. rewrite Z.sub_diag, Hz.
    split; [split; [|split]|]; [lra | lra | lia | lra].
Qed.

(** The consume phase of the script moves one token from the bucket to the
    caller, or leaves the bucket as refilled. *)
Lemma script_consume cfg t stored :
  let b := refill cfg t stored in
  let '(b', r) := bucketStep cfg 1 t stored in
  last_refill b' = last_refill b /\
  (allowed r = true /\ 1 <= tokens b /\ tokens b' == tokens b - 1 \/
   allowed r = false /\ tokens b < 1 /\ b' = b).
Proof.
  unfold bucketStep. cbv zeta.
  destruct (Qle_bool 1 (tokens (refill cfg t stored))) eqn:E; cbn [last_refill tokens allowed].
  - apply Qle_bool_iff in E. split; [reflexivity|left].
    split; [reflexivity|]. split; [assumption|reflexivity].
  - split; [reflexivity|right]. split; [reflexivity|]. split; [|reflexivity].
    apply Qnot_le_lt. intros H. apply Qle_bool_iff in H. congruence.
Qed.

Lemma countAllowed_cons r rs :
  countAllowed (r :: rs) = ((if allowed r then 1 else 0) + countAllowed rs)%Z.
Proof.
  unfold countAllowed. cbn [List.filter]. destruct (allowed r); cbn [List.length]; lia.
Qed.

Lemma last_cons_cons (t t' : Z) ts : List.last (t' :: ts) t = List.last ts t'.
Proof. apply last_cons. Qed.

(** One script execution at a time [t'] not before [t]: well-formedness is
    kept and the reply is paid for out of the potential. *)
Lemma script_step cfg t t' b :
  validConfig cfg -> wfBucket cfg t b -> (t <= t')%Z ->
  let '(b', r) := bucketStep cfg 1 t' (Some b) in
  wfBucket cfg t' b' /\
  inject_Z (if allowed r then 1 else 0) + potential cfg t' b'
    <= potential cfg t b + due cfg (t' - t).
Proof.
  intros Hv Hwf Ht.
  destruct (refill_later cfg t t' b Hv Hwf Ht) as ((H0 & Hc & Hl) & Hpot).
  pose proof (script_consume cfg t' (Some b)) as Hs. cbv zeta in Hs.
  destruct (bucketStep cfg 1 t' (Some b)) as [b' r].
  destruct Hs as (Hlr & Hs).
  assert (Hsplit : potential cfg t' b == potential cfg t b + due cfg (t' - t)).
  { unfold potential. rewrite <- Qplus_assoc, <- due_plus.
    replace (t - last_refill b + (t' - t))%Z with (t' - last_refill b)%Z by lia.
    reflexivity. }
  unfold wfBucket, potential in *. rewrite Hlr.
  destruct Hs as [(Ha & H1 & Hb) | (Ha & H1 & Hb)]; rewrite Ha.
  - change (inject_Z 1) with 1. split; [split; [|split]|]; [lra | lra | lia | lra].
  - subst b'. change (inject_Z 0) with 0. split; [split; [|split]|]; [lra | lra | lia | lra].
Qed.

Lemma runBucket_potential cfg :
  validConfig cfg ->
  forall ts t b, wfBucket cfg t b -> nondecreasing (t :: ts) ->
  exists bf, fst (runBucket cfg ts (Some b)) = Some bf /\
    wfBucket cfg (List.last ts t) bf /\
    inject_Z (countAllowed (snd (runBucket cfg ts (Some b)))) + potential cfg (List.last ts t) bf
      <= potential cfg t b + due cfg (List.last ts t - t).
Proof.
  intros Hv. induction ts as [|t' ts IH]; intros t b Hwf Hnd.
  - exists b. cbn [runBucket fst snd List.last]. split; [reflexivity|]. split; [assumption|].
    rewrite Z.sub_diag, due_0. change (inject_Z (countAllowed [])) with 0. lra.
  - destruct Hnd as (Ht & Hnd).
    pose proof (script_step cfg t t' b Hv Hwf Ht) as Hs.
    cbn [runBucket]. destruct (bucketStep cfg 1 t' (Some b)) as [b' r].
    destruct Hs as (Hwf' & Hpot).
    destruct (IH t' b' Hwf' Hnd) as (bf & Hf & Hwff & Hpf).
    destruct (runBucket cfg ts (Some b')) as [final rs]. cbn [fst snd] in *.
    exists bf. rewrite last_cons_cons. split; [assumption|]. split; [assumption|].
    rewrite countAllowed_cons, inject_Z_plus.
    assert (Hd : due cfg (List.last ts t' - t) == due cfg (t' - t) + due cfg (List.last ts t' - t')).
    { rewrite <- due_plus. replace (t' - t + (List.last ts t' - t'))%Z
        with (List.last ts t' - t)%Z by lia. reflexivity. }
    lra.
Qed.

Lemma nondecreasing_last_ge ts : forall t, nondecreasing (t :: ts) -> (t <= List.last ts t)%Z.
Proof.
  induction ts as [|t' ts IH]; intros t Hnd; [cbn; lia|].
  destruct Hnd as (Ht & Hnd). rewrite last_cons_cons.
  specialize (IH t' Hnd). lia.
Qed.

Lemma runBucket_window cfg t1 ts stored :
  validConfig cfg -> wellFormed cfg t1 stored -> inWindow cfg (t1 :: ts) ->
  (countAllowed (snd (runBucket cfg (t1 :: ts) stored)) <= capacity cfg + refillRate cfg)%Z.
Proof.
  intros Hv Hwf (Hnd & Hlast).
  destruct (refill_first cfg t1 stored Hv Hwf) as ((H0 & Hc & Hl) & Hpot).
  pose proof (script_consume cfg t1 stored) as Hs. cbv zeta in Hs.
  cbn [runBucket]. destruct (bucketStep cfg 1 t1 stored) as [b' r].
  destruct Hs as (Hlr & Hs).
  assert (Hwf' : wfBucket cfg t1 b' /\
            inject_Z (if allowed r then 1 else 0) + potential cfg t1 b'
              < inject_Z (capacity cfg) + 1).
  { unfold wfBucket, potential in *. rewrite Hlr.
    destruct Hs as [(Ha & H1 & Hb) | (Ha & H1 & Hb)]; rewrite Ha.
    - change (inject_Z 1) with 1. split; [split; [|split]|]; [lra | lra | lia | lra].
    - subst b'. change (inject_Z 0) with 0.
      split; [split; [|split]|]; [lra | lra | lia | lra]. }
  destruct Hwf' as (Hwf' & Hfirst).
  destruct (runBucket_potential cfg Hv ts t1 b' Hwf' Hnd) as (bf & Hf & (Hf0 & Hfc & Hfl) & Hpf).
  destruct (runBucket cfg ts (Some b')) as [final rs]. cbn [fst snd] in *.
  rewrite last_cons_cons in Hlast.
  pose proof (nondecreasing_last_ge ts t1 Hnd) as Hge.
  pose proof (due_le_rate cfg (List.last ts t1 - t1) Hv Hlast) as Hrate.
  assert (Hdue : 0 <= due cfg (List.last ts t1 - last_refill bf)).
  { apply due_nonneg; [assumption | lia]. }
  rewrite countAllowed_cons.
  assert (Hq : inject_Z ((if allowed r then 1 else 0) + countAllowed rs)
               < inject_Z (capacity cfg + 1 + refillRate cfg)).
  { rewrite !inject_Z_plus. change (inject_Z 1) with 1.
    unfold potential in *. lra. }
  rewrite <- Zlt_Qlt in Hq. lia.
Qed.

Lemma expired_deadline (b : Bucket) (t d : Z) :
  expired t (mkEntry b (Some d)) = (d <? t)%Z.
Proof. reflexivity. Qed.

(** [HSET] followed by [EXPIRE]: the key holds the hash written and lives
    for the time to live set. *)
Lemma EXPIRE_HSET (t : Z) (key : string) (seconds : Z) (b : Bucket) (store : gmap string Entry) :
  EXPIRE t key seconds (HSET t key b store)
  = <[key := mkEntry b (Some (t + seconds * 1000)%Z)]> store.
Proof.
  unfold EXPIRE, HSET. rewrite lookup_insert_eq.
  set (ttl := match store !! key with
              | Some e => if expired t e then None else expireAt e
              | None => None
              end).
  assert (E : expired t (mkEntry b ttl) = false).
  { unfold ttl. destruct (store !! key) as [e|]; [|reflexivity].
    destruct (expired t e) eqn:Ee; [reflexivity|]. exact Ee. }
  rewrite E. cbn [hash]. apply insert_insert_eq.
Qed.

Lemma HGETALL_insert (t : Z) (key : string) (e : Entry) (store : gmap string Entry) :
  HGETALL t key (<[key := e]> store) = if expired t e then None else Some (hash e).
Proof. unfold HGETALL. rewrite lookup_insert_eq. reflexivity. Qed.

Lemma HGETALL_insert_ne (t : Z) (key key' : string) (e : Entry) (store : gmap string Entry) :
  key' <> key -> HGETALL t key (<[key' := e]> store) = HGETALL t key store.
Proof. intros H. unfold HGETALL. rewrite lookup_insert_ne by exact H. reflexivity. Qed.

(** A key written by a check is read back until its time to live is over. *)
Lemma HGETALL_live (t t' : Z) (key : string) (b : Bucket) (store : gmap string Entry) :
  (t' <= t + TTL_SECONDS * 1000)%Z ->
  HGETALL t' key (<[key := mkEntry b (Some (t + TTL_SECONDS * 1000)%Z)]> store) = Some b.
Proof.
  intros H. rewrite HGETALL_insert, expired_deadline.
  destruct (Z.ltb_spec (t + TTL_SECONDS * 1000) t') as [Hlt|_]; [lia|reflexivity].
Qed.

Lemma upstashStart_strings cfg t stored :
  upstashStart false cfg t stored = startFrom cfg t stored.
Proof. unfold upstashStart, startFrom, fieldTruthy. destruct stored as [[q lr]|]; reflexivity. Qed.

(** A fault-free check, on the script backend and on the Upstash backend
    that hands back the strings stored, is one execution of the script on
    the hash stored under the bucket's key. *)
Lemma checkBucket_script backend name cfg t store :
  parsesNumbers backend = false ->
  let out := checkBucket backend name cfg (at_time t) store in
  let script := bucketStep cfg 1 t (HGETALL t (bucketKey backend name) store) in
  fst out = <[bucketKey backend name
              := mkEntry (fst script) (Some (t + TTL_SECONDS * 1000)%Z)]> store /\
  allowed (snd out) = allowed (snd script) /\
  waitTimeMs (snd out) = waitTimeMs (snd script).
Proof.
  intros Hp. cbv zeta. unfold checkBucket, bucketKey.
  destruct backend as [|[|]]; [|discriminate|].
  - unfold checkBucketStandard, TOKEN_BUCKET_LUA. cbn [at_time now isUpstashRedis].
    destruct (bucketStep cfg 1 t _) as [b r]. rewrite EXPIRE_HSET. repeat split.
  - unfold checkBucketUpstash, bucketStep, refill.
    cbn [fault at_time now isUpstashRedis]. rewrite upstashStart_strings.
    destruct (Qle_bool 1 _); rewrite EXPIRE_HSET; repeat split.
Qed.

Lemma countAllowed_ext rs rs' :
  List.map allowed rs = List.map allowed rs' -> countAllowed rs = countAllowed rs'.
Proof.
  revert rs'. induction rs as [|r rs IH]; intros [|r' rs'] H; try discriminate; [reflexivity|].
  cbn [List.map] in H. injection H as Hr Hrs. rewrite !countAllowed_cons, Hr, (IH rs' Hrs).
  reflexivity.
Qed.

(** Checks that follow one another within the time to live of the key act on
    the hash alone: no check finds the key gone. *)
Lemma run_runBucket backend name cfg :
  parsesNumbers backend = false ->
  forall ts t store stored,
  nondecreasing (t :: ts) -> (List.last ts t - t <= TTL_SECONDS * 1000)%Z ->
  HGETALL t (bucketKey backend name) store = stored ->
  List.map allowed (snd (run backend name cfg (t :: ts) store))
  = List.map allowed (snd (runBucket cfg (t :: ts) stored)).
Proof.
  intros Hp. induction ts as [|t' ts IH]; intros t store stored Hnd Hlast Hread.
  - cbn [run runBucket].
    destruct (checkBucket_script backend name cfg t store Hp) as (_ & Hal & _).
    cbv zeta in Hal. rewrite Hread in Hal.
    destruct (checkBucket backend name cfg (at_time t) store) as [store' r'].
    destruct (bucketStep cfg 1 t stored) as [b r].
    cbn [fst snd List.map] in *. rewrite Hal. reflexivity.
  - destruct Hnd as (Ht & Hnd). rewrite last_cons_cons in Hlast.
    pose proof (nondecreasing_last_ge ts t' Hnd) as Hge.
    change (run backend name cfg (t :: t' :: ts) store)
      with (let '(store', r) := checkBucket backend name cfg (at_time t) store in
            let '(final, rs) := run backend name cfg (t' :: ts) store' in (final, r :: rs)).
    change (runBucket cfg (t :: t' :: ts) stored)
      with (let '(b, r) := bucketStep cfg 1 t stored in
            let '(final, rs) := runBucket cfg (t' :: ts) (Some b) in (final, r :: rs)).
    destruct (checkBucket_script backend name cfg t store Hp) as (Hst & Hal & _).
    cbv zeta in Hst, Hal. rewrite Hread in Hst, Hal.
    destruct (checkBucket backend name cfg (at_time t) store) as [store' r'].
    destruct (bucketStep cfg 1 t stored) as [b r].
    cbn [fst snd] in Hst, Hal. subst store'.
    assert (Hnext : HGETALL t' (bucketKey backend name)
                      (<[bucketKey backend name
                         := mkEntry b (Some (t + TTL_SECONDS * 1000)%Z)]> store) = Some b).
    { apply HGETALL_live. lia. }
    specialize (IH t' _ (Some b) Hnd ltac:(lia) Hnext).
    destruct (run backend name cfg (t' :: ts) _) as [f1 rs1].
    destruct (runBucket cfg (t' :: ts) (Some b)) as [f2 rs2].
    cbn [snd List.map] in *. rewrite Hal, IH. reflexivity.
Qed.

Lemma script_keeps_wellFormed cfg t stored :
  validConfig cfg -> wellFormed cfg t stored ->
  wfBucket cfg t (fst (bucketStep cfg 1 t stored)).
Proof.
  intros Hv Hwf.
  destruct (refill_first cfg t stored Hv Hwf) as ((H0 & Hc & Hl) & _).
  pose proof (script_consume cfg t stored) as Hs. cbv zeta in Hs.
  destruct (bucketStep cfg 1 t stored) as [b' r]. cbn [fst].
  destruct Hs as (Hlr & Hs). unfold wfBucket. rewrite Hlr.
  destruct Hs as [(_ & H1 & Hb) | (_ & _ & Hb)].
  - split; [|split]; [lra | lra | assumption].
  - subst b'. split; [|split]; assumption.
Qed.

(** C1, as stated, fails: the default [per_second] bucket (capacity 2,
    2 tokens per 1000 ms), starting absent, allows three requests at the times
    0, 0 and 500, all inside one window of 1000 ms; at the end the tokens left
    plus the tokens consumed in the window are 3, more than the capacity. *)
Lemma C1_window_capacity_counterexample :
  let cfg := perSecond defaultRateLimiting in
  let ts := [0; 0; 500]%Z in
  let out := run Standard "per_second" cfg ts ∅ in
  validConfig cfg /\ inWindow cfg ts /\
  (capacity cfg < countAllowed (snd out))%Z /\
  exists b, HGETALL 500 (bucketKey Standard "per_second") (fst out) = Some b /\
    ~ tokens b + inject_Z (countAllowed (snd out)) <= inject_Z (capacity cfg).
Proof.
  cbv zeta. split; [|split; [|split]].
  - unfold validConfig. cbn. lia.
  - unfold inWindow. cbn. lia.
  - vm_compute. reflexivity.
  - eexists. split; [vm_compute; reflexivity|]. vm_compute. intros H. apply H. reflexivity.
Qed.

(** C1 (amended): on the script backend, and on the Upstash backend that
    hands back the strings stored, for a bucket with non-negative capacity and
    refill rate and a positive interval of at most the two hours a bucket key
    lives ([EXPIRE key 7200]), starting from a key that is gone or from a hash
    holding between 0 and [capacity] tokens, any sequence of fault-free checks
    at non-decreasing times spanning at most [intervalMs] returns at most
    [capacity + refillRate] replies with [allowed = true]; and every
    read-refill-consume-write step keeps the token count between 0 and
    [capacity]. *)
Theorem C1_window_bound backend name cfg store ts :
  parsesNumbers backend = false ->
  validConfig cfg -> (intervalMs cfg <= TTL_SECONDS * 1000)%Z -> inWindow cfg ts ->
  (forall t1, List.head ts = Some t1 ->
     wellFormed cfg t1 (HGETALL t1 (bucketKey backend name) store)) ->
  (countAllowed (snd (run backend name cfg ts store)) <= capacity cfg + refillRate cfg)%Z /\
  (forall t stored, wellFormed cfg t stored ->
     wfBucket cfg t (fst (bucketStep cfg 1 t stored))).
Proof.
  intros Hp Hv Httl Hw Hwf. split.
  - destruct ts as [|t1 ts].
    + destruct Hv as (Hc & HR & _). cbn [run snd]. change (countAllowed []) with 0%Z. lia.
    + pose proof Hw as (Hnd & Hlast). rewrite last_cons in Hlast.
      rewrite (countAllowed_ext _ _
                 (run_runBucket backend name cfg Hp ts t1 store _ Hnd ltac:(lia) eq_refl)).
      apply runBucket_window; [assumption | apply Hwf; reflexivity | assumption].
  - intros t stored H. apply script_keeps_wellFormed; assumption.
Qed.

Lemma C1_window_bound_witness :
  (countAllowed (snd (run (Upstash false) "per_second" (mkConfig 2 2 1000)
      [499; 499; 500; 1000]%Z
      {[ bucketKey (Upstash false) "per_second" := mkEntry (mkBucket 2 0) (Some 7200000%Z) ]}))
   <= 2 + 2)%Z /\
  (forall t stored, wellFormed (mkConfig 2 2 1000) t stored ->
     wfBucket (mkConfig 2 2 1000) t (fst (bucketStep (mkConfig 2 2 1000) 1 t stored))).
Proof.
  apply (C1_window_bound (Upstash false) "per_second" (mkConfig 2 2 1000)
           {[ bucketKey (Upstash false) "per_second" := mkEntry (mkBucket 2 0) (Some 7200000%Z) ]}
           [499; 499; 500; 1000]%Z).
  - reflexivity.
  - unfold validConfig. cbn. lia.
  - vm_compute. discriminate.
  - unfold inWindow. cbn. lia.
  - intros t1 H. injection H as <-. unfold HGETALL. rewrite lookup_singleton_eq.
    unfold wellFormed, wfBucket. cbn. split; [|split]; [discriminate | discriminate | lia].
Defined.

(** The bound [capacity + refillRate] is reached. *)
Example window_bound_tight :
  countAllowed (snd (run Standard "per_second" (mkConfig 2 2 1000) [499; 499; 500; 1000]%Z
      {[ bucketKey Standard "per_second" := mkEntry (mkBucket 2 0) (Some 7200000%Z) ]})) = 4%Z.
Proof. vm_compute. reflexivity. Qed.

(** The bound needs the interval to be within the time to live of the key.
    With capacity 10 and one token per 10000 s, ten checks at time 0 empty the
    bucket; 7200001 ms later, inside the same window, the key is gone, the
    bucket starts full again and ten more checks are allowed. *)
Example window_bound_needs_live_key :
  let cfg := mkConfig 10 1 10000000 in
  let ts := (List.repeat 0 10 ++ List.repeat 7200001 10)%Z in
  inWindow cfg ts /\
  countAllowed (snd (run Standard "per_hour" cfg ts ∅)) = 20%Z.
Proof. cbv zeta. split; [unfold inWindow; cbn; lia|]. vm_compute. reflexivity. Qed.

(** With a client that parses the fields, an empty bucket is read back as a
    missing one ([0] is falsy) and starts full again: six requests in the
    same millisecond are all allowed. *)
Example parsed_zero_reads_as_full :
  List.map allowed
    (snd (run (Upstash true) "per_second" (mkConfig 2 2 1000) [0; 0; 0; 0; 0; 0]%Z ∅))
  = [true; true; true; true; true; true].
Proof. vm_compute. reflexivity. Qed.

(** *** [acquireToken] *)

Lemma acquireToken_results backend rl c1 c2 c3 store :
  let x1 := checkBucket backend "per_second" (perSecond rl) c1 store in
  let x2 := checkBucket backend "per_minute" (perMinute rl) c2 (fst x1) in
  let x3 := checkBucket backend "per_hour" (perHour rl) c3 (fst x2) in
  acquireToken backend rl c1 c2 c3 store =
  (fst x3,
   mkAcquire (allowed (snd x1) && allowed (snd x2) && allowed (snd x3))
     (foldWait (snd x3) (foldWait (snd x2) (foldWait (snd x1) 0%Z)))
     (<["per_hour"%string := snd x3]>
        (<["per_minute"%string := snd x2]> (<["per_second"%string := snd x1]> ∅)))).
Proof.
  cbv zeta. unfold acquireToken, foldWait. cbn [fold_left loopBody ls_store].
  destruct (checkBucket backend "per_second" (perSecond rl) c1 store) as [s1 r1].
  cbn [fst snd ls_store ls_results ls_allowed ls_maxWaitTime].
  destruct (allowed r1) eqn:E1; cbn [fst snd ls_store ls_results ls_allowed ls_maxWaitTime];
  destruct (checkBucket backend "per_minute" (perMinute rl) c2 s1) as [s2 r2];
  cbn [fst snd ls_store ls_results ls_allowed ls_maxWaitTime];
  destruct (allowed r2) eqn:E2; cbn [fst snd ls_store ls_results ls_allowed ls_maxWaitTime];
  destruct (checkBucket backend "per_hour" (perHour rl) c3 s2) as [s3 r3];
  cbn [fst snd ls_store ls_results ls_allowed ls_maxWaitTime];
  destruct (allowed r3) eqn:E3; cbn [fst snd ls_store ls_results ls_allowed ls_maxWaitTime andb];
  reflexivity.
Qed.

Lemma inject_Z_pos z : (0 < z)%Z -> 0 < inject_Z z.
Proof. intros H. change 0 with (inject_Z 0). rewrite <- Zlt_Qlt. exact H. Qed.

Lemma checkBucket_wait backend name cfg c store :
  (0 < refillRate cfg)%Z -> (0 < intervalMs cfg)%Z ->
  let out := checkBucket backend name cfg c store in
  (0 <= waitTimeMs (snd out))%Z /\ (allowed (snd out) = true -> waitTimeMs (snd out) = 0%Z) /\
  deniedWait cfg (bucketKey backend name) out.
Proof.
  intros HR HI.
  assert (Hden : forall b : Bucket, Qle_bool 1 (tokens b) = false ->
            (0 <= waitFor cfg (1 - tokens b))%Z).
  { intros b E. unfold waitFor.
    assert (Hlt : tokens b < 1).
    { apply Qnot_le_lt. intros H. apply Qle_bool_iff in H. congruence. }
    pose proof (inject_Z_pos _ HR) as HR'. pose proof (inject_Z_pos _ HI) as HI'.
    assert (Hx : 0 <= (1 - tokens b) / inject_Z (refillRate cfg) * inject_Z (intervalMs cfg)).
    { apply Qmult_le_0_compat; [|lra]. apply Qle_shift_div_l; [assumption|lra]. }
    pose proof (Qle_ceiling ((1 - tokens b) / inject_Z (refillRate cfg) * inject_Z (intervalMs cfg))) as Hc.
    rewrite Zle_Qle. change (inject_Z 0) with 0. lra. }
  unfold checkBucket, deniedWait, bucketKey. cbv zeta.
  destruct backend as [|d]; cbn [isUpstashRedis].
  - unfold checkBucketStandard, TOKEN_BUCKET_LUA, bucketStep.
    set (b := refill cfg (now c) (HGETALL _ _ _)). clearbody b. cbv zeta.
    destruct (Qle_bool 1 (tokens b)) eqn:E; rewrite EXPIRE_HSET;
      cbn [fst snd allowed waitTimeMs].
    + split; [lia|split; [reflexivity|discriminate]].
    + split; [apply Hden; assumption|]. split; [discriminate|].
      intros _. eexists. split; [apply lookup_insert_eq | reflexivity].
  - unfold checkBucketUpstash.
    set (b := refillFrom cfg (now c) (upstashStart d cfg (now c) (HGETALL _ _ _))).
    clearbody b.
    destruct (fault c) as [[ | | ]|]; cbn [fst snd allowed waitTimeMs];
      try (split; [lia|split; [reflexivity|discriminate]]);
      destruct (Qle_bool 1 (tokens b)) eqn:E; cbn [fst snd allowed waitTimeMs];
      try (split; [lia|split; [reflexivity|discriminate]]).
    split; [apply Hden; assumption|]. split; [discriminate|].
    intros _. rewrite EXPIRE_HSET. eexists. split; [apply lookup_insert_eq | reflexivity].
Qed.

Lemma foldWait_max r m :
  (0 <= m)%Z -> (0 <= waitTimeMs r)%Z -> (allowed r = true -> waitTimeMs r = 0%Z) ->
  foldWait r m = Z.max m (waitTimeMs r).
Proof.
  intros Hm Hw Ha. unfold foldWait. destruct (allowed r); [|reflexivity].
  rewrite Ha by reflexivity. lia.
Qed.

(** *** The three-bucket admission scenario *)

Lemma tokensToAdd_small cfg e :
  (0 < intervalMs cfg)%Z -> (0 <= refillRate cfg)%Z -> (0 <= e)%Z ->
  (e * refillRate cfg < intervalMs cfg)%Z -> tokensToAdd cfg e = 0%Z.
Proof.
  intros HI HR He Hlt. rewrite tokensToAdd_floor.
  pose proof (inject_Z_pos _ HI) as HI'.
  assert (Heq : due cfg e == inject_Z (e * refillRate cfg) / inject_Z (intervalMs cfg)).
  { unfold due, Qdiv. rewrite inject_Z_mult. ring. }
  assert (H0 : 0 <= due cfg e).
  { rewrite Heq. apply Qle_shift_div_l; [assumption|].
    rewrite Qmult_0_l. change 0 with (inject_Z 0). rewrite <- Zle_Qle. nia. }
  assert (H1 : due cfg e < 1).
  { rewrite Heq. apply Qlt_shift_div_r; [assumption|].
    rewrite Qmult_1_l. rewrite <- Zlt_Qlt. exact Hlt. }
  pose proof (Qfloor_le (due cfg e)) as Hf1. pose proof (Qlt_floor (due cfg e)) as Hf2.
  assert (Ha : inject_Z (Qfloor (due cfg e)) < inject_Z 1) by (change (inject_Z 1) with 1; lra).
  assert (Hb : inject_Z 0 < inject_Z (Qfloor (due cfg e) + 1)) by (change (inject_Z 0) with 0; lra).
  rewrite <- Zlt_Qlt in Ha, Hb. lia.
Qed.

Lemma script_idle cfg t b :
  tokensToAdd cfg (t - last_refill b) = 0%Z ->
  bucketStep cfg 1 t (Some b) =
  if Qle_bool 1 (tokens b)
  then (mkBucket (tokens b - 1) (last_refill b), mkResult true (tokens b - 1) 0)
  else (b, mkResult false (tokens b) (waitFor cfg (1 - tokens b))).
Proof. intros H. unfold bucketStep, refill, refillFrom, startFrom. cbv zeta. rewrite H. reflexivity. Qed.

Lemma script_absent cfg t :
  bucketStep cfg 1 t None =
  if Qle_bool 1 (inject_Z (capacity cfg))
  then (mkBucket (inject_Z (capacity cfg) - 1) t, mkResult true (inject_Z (capacity cfg) - 1) 0)
  else (mkBucket (inject_Z (capacity cfg)) t,
        mkResult false (inject_Z (capacity cfg)) (waitFor cfg (1 - inject_Z (capacity cfg)))).
Proof.
  unfold bucketStep, refill, refillFrom, startFrom. cbv zeta. cbn [last_refill].
  rewrite Z.sub_diag, tokensToAdd_floor, (Qfloor_comp _ _ (due_0 cfg)). reflexivity.
Qed.

Lemma bucketKey_distinct backend :
  bucketKey backend "per_second" <> bucketKey backend "per_minute" /\
  bucketKey backend "per_second" <> bucketKey backend "per_hour" /\
  bucketKey backend "per_minute" <> bucketKey backend "per_hour".
Proof. destruct backend; cbn; repeat split; discriminate. Qed.

(** A fault-free [acquireToken] acts on each of the three hashes by one
    step of the script, and renews the time to live of the three keys. *)
Lemma acquireAt_view backend rl t store :
  parsesNumbers backend = false ->
  let x1 := bucketStep (perSecond rl) 1 t (HGETALL t (bucketKey backend "per_second") store) in
  let x2 := bucketStep (perMinute rl) 1 t (HGETALL t (bucketKey backend "per_minute") store) in
  let x3 := bucketStep (perHour rl) 1 t (HGETALL t (bucketKey backend "per_hour") store) in
  let out := acquireAt backend rl t store in
  let ttl := Some (t + TTL_SECONDS * 1000)%Z in
  fst out !! bucketKey backend "per_second" = Some (mkEntry (fst x1) ttl) /\
  fst out !! bucketKey backend "per_minute" = Some (mkEntry (fst x2) ttl) /\
  fst out !! bucketKey backend "per_hour" = Some (mkEntry (fst x3) ttl) /\
  acq_allowed (snd out) = allowed (snd x1) && allowed (snd x2) && allowed (snd x3) /\
  acq_waitTimeMs (snd out) = foldWait (snd x3) (foldWait (snd x2) (foldWait (snd x1) 0%Z)).
Proof.
  intros Hp. cbv zeta. unfold acquireAt. rewrite acquireToken_results. cbv zeta.
  cbn [fst snd acq_allowed acq_waitTimeMs].
  set (s0 := store).
  destruct (checkBucket_script backend "per_second" (perSecond rl) t s0 Hp) as (S1 & A1 & W1).
  cbv zeta in S1, A1, W1.
  set (o1 := checkBucket backend "per_second" (perSecond rl) (at_time t) s0) in *.
  destruct (checkBucket_script backend "per_minute" (perMinute rl) t (fst o1) Hp)
    as (S2 & A2 & W2).
  cbv zeta in S2, A2, W2.
  set (o2 := checkBucket backend "per_minute" (perMinute rl) (at_time t) (fst o1)) in *.
  destruct (checkBucket_script backend "per_hour" (perHour rl) t (fst o2) Hp)
    as (S3 & A3 & W3).
  cbv zeta in S3, A3, W3.
  set (o3 := checkBucket backend "per_hour" (perHour rl) (at_time t) (fst o2)) in *.
  destruct (bucketKey_distinct backend) as (Hsm & Hsh & Hmh).
  assert (L2 : HGETALL t (bucketKey backend "per_minute") (fst o1)
               = HGETALL t (bucketKey backend "per_minute") s0).
  { rewrite S1. apply HGETALL_insert_ne. assumption. }
  assert (L3 : HGETALL t (bucketKey backend "per_hour") (fst o2)
               = HGETALL t (bucketKey backend "per_hour") s0).
  { rewrite S2, HGETALL_insert_ne by assumption. rewrite S1. apply HGETALL_insert_ne. assumption. }
  rewrite L2 in S2, A2, W2. rewrite L3 in S3, A3, W3.
  unfold foldWait. rewrite A1, A2, A3, W1, W2, W3.
  split; [|split; [|split; [|split]]]; try reflexivity.
  - rewrite S3, lookup_insert_ne by congruence. rewrite S2, lookup_insert_ne by congruence.
    rewrite S1. apply lookup_insert_eq.
  - rewrite S3, lookup_insert_ne by congruence. rewrite S2. apply lookup_insert_eq.
  - rewrite S3. apply lookup_insert_eq.
Qed.

Lemma HGETALL_lookup (t d : Z) (key : string) (b : Bucket) (store : gmap string Entry) :
  store !! key = Some (mkEntry b (Some d)) -> (t <= d)%Z -> HGETALL t key store = Some b.
Proof.
  intros H Ht. unfold HGETALL. rewrite H, expired_deadline.
  destruct (Z.ltb_spec d t) as [Hlt|_]; [lia|reflexivity].
Qed.

Lemma script_absent_allowed cfg t :
  (1 <= capacity cfg)%Z ->
  bucketStep cfg 1 t None =
  (mkBucket (inject_Z (capacity cfg) - 1) t, mkResult true (inject_Z (capacity cfg) - 1) 0).
Proof.
  intros H. rewrite script_absent.
  assert (E : Qle_bool 1 (inject_Z (capacity cfg)) = true).
  { apply Qle_bool_iff. change 1 with (inject_Z 1). rewrite <- Zle_Qle. exact H. }
  rewrite E. reflexivity.
Qed.

Lemma script_idle_allowed cfg t q lr :
  tokensToAdd cfg (t - lr) = 0%Z -> 1 <= q ->
  bucketStep cfg 1 t (Some (mkBucket q lr)) =
  (mkBucket (q - 1) lr, mkResult true (q - 1) 0).
Proof.
  intros H Hq. rewrite script_idle by exact H. cbn [tokens last_refill].
  apply Qle_bool_iff in Hq. rewrite Hq. reflexivity.
Qed.

Lemma script_idle_denied cfg t q lr :
  tokensToAdd cfg (t - lr) = 0%Z -> q < 1 ->
  bucketStep cfg 1 t (Some (mkBucket q lr)) =
  (mkBucket q lr, mkResult false q (waitFor cfg (1 - q))).
Proof.
  intros H Hq. rewrite script_idle by exact H. cbn [tokens last_refill].
  destruct (Qle_bool 1 q) eqn:E; [|reflexivity].
  apply Qle_bool_iff in E. lra.
Qed.

(** Three fault-free acquisitions on the default configuration, starting with
    no bucket in the store, the third less than 500 ms after the first. *)
Lemma admission_scenario backend t1 t2 t3 :
  parsesNumbers backend = false ->
  (t1 <= t2)%Z -> (t2 <= t3)%Z -> (t3 < t1 + 500)%Z ->
  let x1 := acquireAt backend defaultRateLimiting t1 ∅ in
  let x2 := acquireAt backend defaultRateLimiting t2 (fst x1) in
  let x3 := acquireAt backend defaultRateLimiting t3 (fst x2) in
  acq_allowed (snd x1) = true /\ acq_allowed (snd x2) = true /\
  acq_allowed (snd x3) = false /\ acq_waitTimeMs (snd x3) = 500%Z.
Proof.
  intros Hp H12 H23 H31. cbv zeta.
  assert (Httl : (TTL_SECONDS * 1000 = 7200000)%Z) by reflexivity.
  assert (Hempty : forall t k, HGETALL t k (∅ : gmap string Entry) = None).
  { intros t k. unfold HGETALL. rewrite lookup_empty. reflexivity. }
  destruct (acquireAt_view backend defaultRateLimiting t1 ∅ Hp) as (Hs1 & Hm1 & Hh1 & Ha1 & _).
  cbv zeta in Hs1, Hm1, Hh1, Ha1.
  rewrite !Hempty in Hs1, Hm1, Hh1, Ha1.
  rewrite !script_absent_allowed in Ha1 by (cbn; lia).
  rewrite script_absent_allowed in Hs1, Hm1, Hh1 by (cbn; lia).
  cbn [fst snd perSecond perMinute perHour defaultRateLimiting capacity allowed andb]
    in Hs1, Hm1, Hh1, Ha1.
  set (s1 := fst (acquireAt backend defaultRateLimiting t1 ∅)) in *.
  destruct (acquireAt_view backend defaultRateLimiting t2 s1 Hp) as (Hs2 & Hm2 & Hh2 & Ha2 & _).
  cbv zeta in Hs2, Hm2, Hh2, Ha2.
  rewrite (HGETALL_lookup t2 _ _ _ s1 Hs1) in Hs2, Ha2 by lia.
  rewrite (HGETALL_lookup t2 _ _ _ s1 Hm1) in Hm2, Ha2 by lia.
  rewrite (HGETALL_lookup t2 _ _ _ s1 Hh1) in Hh2, Ha2 by lia.
  cbn [perSecond perMinute perHour defaultRateLimiting] in Hs2, Hm2, Hh2, Ha2.
  rewrite !script_idle_allowed in Ha2
    by first [apply tokensToAdd_small; cbn; lia | closed_rational].
  rewrite script_idle_allowed in Hs2, Hm2, Hh2
    by first [apply tokensToAdd_small; cbn; lia | closed_rational].
  cbn [fst snd allowed andb] in Hs2, Hm2, Hh2, Ha2.
  set (s2 := fst (acquireAt backend defaultRateLimiting t2 s1)) in *.
  destruct (acquireAt_view backend defaultRateLimiting t3 s2 Hp) as (_ & _ & _ & Ha3 & Hw3).
  cbv zeta in Ha3, Hw3.
  rewrite (HGETALL_lookup t3 _ _ _ s2 Hs2) in Ha3, Hw3 by lia.
  rewrite (HGETALL_lookup t3 _ _ _ s2 Hm2) in Ha3, Hw3 by lia.
  rewrite (HGETALL_lookup t3 _ _ _ s2 Hh2) in Ha3, Hw3 by lia.
  cbn [perSecond perMinute perHour defaultRateLimiting] in Ha3, Hw3.
  rewrite (script_idle_denied (mkConfig 2 2 1000)) in Ha3, Hw3
    by first [apply tokensToAdd_small; cbn; lia | closed_rational].
  rewrite !script_idle_allowed in Ha3, Hw3
    by first [apply tokensToAdd_small; cbn; lia | closed_rational].
  cbn [fst snd allowed andb] in Ha3. unfold foldWait in Hw3.
  cbn [fst snd allowed waitTimeMs] in Hw3.
  split; [exact Ha1|]. split; [exact Ha2|]. split; [exact Ha3|].
  rewrite Hw3. vm_compute. reflexivity.
Qed.

(** C2, as stated, fails in its concrete scenario: with the three default
    buckets freshly initialised by two acquisitions at time 0, a third
    acquisition 500 ms later, within the same second, is allowed, because
    the [per_second] bucket has been credited one token by then. *)
Lemma C2_third_within_second_counterexample :
  let x1 := acquireAt Standard defaultRateLimiting 0 ∅ in
  let x2 := acquireAt Standard defaultRateLimiting 0 (fst x1) in
  let x3 := acquireAt Standard defaultRateLimiting 500 (fst x2) in
  (500 < 0 + 1000)%Z /\
  acq_allowed (snd x1) = true /\ acq_allowed (snd x2) = true /\
  acq_allowed (snd x3) = true.
Proof. cbv zeta. split; [lia|]. vm_compute. repeat split; reflexivity. Qed.

(** C2 (amended): [acquireToken] returns [allowed = true] if and only if
    each of the three bucket checks does; when it returns [allowed = false],
    its [waitTimeMs] is the maximum of the three per-bucket waits, where the
    wait of a denied bucket is [ceil((1 - tokens) / refillRate * intervalMs)]
    (refill rates and intervals being positive).  With the default buckets and
    an empty store, on the script backend or the Upstash backend that hands
    back the strings stored, two acquisitions are allowed and a third one less
    than 500 ms after the first is denied with [waitTimeMs = 500]. *)
Theorem C2_acquireToken backend rl c1 c2 c3 store scenarioBackend t1 t2 t3 :
  positiveRates rl ->
  parsesNumbers scenarioBackend = false ->
  (t1 <= t2)%Z -> (t2 <= t3)%Z -> (t3 < t1 + 500)%Z ->
  (let x1 := checkBucket backend "per_second" (perSecond rl) c1 store in
   let x2 := checkBucket backend "per_minute" (perMinute rl) c2 (fst x1) in
   let x3 := checkBucket backend "per_hour" (perHour rl) c3 (fst x2) in
   let res := snd (acquireToken backend rl c1 c2 c3 store) in
   bucketStates res !! "per_second"%string = Some (snd x1) /\
   bucketStates res !! "per_minute"%string = Some (snd x2) /\
   bucketStates res !! "per_hour"%string = Some (snd x3) /\
   (acq_allowed res = true <->
    allowed (snd x1) = true /\ allowed (snd x2) = true /\ allowed (snd x3) = true) /\
   (acq_allowed res = false ->
    acq_waitTimeMs res =
    Z.max (waitTimeMs (snd x1)) (Z.max (waitTimeMs (snd x2)) (waitTimeMs (snd x3)))) /\
   deniedWait (perSecond rl) (bucketKey backend "per_second") x1 /\
   deniedWait (perMinute rl) (bucketKey backend "per_minute") x2 /\
   deniedWait (perHour rl) (bucketKey backend "per_hour") x3) /\
  (let y1 := acquireAt scenarioBackend defaultRateLimiting t1 ∅ in
   let y2 := acquireAt scenarioBackend defaultRateLimiting t2 (fst y1) in
   let y3 := acquireAt scenarioBackend defaultRateLimiting t3 (fst y2) in
   acq_allowed (snd y1) = true /\ acq_allowed (snd y2) = true /\
   acq_allowed (snd y3) = false /\ acq_waitTimeMs (snd y3) = 500%Z).
Proof.
  intros ((HR1 & HI1) & (HR2 & HI2) & (HR3 & HI3)) Hp H12 H23 H31.
  split; [|apply admission_scenario; assumption].
  cbv zeta. rewrite acquireToken_results. cbv zeta.
  cbn [snd bucketStates acq_allowed acq_waitTimeMs].
  set (s1 := fst (checkBucket backend "per_second" (perSecond rl) c1 store)).
  set (s2 := fst (checkBucket backend "per_minute" (perMinute rl) c2 s1)).
  destruct (checkBucket_wait backend "per_second" (perSecond rl) c1 store HR1 HI1)
    as (W1 & A1 & D1).
  destruct (checkBucket_wait backend "per_minute" (perMinute rl) c2 s1 HR2 HI2)
    as (W2 & A2 & D2).
  destruct (checkBucket_wait backend "per_hour" (perHour rl) c3 s2 HR3 HI3)
    as (W3 & A3 & D3).
  set (r1 := snd (checkBucket backend "per_second" (perSecond rl) c1 store)) in *.
  set (r2 := snd (checkBucket backend "per_minute" (perMinute rl) c2 s1)) in *.
  set (r3 := snd (checkBucket backend "per_hour" (perHour rl) c3 s2)) in *.
  split; [|split; [|split]].
  - rewrite lookup_insert_ne by discriminate. rewrite lookup_insert_ne by discriminate.
    apply lookup_insert_eq.
  - rewrite lookup_insert_ne by discriminate. apply lookup_insert_eq.
  - apply lookup_insert_eq.
  - split; [|split; [|split; [|split]]]; try assumption.
    + rewrite !andb_true_iff. tauto.
    + intros _.
      assert (F1 : foldWait r1 0 = Z.max 0 (waitTimeMs r1))
        by (apply foldWait_max; [lia | assumption | assumption]).
      assert (F2 : foldWait r2 (foldWait r1 0) = Z.max (foldWait r1 0) (waitTimeMs r2))
        by (apply foldWait_max; [lia | assumption | assumption]).
      assert (F3 : foldWait r3 (foldWait r2 (foldWait r1 0))
                   = Z.max (foldWait r2 (foldWait r1 0)) (waitTimeMs r3))
        by (apply foldWait_max; [lia | assumption | assumption]).
      lia.
Qed.

Lemma C2_acquireToken_witness :
  (let x1 := checkBucket (Upstash true) "per_second" (perSecond defaultRateLimiting)
               (mkCall 10 None) ∅ in
   let x2 := checkBucket (Upstash true) "per_minute" (perMinute defaultRateLimiting)
               (mkCall 11 (Some FaultExpire)) (fst x1) in
   let x3 := checkBucket (Upstash true) "per_hour" (perHour defaultRateLimiting)
               (mkCall 12 None) (fst x2) in
   let res := snd (acquireToken (Upstash true) defaultRateLimiting
                     (mkCall 10 None) (mkCall 11 (Some FaultExpire)) (mkCall 12 None) ∅) in
   bucketStates res !! "per_second"%string = Some (snd x1) /\
   bucketStates res !! "per_minute"%string = Some (snd x2) /\
   bucketStates res !! "per_hour"%string = Some (snd x3) /\
   (acq_allowed res = true <->
    allowed (snd x1) = true /\ allowed (snd x2) = true /\ allowed (snd x3) = true) /\
   (acq_allowed res = false ->
    acq_waitTimeMs res =
    Z.max (waitTimeMs (snd x1)) (Z.max (waitTimeMs (snd x2)) (waitTimeMs (snd x3)))) /\
   deniedWait (perSecond defaultRateLimiting) (bucketKey (Upstash true) "per_second") x1 /\
   deniedWait (perMinute defaultRateLimiting) (bucketKey (Upstash true) "per_minute") x2 /\
   deniedWait (perHour defaultRateLimiting) (bucketKey (Upstash true) "per_hour") x3) /\
  (let y1 := acquireAt Standard defaultRateLimiting 1000 ∅ in
   let y2 := acquireAt Standard defaultRateLimiting 1200 (fst y1) in
   let y3 := acquireAt Standard defaultRateLimiting 1499 (fst y2) in
   acq_allowed (snd y1) = true /\ acq_allowed (snd y2) = true /\
   acq_allowed (snd y3) = false /\ acq_waitTimeMs (snd y3) = 500%Z).
Proof.
  apply (C2_acquireToken (Upstash true) defaultRateLimiting
           (mkCall 10 None) (mkCall 11 (Some FaultExpire)) (mkCall 12 None) ∅
           Standard 1000 1200 1499).
  - unfold positiveRates. cbn. lia.
  - reflexivity.
  - lia.
  - lia.
  - lia.
Defined.

End RateLimiterFacts.

(** ** Analytics engine *)

Section AnalyticsFacts.
Import JS Analytics.
Local Open Scope Q_scope.

(** *** Percentiles *)

Lemma index_in_range (a : list Q) (k : Z) :
  (0 <= k < Z.of_nat (List.length a))%Z -> exists x, JS.index a k = JNum x.
Proof.
  intros (H0 & H1). unfold JS.index.
  destruct (Z.ltb_spec k 0) as [Hneg|_]; [lia|].
  destruct (nth_error a (Z.to_nat k)) as [x|] eqn:E; [exists x; reflexivity|].
  apply nth_error_None in E. lia.
Qed.

Lemma percentile_index_bounds (n : Z) (p : Q) :
  (1 <= n)%Z -> 0 <= p -> p <= 100 ->
  let i := (p / 100) * inject_Z (n - 1) in
  (0 <= Qfloor i)%Z /\ (Qfloor i <= Qceiling i)%Z /\ (Qceiling i <= n - 1)%Z.
Proof.
  intros Hn Hp0 Hp1 i.
  assert (Hn' : 0 <= inject_Z (n - 1)).
  { change 0 with (inject_Z 0). rewrite <- Zle_Qle. lia. }
  assert (Hr0 : 0 <= p / 100) by (apply Qle_shift_div_l; [reflexivity | lra]).
  assert (Hr1 : p / 100 <= 1) by (apply Qle_shift_div_r; [reflexivity | lra]).
  assert (Hi0 : 0 <= i) by (apply Qmult_le_0_compat; assumption).
  assert (Hi1 : i <= inject_Z (n - 1)).
  { apply Qle_trans with (1 * inject_Z (n - 1)).
    - apply Qmult_le_compat_r; assumption.
    - rewrite Qmult_1_l. apply Qle_refl. }
  split; [|split].
  - change 0%Z with (Qfloor 0). apply Qfloor_resp_le. exact Hi0.
  - rewrite Zle_Qle. apply Qle_floor_ceiling.
  - rewrite <- (Qceiling_Z (n - 1)). apply Qceiling_resp_le. exact Hi1.
Qed.

(** C5: for a percentile between 0 and 100, [calculatePercentile] returns
    [null] on the empty sample, the single element on a sample of size 1, and
    on every non-empty sample the interpolation
    [a[floor i] * (1 - frac) + a[ceil i] * frac] with [i = p/100 * (n - 1)]
    and [frac = i - floor i]; the 50th percentile of [10, 20, 30, 40] is 25. *)
Theorem C5_calculatePercentile (a : list Q) (p : Q) :
  0 <= p -> p <= 100 ->
  (a = [] -> calculatePercentile a p = JNull) /\
  (forall x, a = [x] -> calculatePercentile a p = JNum x) /\
  (a <> [] ->
   let i := (p / 100) * inject_Z (Z.of_nat (List.length a) - 1) in
   let frac := i - inject_Z (Qfloor i) in
   exists lo hi,
     JS.index a (Qfloor i) = JNum lo /\ JS.index a (Qceiling i) = JNum hi /\
     same (calculatePercentile a p) (JNum (lo * (1 - frac) + hi * frac))) /\
  same (calculatePercentile [10; 20; 30; 40] 50) (JNum 25).
Proof.
  intros Hp0 Hp1. split; [|split; [|split]].
  - intros ->. reflexivity.
  - intros x ->. reflexivity.
  - intros Hne i frac.
    assert (Hn : (1 <= Z.of_nat (List.length a))%Z).
    { destruct a; [congruence|]. cbn [List.length]. lia. }
    destruct (percentile_index_bounds _ p Hn Hp0 Hp1) as (Hlo & Hmid & Hhi).
    fold i in Hlo, Hmid, Hhi.
    destruct (index_in_range a (Qfloor i)) as (lo & Elo); [lia|].
    destruct (index_in_range a (Qceiling i)) as (hi & Ehi); [lia|].
    exists lo, hi. split; [exact Elo|]. split; [exact Ehi|].
    destruct a as [|x [|y rest]]; [congruence| |].
    + (* one element: the index is 0 *)
      assert (Hi : i == 0).
      { unfold i. replace (Z.of_nat (List.length [x]) - 1)%Z with 0%Z by reflexivity.
        change (inject_Z 0) with 0. apply Qmult_0_r. }
      assert (Hf : Qfloor i = 0%Z) by (rewrite (Qfloor_comp _ _ Hi); reflexivity).
      assert (Hc : Qceiling i = 0%Z) by (rewrite (Qceiling_comp _ _ Hi); reflexivity).
      rewrite Hf in Elo. rewrite Hc in Ehi. cbn in Elo, Ehi.
      injection Elo as <-. injection Ehi as <-.
      cbn [calculatePercentile same]. ring.
    + remember (x :: y :: rest) as arr eqn:Harr.
      assert (Hcalc : calculatePercentile arr p =
                if (Qfloor i =? Qceiling i)%Z then JS.index arr (Qfloor i)
                else match JS.index arr (Qfloor i), JS.index arr (Qceiling i) with
                     | JNum lo, JNum hi => JNum (lo * (1 - frac) + hi * frac)
                     | _, _ => JNaN
                     end).
      { subst arr. reflexivity. }
      rewrite Hcalc, Elo, Ehi.
      destruct (Z.eqb_spec (Qfloor i) (Qceiling i)) as [Heq|Hneq]; cbn [same].
      * assert (Hfrac : frac == 0).
        { unfold frac. pose proof (Qfloor_le i) as H1. pose proof (Qle_ceiling i) as H2.
          rewrite <- Heq in H2. lra. }
        rewrite Heq in Elo. rewrite Elo in Ehi. injection Ehi as <-.
        rewrite Hfrac. ring.
      * reflexivity.
  - vm_compute. reflexivity.
Qed.

Lemma C5_calculatePercentile_witness :
  ([10; 20; 30; 40; 50] = [] -> calculatePercentile [10; 20; 30; 40; 50] 25 = JNull) /\
  (forall x, [10; 20; 30; 40; 50] = [x] -> calculatePercentile [10; 20; 30; 40; 50] 25 = JNum x) /\
  ([10; 20; 30; 40; 50] <> [] ->
   let i := (25 / 100) * inject_Z (Z.of_nat (List.length [10; 20; 30; 40; 50]) - 1) in
   let frac := i - inject_Z (Qfloor i) in
   exists lo hi,
     JS.index [10; 20; 30; 40; 50] (Qfloor i) = JNum lo /\
     JS.index [10; 20; 30; 40; 50] (Qceiling i) = JNum hi /\
     same (calculatePercentile [10; 20; 30; 40; 50] 25) (JNum (lo * (1 - frac) + hi * frac))) /\
  same (calculatePercentile [10; 20; 30; 40] 50) (JNum 25).
Proof.
  apply (C5_calculatePercentile [10; 20; 30; 40; 50] 25).
  - vm_compute. discriminate.
  - vm_compute. discriminate.
Defined.

(** *** Maximum drawdown *)

Lemma peak_update (peak x : Q) :
  (if greaterThan (NavNumber x) (NavNumber peak) then NavNumber x else NavNumber peak)
  = NavNumber (Qmax peak x).
Proof.
  cbn [greaterThan toNumber]. unfold Qmax, GenericMinMax.gmax.
  destruct (Qle_bool x peak) eqn:E; cbn [negb].
  - apply Qle_bool_iff in E. destruct (Qcompare_spec peak x) as [H|H|H]; try reflexivity. lra.
  - destruct (Qcompare_spec peak x) as [H|H|H]; try reflexivity;
      exfalso; assert (Hle : x <= peak) by lra; apply Qle_bool_iff in Hle; congruence.
Qed.

Lemma drawdownStep_spec (peak mdd : Q) (p : NavPoint) :
  numeric p ->
  let x := navNumber p in
  let d := (x - Qmax peak x) / Qmax peak x in
  drawdownStep (NavNumber peak, mdd) p =
  (NavNumber (Qmax peak x), if negb (Qle_bool mdd d) then d else mdd).
Proof.
  intros [q Hq]. cbv zeta. unfold drawdownStep, navNumber. rewrite Hq. cbn [toNumber].
  rewrite peak_update. reflexivity.
Qed.

(** On rows that hold numbers, the sweep returns the least of the initial
    value and the drawdowns. *)
Lemma sweep_spec (l : list NavPoint) :
  Forall numeric l ->
  forall peak mdd,
  let r := snd (fold_left drawdownStep l (NavNumber peak, mdd)) in
  r <= mdd /\
  (forall d, In d (drawdowns peak (List.map navNumber l)) -> r <= d) /\
  (r = mdd \/ In r (drawdowns peak (List.map navNumber l))).
Proof.
  induction l as [|p l IH]; intros Hnum peak mdd; cbv zeta.
  - cbn. split; [apply Qle_refl|]. split; [intros d []|left; reflexivity].
  - apply Forall_cons_iff in Hnum. destruct Hnum as (Hp & Hl).
    cbn [fold_left List.map drawdowns]. rewrite (drawdownStep_spec peak mdd p Hp). cbv zeta.
    set (peak' := Qmax peak (navNumber p)). set (d0 := (navNumber p - peak') / peak').
    specialize (IH Hl peak' (if negb (Qle_bool mdd d0) then d0 else mdd)).
    cbv zeta in IH. destruct IH as (Hle & Hall & Hin).
    set (r := snd (fold_left drawdownStep l
                     (NavNumber peak', if negb (Qle_bool mdd d0) then d0 else mdd))) in *.
    destruct (Qle_bool mdd d0) eqn:E; cbn [negb] in *.
    + apply Qle_bool_iff in E. split; [exact Hle|]. split.
      * intros d [<-|Hd]; [lra | apply Hall; exact Hd].
      * destruct Hin as [->|Hin]; [left; reflexivity | right; right; exact Hin].
    + assert (Hlt : d0 < mdd).
      { apply Qnot_le_lt. intros H. apply Qle_bool_iff in H. congruence. }
      split; [lra|]. split.
      * intros d [<-|Hd]; [exact Hle | apply Hall; exact Hd].
      * destruct Hin as [->|Hin]; [right; left; reflexivity | right; right; exact Hin].
Qed.

Lemma drawdowns_nonDecreasing (navs : list Q) :
  forall peak,
  match navs with [] => True | x :: _ => peak <= x end ->
  nonDecreasing navs ->
  forall d, In d (drawdowns peak navs) -> d == 0.
Proof.
  induction navs as [|x rest IH]; intros peak Hpx Hnd d Hd; [destruct Hd|].
  cbn [drawdowns] in Hd.
  assert (Hmax : Qmax peak x == x) by (apply Q.max_r; exact Hpx).
  destruct Hd as [<-|Hd].
  - rewrite Hmax. unfold Qdiv. ring.
  - apply (IH (Qmax peak x)); [| |exact Hd].
    + destruct rest as [|y rest']; [exact I|]. destruct Hnd as (Hxy & _). rewrite Hmax. exact Hxy.
    + destruct rest as [|y rest']; [exact I|]. destruct Hnd as (_ & Hnd). exact Hnd.
Qed.

(** C3, as stated, fails on histories of fewer than two points: the
    one-point history is monotonic non-decreasing, yet the function returns
    [null], not 0. *)
Lemma C3_single_point_counterexample :
  nonDecreasing (List.map navNumber [numberRow 0 100]) /\
  calculateMaxDrawdown [numberRow 0 100] = JNull /\
  ~ same (calculateMaxDrawdown [numberRow 0 100]) (JNum 0).
Proof.
  split; [exact I|]. split; [reflexivity|]. cbn. discriminate.
Qed.

(** C3 (amended): on a history of fewer than two points
    [calculateMaxDrawdown] returns [null].  On every history of at least two
    points whose NAVs are positive numbers it returns the minimum, over the
    full history, of [(nav - peak) / peak] where [peak] is the running peak of
    the left-to-right sweep; the result is at most 0, and it is 0 when the
    history is monotonic non-decreasing.  The series [100,110,95,88,105]
    yields -0.20 and [100,90,95,110,77,100] yields -0.30. *)
Theorem C3_calculateMaxDrawdown (navHistory : list NavPoint) :
  ((List.length navHistory < 2)%nat -> calculateMaxDrawdown navHistory = JNull) /\
  ((2 <= List.length navHistory)%nat ->
   Forall (fun p => numeric p /\ 0 < navNumber p) navHistory ->
   exists m, calculateMaxDrawdown navHistory = JNum m /\
     isMinimum m (drawdownsOf navHistory) /\
     m <= 0 /\
     (nonDecreasing (List.map navNumber navHistory) -> m == 0)) /\
  same (calculateMaxDrawdown
          [numberRow 1 100; numberRow 2 110; numberRow 3 95; numberRow 4 88; numberRow 5 105])
       (JNum (- (20 # 100))) /\
  same (calculateMaxDrawdown
          [numberRow 1 100; numberRow 2 90; numberRow 3 95; numberRow 4 110; numberRow 5 77;
           numberRow 6 100])
       (JNum (- (30 # 100))).
Proof.
  split; [|split; [|split]].
  - intros Hlen. unfold calculateMaxDrawdown.
    destruct (Z.ltb_spec (Z.of_nat (List.length navHistory)) 2) as [_|H]; [reflexivity|lia].
  - intros Hlen Hpos. unfold calculateMaxDrawdown.
    destruct (Z.ltb_spec (Z.of_nat (List.length navHistory)) 2) as [H|_]; [lia|].
    destruct navHistory as [|first rest]; [cbn in Hlen; lia|].
    assert (Hnum : Forall numeric (first :: rest)).
    { eapply Forall_impl; [exact Hpos|]. intros p (Hp & _). exact Hp. }
    assert (Hfst : nav first = NavNumber (navNumber first)).
    { apply Forall_inv in Hnum. destruct Hnum as [q Hq]. unfold navNumber. rewrite Hq.
      reflexivity. }
    rewrite Hfst.
    exists (snd (fold_left drawdownStep (first :: rest) (NavNumber (navNumber first), 0))).
    split; [reflexivity|].
    destruct (sweep_spec (first :: rest) Hnum (navNumber first) 0) as (Hle & Hall & Hin).
    set (m := snd (fold_left drawdownStep (first :: rest) (NavNumber (navNumber first), 0))) in *.
    assert (Hfirst : In ((navNumber first - Qmax (navNumber first) (navNumber first))
                          / Qmax (navNumber first) (navNumber first))
                        (drawdowns (navNumber first) (List.map navNumber (first :: rest)))).
    { cbn [List.map drawdowns]. left. reflexivity. }
    assert (Hzero : (navNumber first - Qmax (navNumber first) (navNumber first))
                      / Qmax (navNumber first) (navNumber first) == 0).
    { rewrite Q.max_id. unfold Qdiv. ring. }
    split; [|split].
    + unfold isMinimum, drawdownsOf. split; [|exact Hall].
      destruct Hin as [Hm|Hm].
      * eexists. split; [exact Hfirst|]. rewrite Hm, Hzero. reflexivity.
      * exists m. split; [exact Hm|reflexivity].
    + exact Hle.
    + intros Hnd. apply Qle_antisym; [exact Hle|].
      destruct Hin as [Hm|Hm]; [rewrite Hm; apply Qle_refl|].
      assert (Hd : m == 0).
      { apply (drawdowns_nonDecreasing (List.map navNumber (first :: rest)) (navNumber first));
          [cbn; apply Qle_refl | exact Hnd | exact Hm]. }
      rewrite Hd. apply Qle_refl.
  - vm_compute. reflexivity.
  - vm_compute. reflexivity.
Qed.

Lemma C3_calculateMaxDrawdown_witness :
  ((List.length [numberRow 1 100; numberRow 2 105; numberRow 3 110] < 2)%nat ->
     calculateMaxDrawdown [numberRow 1 100; numberRow 2 105; numberRow 3 110] = JNull) /\
  (exists m, calculateMaxDrawdown [numberRow 1 100; numberRow 2 105; numberRow 3 110] = JNum m /\
     isMinimum m (drawdownsOf [numberRow 1 100; numberRow 2 105; numberRow 3 110]) /\
     m <= 0 /\
     (nonDecreasing (List.map navNumber [numberRow 1 100; numberRow 2 105; numberRow 3 110])
      -> m == 0)).
Proof.
  pose proof (C3_calculateMaxDrawdown [numberRow 1 100; numberRow 2 105; numberRow 3 110])
    as (H1 & H2 & _).
  split; [exact H1|]. apply H2.
  - cbn. lia.
  - repeat constructor; try (eexists; reflexivity).
Defined.

(** Rows read from [nav_history] hold their NAV as text, and the sweep then
    compares texts: ["95.0000"] is greater than ["110.0000"] as a string, so
    the peak falls to 95, and the series [100,110,95,88,105] yields
    [(88 - 95) / 95], not -0.20.  The history [100, 110, 121, 99] yields 0
    although the NAV falls. *)
Example decimal_rows_compare_as_text :
  same (calculateMaxDrawdown
          [decimalRow 1 1000000%Z; decimalRow 2 1100000%Z; decimalRow 3 950000%Z;
           decimalRow 4 880000%Z; decimalRow 5 1050000%Z])
       (JNum (- (7 # 95))) /\
  same (calculateMaxDrawdown
          [decimalRow 1 1000000%Z; decimalRow 2 1100000%Z; decimalRow 3 1210000%Z;
           decimalRow 4 990000%Z])
       (JNum 0).
Proof. split; vm_compute; reflexivity. Qed.

(** *** The sufficiency test and skipped windows *)

Lemma historyDays_diff (f l : Z) : historyDays f l == inject_Z (l - f).
Proof.
  unfold historyDays.
  replace (l * 86400000 - f * 86400000)%Z with ((l - f) * 86400000)%Z by lia.
  rewrite inject_Z_mult. change (1000 * 60 * 60 * 24)%Z with 86400000%Z.
  field.
Qed.

Lemma insufficient_iff (f l W : Z) :
  insufficient f l W = true <-> historyDays f l < inject_Z W * (9 # 10).
Proof.
  unfold insufficient. rewrite negb_true_iff. split.
  - intros E. apply Qnot_le_lt. intros H. apply Qle_bool_iff in H. congruence.
  - intros H. destruct (Qle_bool _ _) eqn:E; [|reflexivity].
    apply Qle_bool_iff in E. lra.
Qed.

Lemma navByDate_lookup (h : list NavPoint) :
  forall (m : gmap Z NavValue) k v,
  fold_left (fun m p => <[date p := nav p]> m) h m !! k = Some v ->
  m !! k = Some v \/ exists p, In p h /\ date p = k.
Proof.
  induction h as [|p h IH]; intros m k v H; [left; exact H|].
  cbn [fold_left] in H. apply IH in H. destruct H as [H|(q & Hq & Hk)].
  - destruct (decide (date p = k)) as [Heq|Hne].
    + right. exists p. split; [left; reflexivity|exact Heq].
    + rewrite lookup_insert_ne in H by exact Hne. left. exact H.
  - right. exists q. split; [right; exact Hq|exact Hk].
Qed.

Lemma navByDate_dates (h : list NavPoint) k v :
  navByDate h !! k = Some v -> exists p, In p h /\ date p = k.
Proof.
  intros H. apply navByDate_lookup in H. destruct H as [H|H]; [|exact H].
  rewrite lookup_empty in H. discriminate.
Qed.

Lemma datesAscending_bounds (h : list NavPoint) :
  forall first, datesAscending (first :: h) ->
  forall p, In p (first :: h) ->
  (date first <= date p <= date (List.last (first :: h) first))%Z.
Proof.
  induction h as [|q h IH]; intros first Hasc p Hp.
  - destruct Hp as [<-|[]]. cbn. lia.
  - destruct Hasc as (Hfq & Hasc).
    assert (Hl : List.last (first :: q :: h) first = List.last (q :: h) q).
    { rewrite !last_cons. reflexivity. }
    rewrite Hl.
    assert (Hq := IH q Hasc q (or_introl eq_refl)).
    destruct Hp as [<-|Hp]; [lia|].
    specialize (IH q Hasc p Hp). lia.
Qed.

Lemma findPastNav_None (byDate : gmap Z NavValue) (pastDate : Z) :
  (forall o, (0 <= o <= 5)%Z -> byDate !! (pastDate + o)%Z = None) ->
  findPastNav byDate pastDate = None.
Proof.
  intros H. unfold findPastNav. cbn [List.fold_right].
  rewrite !H by lia. reflexivity.
Qed.

(** With rows in ascending date order and less than [windowDays - 5] days of
    history, no look-back date, nor any of the five days after it, carries a
    NAV: there is no rolling return. *)
Lemma no_rolling_returns (first : NavPoint) (rest : list NavPoint) (windowDays : Z) :
  datesAscending (first :: rest) ->
  (date (List.last (first :: rest) first) - date first < windowDays - 5)%Z ->
  calculateRollingReturns (first :: rest) windowDays = [].
Proof.
  intros Hasc Hshort. unfold calculateRollingReturns.
  set (h := first :: rest) in *.
  assert (Hnone : forall p, In p h -> findPastNav (navByDate h) (date p - windowDays) = None).
  { intros p Hp. apply findPastNav_None. intros o Ho.
    destruct (navByDate h !! (date p - windowDays + o)%Z) as [v|] eqn:E; [|reflexivity].
    apply navByDate_dates in E. destruct E as (q & Hq & Hk).
    pose proof (datesAscending_bounds rest first Hasc p Hp) as Bp.
    pose proof (datesAscending_bounds rest first Hasc q Hq) as Bq.
    fold h in Bp, Bq. lia. }
  cbv zeta. generalize (navByDate h) Hnone. intros byDate Hn.
  clear -Hn. induction h as [|p h IH]; [reflexivity|].
  cbn [flat_map]. rewrite (Hn p (or_introl eq_refl)). cbn [app].
  apply IH. intros q Hq. apply Hn. right. exact Hq.
Qed.

Lemma computeSchemeAnalytics_None Math_pow (h : list NavPoint) (w : WindowType) :
  computeSchemeAnalytics Math_pow h w = None <->
  h = [] \/
  (exists first, List.head h = Some first /\
     insufficient (date first) (date (List.last h first)) (windowToDays w) = true) \/
  calculateRollingReturns h (windowToDays w) = [].
Proof.
  unfold computeSchemeAnalytics. destruct h as [|first rest]; [tauto|].
  cbv zeta. set (h := first :: rest).
  destruct (insufficient (date first) (date (List.last h first)) (windowToDays w)) eqn:Ei.
  - split; [|reflexivity]. intros _. right. left. exists first. split; [reflexivity|exact Ei].
  - destruct (calculateRollingReturns h (windowToDays w)) as [|r rs] eqn:Er.
    + cbn. tauto.
    + cbn [List.length]. 
      destruct (Z.eqb_spec (Z.of_nat (S (List.length rs))) 0) as [H|_]; [lia|].
      split; [discriminate|].
      intros [H|[(f & Hf & Hi)|H]]; [discriminate H| |discriminate H].
      cbn in Hf. injection Hf as <-. congruence.
Qed.

Lemma windowToDays_ge (w : WindowType) : (365 <= windowToDays w)%Z.
Proof. destruct w; cbn; lia. Qed.

(** C4, as stated, fails: a window is also skipped when the history is long
    enough for the test.  Two rows 355 days apart pass the 1Y sufficiency test
    (355 is not below 0.9 * 365 = 328.5), yet no rolling return exists and the
    window is skipped. *)
Lemma C4_skipped_despite_sufficient_counterexample :
  let h := [decimalRow 0 1000000%Z; decimalRow 355 1100000%Z] in
  ~ historyDays 0 355 < inject_Z (windowToDays W1Y) * (9 # 10) /\
  forall Math_pow, computeSchemeAnalytics Math_pow h W1Y = None.
Proof.
  cbv zeta. split.
  - vm_compute. discriminate.
  - intros Math_pow. vm_compute. reflexivity.
Qed.

(** C4 (amended): an empty history is skipped.  For a non-empty history in
    ascending date order, with [history_days = last_date - first_date]: the
    window is skipped whenever [history_days < 0.9 * W_days]; it is skipped
    exactly when [history_days < 0.9 * W_days] or no rolling return can be
    computed; the latter is the case whenever [history_days < W_days - 5].  In
    particular a history of exactly [0.9 * W_days] passes the strict
    sufficiency test and is skipped all the same, for lack of rolling
    returns. *)
Theorem C4_skipped_windows Math_pow (h : list NavPoint) (w : WindowType) :
  datesAscending h ->
  match h with
  | [] => computeSchemeAnalytics Math_pow h w = None
  | first :: _ =>
    let days := historyDays (date first) (date (List.last h first)) in
    let W := inject_Z (windowToDays w) in
    (days < W * (9 # 10) -> computeSchemeAnalytics Math_pow h w = None) /\
    (computeSchemeAnalytics Math_pow h w = None <->
     days < W * (9 # 10) \/ calculateRollingReturns h (windowToDays w) = []) /\
    (days < W - 5 -> computeSchemeAnalytics Math_pow h w = None) /\
    (days == W * (9 # 10) ->
     insufficient (date first) (date (List.last h first)) (windowToDays w) = false /\
     computeSchemeAnalytics Math_pow h w = None)
  end.
Proof.
  intros Hasc. destruct h as [|first rest]; [reflexivity|].
  cbv zeta. set (h := first :: rest) in *.
  set (days := historyDays (date first) (date (List.last h first))).
  set (W := inject_Z (windowToDays w)).
  assert (Hiff : computeSchemeAnalytics Math_pow h w = None <->
            days < W * (9 # 10) \/ calculateRollingReturns h (windowToDays w) = []).
  { rewrite computeSchemeAnalytics_None. split.
    - intros [H|[(f & Hf & Hi)|H]]; [discriminate H| |right; exact H].
      cbn in Hf. injection Hf as <-. left. apply insufficient_iff. exact Hi.
    - intros [H|H]; [|right; right; exact H].
      right. left. exists first. split; [reflexivity|]. apply insufficient_iff. exact H. }
  assert (Hshort : days < W - 5 -> computeSchemeAnalytics Math_pow h w = None).
  { intros Hd. apply Hiff. right. apply no_rolling_returns; [exact Hasc|].
    unfold days, W in Hd. rewrite historyDays_diff in Hd.
    assert (Hq : inject_Z (date (List.last h first) - date first)
                 < inject_Z (windowToDays w - 5)).
    { unfold Zminus at 2. rewrite inject_Z_plus, inject_Z_opp. change (inject_Z 5) with 5. lra. }
    rewrite <- Zlt_Qlt in Hq. exact Hq. }
  split; [|split; [|split]].
  - intros Hd. apply Hiff. left. exact Hd.
  - exact Hiff.
  - exact Hshort.
  - intros Heq. split.
    + destruct (insufficient (date first) (date (List.last h first)) (windowToDays w)) eqn:E;
        [|reflexivity].
      apply insufficient_iff in E. fold days W in E. lra.
    + apply Hshort.
      assert (HW : 365 <= W).
      { unfold W. change 365 with (inject_Z 365). rewrite <- Zle_Qle. apply windowToDays_ge. }
      lra.
Qed.

Lemma C4_skipped_windows_witness :
  let h := [decimalRow 0 1000000%Z; decimalRow 3285 1100000%Z] in
  let Math_pow := fun _ _ : Q => 1 in
  let days := historyDays 0 3285 in
  let W := inject_Z (windowToDays W10Y) in
  (days < W * (9 # 10) -> computeSchemeAnalytics Math_pow h W10Y = None) /\
  (computeSchemeAnalytics Math_pow h W10Y = None <->
   days < W * (9 # 10) \/ calculateRollingReturns h (windowToDays W10Y) = []) /\
  (days < W - 5 -> computeSchemeAnalytics Math_pow h W10Y = None) /\
  (days == W * (9 # 10) ->
   insufficient 0 3285 (windowToDays W10Y) = false /\
   computeSchemeAnalytics Math_pow h W10Y = None).
Proof.
  apply (C4_skipped_windows (fun _ _ : Q => 1) [decimalRow 0 1000000%Z; decimalRow 3285 1100000%Z] W10Y).
  cbn. lia.
Defined.

End AnalyticsFacts.


(** ** Upstream client *)

Section MfApiClientFacts.
Import JS MfApiClient.

Lemma digit_cases (n : Z) :
  (0 <= n < 10)%Z ->
  n = 0%Z \/ n = 1%Z \/ n = 2%Z \/ n = 3%Z \/ n = 4%Z \/
  n = 5%Z \/ n = 6%Z \/ n = 7%Z \/ n = 8%Z \/ n = 9%Z.
Proof. lia. Qed.

Lemma digit_not_hyphen (n : Z) : (0 <= n < 10)%Z -> Ascii.eqb (digit n) "-" = false.
Proof.
  intros H. destruct (digit_cases n H) as [->|[->|[->|[->|[->|[->|[->|[->|[->| ->]]]]]]]]];
    reflexivity.
Qed.

Lemma digit_compare (a b : Z) :
  (0 <= a < 10)%Z -> (0 <= b < 10)%Z -> Ascii.compare (digit a) (digit b) = (a ?= b)%Z.
Proof.
  intros Ha Hb.
  destruct (digit_cases a Ha) as [->|[->|[->|[->|[->|[->|[->|[->|[->| ->]]]]]]]]];
  destruct (digit_cases b Hb) as [->|[->|[->|[->|[->|[->|[->|[->|[->| ->]]]]]]]]];
    reflexivity.
Qed.

Lemma append_cons (c : ascii) (a b : string) :
  (String c a ++ b)%string = String c (a ++ b)%string.
Proof. reflexivity. Qed.

Lemma append_nil (b : string) : (EmptyString ++ b)%string = b.
Proof. reflexivity. Qed.

Lemma split_noHyphen (a : string) : noHyphen a = true -> split "-" a = [a].
Proof.
  induction a as [|c a IH]; intros H; [reflexivity|].
  cbn [noHyphen] in H. apply andb_true_iff in H. destruct H as (Hc & Ha).
  apply negb_true_iff in Hc. cbn [split]. rewrite Hc, (IH Ha). reflexivity.
Qed.

Lemma split_piece (a b : string) :
  noHyphen a = true -> split "-" (a ++ String "-" b)%string = a :: split "-" b.
Proof.
  induction a as [|c a IH]; intros H.
  - rewrite append_nil. reflexivity.
  - cbn [noHyphen] in H. apply andb_true_iff in H. destruct H as (Hc & Ha).
    apply negb_true_iff in Hc. rewrite append_cons. cbn [split].
    rewrite Hc, (IH Ha). reflexivity.
Qed.

Lemma parseNavDate_parts (dd mm yyyy : string) :
  noHyphen dd = true -> noHyphen mm = true -> noHyphen yyyy = true ->
  parseNavDate (dd ++ "-" ++ mm ++ "-" ++ yyyy)%string = (yyyy ++ "-" ++ mm ++ "-" ++ dd)%string.
Proof.
  intros Hd Hm Hy. unfold parseNavDate.
  change ("-" ++ mm ++ "-" ++ yyyy)%string with (String "-" (mm ++ "-" ++ yyyy))%string.
  rewrite (split_piece dd _ Hd).
  change ("-" ++ yyyy)%string with (String "-" yyyy).
  rewrite (split_piece mm _ Hm), (split_noHyphen yyyy Hy).
  reflexivity.
Qed.

Lemma noHyphen_pad2 (n : Z) : (0 <= n < 100)%Z -> noHyphen (pad2 n) = true.
Proof.
  intros H. unfold pad2. cbn [noHyphen].
  rewrite !digit_not_hyphen by (Z.to_euclidean_division_equations; lia). reflexivity.
Qed.

Lemma noHyphen_pad4 (n : Z) : (0 <= n < 10000)%Z -> noHyphen (pad4 n) = true.
Proof.
  intros H. unfold pad4. cbn [noHyphen].
  rewrite !digit_not_hyphen by (Z.to_euclidean_division_equations; lia). reflexivity.
Qed.

Lemma digits_of_valid (d : CalendarDate) :
  validDate d ->
  (0 <= day d / 10 < 10 /\ 0 <= day d mod 10 < 10 /\
   0 <= month d / 10 < 10 /\ 0 <= month d mod 10 < 10 /\
   0 <= year d / 1000 < 10 /\ 0 <= (year d / 100) mod 10 < 10 /\
   0 <= (year d / 10) mod 10 < 10 /\ 0 <= year d mod 10 < 10)%Z.
Proof. unfold validDate. intros H. Z.to_euclidean_division_equations. lia. Qed.

(** [parseNavDate] turns [DD-MM-YYYY] into [YYYY-MM-DD]. *)
Lemma parseNavDate_upstreamFormat (d : CalendarDate) :
  validDate d -> parseNavDate (upstreamFormat d) = isoFormat d.
Proof.
  intros (Hy & Hm & Hd). unfold upstreamFormat, isoFormat.
  apply parseNavDate_parts;
    [apply noHyphen_pad2 | apply noHyphen_pad2 | apply noHyphen_pad4]; assumption.
Qed.

(** Calendar order is the order of the ISO strings. *)
Lemma isoFormat_compare (a b : CalendarDate) :
  validDate a -> validDate b -> earlier a b ->
  String.compare (isoFormat a) (isoFormat b) = Lt.
Proof.
  intros Ha Hb Hab.
  destruct (digits_of_valid a Ha) as (A1 & A2 & A3 & A4 & A5 & A6 & A7 & A8).
  destruct (digits_of_valid b Hb) as (B1 & B2 & B3 & B4 & B5 & B6 & B7 & B8).
  unfold isoFormat, pad4, pad2. rewrite !append_cons, !append_nil.
  cbn [String.compare]. rewrite !digit_compare by assumption.
  change (Ascii.compare "-" "-") with Eq. cbv iota.
  unfold earlier, validDate in *.
  repeat match goal with
         | |- context [(?x ?= ?y)%Z] => destruct (Z.compare_spec x y); cbv iota
         end;
    first [reflexivity | exfalso; Z.to_euclidean_division_equations; lia].
Qed.

Lemma earlier_trans (a b c : CalendarDate) : earlier a b -> earlier b c -> earlier a c.
Proof. unfold earlier. lia. Qed.

Lemma descending_all (a : CalendarDate) (ds : list CalendarDate) :
  descending (a :: ds) -> Forall (fun b => earlier b a) ds /\ descending ds.
Proof.
  revert a. induction ds as [|b ds IH]; intros a H; [split; [constructor|exact I]|].
  destruct H as (Hba & Hrest). split; [|exact Hrest].
  constructor; [exact Hba|].
  destruct (IH b Hrest) as (Hall & _).
  eapply List.Forall_impl; [|exact Hall]. intros c Hc. cbv beta in *.
  eapply earlier_trans; eassumption.
Qed.

Lemma insertByDate_last (x : NavRecord) (l : list NavRecord) :
  Forall (fun y => localeCompare (date x) (date y) = Gt) l ->
  insertByDate x l = l ++ [x].
Proof.
  induction 1 as [|y l Hy Hl IH]; [reflexivity|].
  cbn [insertByDate]. rewrite Hy, IH. reflexivity.
Qed.

Lemma chain_snoc {A : Type} (R : A -> A -> Prop) (l : list A) (x : A) :
  chain R l -> Forall (fun y => R y x) l -> chain R (l ++ [x]).
Proof.
  induction l as [|a l IH]; intros Hc Hall; [exact I|].
  inversion Hall as [|? ? Ha Hl]; subst.
  destruct l as [|b l'].
  - cbn. split; [exact Ha|exact I].
  - destruct Hc as (Hab & Hc). change ((a :: b :: l') ++ [x]) with (a :: (b :: l') ++ [x]).
    change ((b :: l') ++ [x]) with (b :: l' ++ [x]) in *.
    split; [exact Hab|]. apply IH; assumption.
Qed.

Lemma sortByDate_ascending (l : list NavRecord) : ascendingIso l -> sortByDate l = l.
Proof.
  induction l as [|x l IH]; intros H; [reflexivity|].
  cbn [sortByDate]. destruct l as [|y l']; [reflexivity|].
  destruct H as (Hxy & Hrest). rewrite (IH Hrest).
  cbn [insertByDate]. unfold localeCompare. rewrite Hxy. reflexivity.
Qed.

(** *** Decimal numerals *)

Lemma digit_isDigit (d : Z) : (0 <= d < 10)%Z -> isDigit (digit d) = true.
Proof.
  intros H. destruct (digit_cases d H) as [->|[->|[->|[->|[->|[->|[->|[->|[->| ->]]]]]]]]];
    reflexivity.
Qed.

Lemma digit_digitValue (d : Z) : (0 <= d < 10)%Z -> digitValue (digit d) = d.
Proof.
  intros H. destruct (digit_cases d H) as [->|[->|[->|[->|[->|[->|[->|[->|[->| ->]]]]]]]]];
    reflexivity.
Qed.

(** [readDigits] reads a run of digits up to the first character that is no
    digit, and finds the number the run denotes. *)
Lemma readDigits_digits (ds : list Z) (rest : string) :
  isDigits ds ->
  match rest with EmptyString => True | String c _ => isDigit c = false end ->
  forall acc count,
  readDigits (digitsText ds ++ rest) acc count
  = ((acc * 10 ^ Z.of_nat (List.length ds) + digitsValue ds)%Z,
     (count + List.length ds)%nat, rest).
Proof.
  intros Hds Hrest. induction Hds as [|d ds Hd Hds IH]; intros acc count.
  - cbn [digitsText List.length digitsValue]. rewrite append_nil.
    replace (acc * 10 ^ Z.of_nat 0 + 0)%Z with acc by (cbn; lia).
    rewrite Nat.add_0_r.
    destruct rest as [|c rest']; [reflexivity|]. cbn [readDigits]. rewrite Hrest. reflexivity.
  - cbn [digitsText]. rewrite append_cons. cbn [readDigits].
    rewrite (digit_isDigit d Hd), (digit_digitValue d Hd), IH.
    cbn [List.length digitsValue]. rewrite Nat2Z.inj_succ, Z.pow_succ_r by lia.
    replace (S count + List.length ds)%nat with (count + S (List.length ds))%nat by lia.
    replace ((10 * acc + d) * 10 ^ Z.of_nat (List.length ds) + digitsValue ds)%Z
      with (acc * (10 * 10 ^ Z.of_nat (List.length ds))
            + (d * 10 ^ Z.of_nat (List.length ds) + digitsValue ds))%Z by lia.
    reflexivity.
Qed.

Lemma append_empty (a : string) : (a ++ EmptyString)%string = a.
Proof. induction a as [|c a IH]; [reflexivity|]. rewrite append_cons, IH. reflexivity. Qed.

(** [parseFloat] finds the number a decimal numeral denotes. *)
Lemma parseFloat_numeral (n : Numeral) :
  validNumeral n -> parseFloat (JStr (numeralText n)) = JNum (numeralValue n).
Proof.
  intros (Hne & Hw & Hf). unfold numeralText, numeralValue.
  destruct n as [whole fraction]. cbn [wholeDigits fractionDigits] in *.
  destruct whole as [|d whole]; [congruence|].
  assert (Hd : (0 <= d < 10)%Z) by (apply Forall_inv in Hw; exact Hw).
  set (text := (digitsText (d :: whole) ++ "." ++ digitsText fraction)%string).
  assert (Hparse : parseUnsigned text
            = Some (inject_Z (digitsValue (d :: whole))
                    + inject_Z (digitsValue fraction)
                      / inject_Z (10 ^ Z.of_nat (List.length fraction)))%Q).
  { unfold parseUnsigned, text.
    rewrite (readDigits_digits (d :: whole) ("." ++ digitsText fraction) Hw) by reflexivity.
    change ("." ++ digitsText fraction)%string with (String "." (digitsText fraction)).
    cbv iota beta.
    rewrite <- (append_empty (digitsText fraction)).
    rewrite (readDigits_digits fraction EmptyString Hf I).
    cbn [List.length Nat.add Nat.eqb]. rewrite !Z.mul_0_l, !Z.add_0_l. reflexivity. }
  assert (Hfirst : parseFloatString text
            = match parseUnsigned text with Some q => JNum q | None => JNaN end).
  { unfold text. cbn [digitsText]. rewrite append_cons.
    destruct (digit_cases d Hd) as [->|[->|[->|[->|[->|[->|[->|[->|[->| ->]]]]]]]]];
      reflexivity. }
  cbn [parseFloat]. rewrite Hfirst, Hparse. reflexivity.
Qed.

(** The normal form of an entry of the upstream array. *)
Lemma normalize_entries (entries : list (CalendarDate * Numeral)) :
  Forall (fun e => validDate (fst e) /\ validNumeral (snd e)) entries ->
  List.map (fun item => mkNavRecord (parseNavDate (item_date item))
                                    (parseFloat (JStr (item_nav item))))
           (upstreamData entries)
  = List.map (fun e => mkNavRecord (isoFormat (fst e)) (JNum (numeralValue (snd e)))) entries.
Proof.
  induction 1 as [|e es (He & Hn) Hes IH]; [reflexivity|].
  cbn [upstreamData List.map item_date item_nav]. fold (upstreamData es).
  rewrite IH, (parseNavDate_upstreamFormat _ He), (parseFloat_numeral _ Hn). reflexivity.
Qed.

Lemma sort_descending_entries (entries : list (CalendarDate * Numeral)) :
  Forall (fun e => validDate (fst e)) entries ->
  descending (List.map fst entries) ->
  sortByDate (List.map (fun e => mkNavRecord (isoFormat (fst e)) (JNum (numeralValue (snd e))))
                       entries)
    = ascendingView entries /\
  ascendingIso (ascendingView entries).
Proof.
  unfold ascendingView.
  induction 1 as [|e es He Hes IH]; intros Hdesc; [split; [reflexivity|exact I]|].
  cbn [List.map] in Hdesc. destruct (descending_all _ _ Hdesc) as (Hall & Hdesc').
  destruct (IH Hdesc') as (IHsort & IHasc).
  set (f := fun e : CalendarDate * Numeral =>
              mkNavRecord (isoFormat (fst e)) (JNum (numeralValue (snd e)))) in *.
  assert (Hlt : Forall (fun y => String.compare (date y) (date (f e)) = Lt)
                       (List.rev (List.map f es))).
  { apply List.Forall_forall. intros y Hy. apply in_rev in Hy. apply in_map_iff in Hy.
    destruct Hy as (e' & <- & He'). cbn [f date].
    apply isoFormat_compare.
    - rewrite List.Forall_forall in Hes. apply Hes. exact He'.
    - exact He.
    - rewrite List.Forall_forall in Hall. apply Hall. apply in_map. exact He'. }
  cbn [List.map sortByDate List.rev]. rewrite IHsort. split.
  - apply insertByDate_last. eapply List.Forall_impl; [|exact Hlt].
    intros y Hy. cbv beta in *. unfold localeCompare.
    rewrite String.compare_antisym, Hy. reflexivity.
  - apply chain_snoc; [exact IHasc|exact Hlt].
Qed.

(** C6: for an upstream response whose [data] array is in (strictly)
    descending date order, with dates formatted [DD-MM-YYYY] and NAVs written
    as decimal numerals (digits, a point, digits), [normalizeSchemeData]
    returns a [navHistory] that is the reversed upstream array with each date
    reparsed to [YYYY-MM-DD] and each NAV the number its numeral denotes; it
    is in strictly ascending ISO-date order, so that sorting it ascending
    leaves it unchanged. *)
Theorem C6_normalizeSchemeData (m : ApiMeta) (entries : list (CalendarDate * Numeral)) :
  Forall (fun e => validDate (fst e) /\ validNumeral (snd e)) entries ->
  descending (List.map fst entries) ->
  exists sd,
    normalizeSchemeData (mkResponse (Some m) (Some (upstreamData entries))) = Returned sd /\
    navHistory sd = ascendingView entries /\
    ascendingIso (navHistory sd) /\
    sortByDate (navHistory sd) = ascendingView entries.
Proof.
  intros Hvalid Hdesc.
  assert (Hdates : Forall (fun e => validDate (fst e)) entries).
  { eapply List.Forall_impl; [|exact Hvalid]. intros e (He & _). exact He. }
  destruct (sort_descending_entries entries Hdates Hdesc) as (Hsort & Hasc).
  eexists. split; [reflexivity|]. cbn [navHistory data].
  rewrite (normalize_entries entries Hvalid), Hsort.
  split; [reflexivity|]. split; [exact Hasc|].
  apply sortByDate_ascending. exact Hasc.
Qed.

Lemma C6_normalizeSchemeData_witness :
  exists sd,
    normalizeSchemeData
      (mkResponse (Some (mkMeta "HDFC Mutual Fund" "Open Ended" "Mid Cap" "118989" "HDFC Mid Cap"))
         (Some (upstreamData [(mkDate 2024 1 3, mkNumeral [1; 2]%Z [5; 0; 0; 0]%Z);
                              (mkDate 2024 1 2, mkNumeral [1; 2]%Z [2; 5; 0; 0]%Z);
                              (mkDate 2023 12 29, mkNumeral [1; 1]%Z [0; 0; 0; 0]%Z)])))
      = Returned sd /\
    navHistory sd = ascendingView [(mkDate 2024 1 3, mkNumeral [1; 2]%Z [5; 0; 0; 0]%Z);
                                   (mkDate 2024 1 2, mkNumeral [1; 2]%Z [2; 5; 0; 0]%Z);
                                   (mkDate 2023 12 29, mkNumeral [1; 1]%Z [0; 0; 0; 0]%Z)] /\
    ascendingIso (navHistory sd) /\
    sortByDate (navHistory sd)
      = ascendingView [(mkDate 2024 1 3, mkNumeral [1; 2]%Z [5; 0; 0; 0]%Z);
                       (mkDate 2024 1 2, mkNumeral [1; 2]%Z [2; 5; 0; 0]%Z);
                       (mkDate 2023 12 29, mkNumeral [1; 1]%Z [0; 0; 0; 0]%Z)].
Proof.
  apply (C6_normalizeSchemeData
           (mkMeta "HDFC Mutual Fund" "Open Ended" "Mid Cap" "118989" "HDFC Mid Cap")
           [(mkDate 2024 1 3, mkNumeral [1; 2]%Z [5; 0; 0; 0]%Z);
            (mkDate 2024 1 2, mkNumeral [1; 2]%Z [2; 5; 0; 0]%Z);
            (mkDate 2023 12 29, mkNumeral [1; 1]%Z [0; 0; 0; 0]%Z)]).
  - repeat constructor; cbn; first [lia | discriminate].
  - unfold descending, earlier. cbn. lia.
Defined.

(** The entries of the witness as the upstream writes them, and the numbers
    they denote. *)
Example numerals_written :
  upstreamData [(mkDate 2024 1 3, mkNumeral [1; 2]%Z [5; 0; 0; 0]%Z);
                (mkDate 2023 12 29, mkNumeral [1; 1]%Z [0; 0; 0; 0]%Z)]
  = [mkItem "03-01-2024" "12.5000"; mkItem "29-12-2023" "11.0000"] /\
  (numeralValue (mkNumeral [1; 2]%Z [5; 0; 0; 0]%Z) == 125 # 10)%Q /\
  (numeralValue (mkNumeral [1; 1]%Z [0; 0; 0; 0]%Z) == 11)%Q.
Proof. split; [reflexivity|]. split; vm_compute; reflexivity. Qed.

(** The normalized history of the witness, evaluated. *)
Example normalize_example :
  normalizeSchemeData
    (mkResponse (Some (mkMeta "HDFC Mutual Fund" "Open Ended" "Mid Cap" "118989" "HDFC Mid Cap"))
       (Some [mkItem "03-01-2024" "12.5"; mkItem "02-01-2024" "12.25"; mkItem "29-12-2023" "11"]))
  = Returned (mkSchemeData
      (mkNormalizedMeta "118989" "HDFC Mid Cap" "HDFC Mutual Fund" "Mid Cap" "Open Ended")
      [mkNavRecord "2023-12-29" (JNum 11);
       mkNavRecord "2024-01-02" (JNum (12 + 25 / 100));
       mkNavRecord "2024-01-03" (JNum (12 + 5 / 10))]).
Proof. vm_compute. reflexivity. Qed.

End MfApiClientFacts.

(** ** Backfill orchestrator *)

Section BackfillFacts.
Import JS MfApiClient Backfill.

(** *** The order of ISO date strings *)

Lemma string_compare_refl (s : string) : String.compare s s = Eq.
Proof.
  induction s as [|c s IH]; [reflexivity|].
  cbn [String.compare]. unfold Ascii.compare. rewrite N.compare_refl. exact IH.
Qed.

Lemma string_le_trans (a : string) :
  forall b c, String.compare a b <> Gt -> String.compare b c <> Gt -> String.compare a c <> Gt.
Proof.
  induction a as [|x a IH]; intros [|y b] [|z c] Hab Hbc; cbn [String.compare] in *;
    try congruence.
  unfold Ascii.compare in *.
  destruct (N.compare_spec (N_of_ascii x) (N_of_ascii y)) as [Exy|Lxy|Gxy];
  destruct (N.compare_spec (N_of_ascii y) (N_of_ascii z)) as [Eyz|Lyz|Gyz];
  destruct (N.compare_spec (N_of_ascii x) (N_of_ascii z)) as [Exz|Lxz|Gxz];
    try congruence; try lia.
  eapply IH; eassumption.
Qed.

Lemma string_le_total (a b : string) : String.compare a b = Gt -> String.compare b a <> Gt.
Proof. intros H. rewrite String.compare_antisym, H. discriminate. Qed.

(** *** [sortByDate] sorts *)

Lemma insertByDate_In (x y : NavRecord) (l : list NavRecord) :
  In y (insertByDate x l) <-> y = x \/ In y l.
Proof.
  induction l as [|z l IH]; cbn [insertByDate].
  - cbn. intuition congruence.
  - destruct (localeCompare (date x) (date z)); cbn [In]; rewrite ?IH; intuition congruence.
Qed.

Lemma sortByDate_In (y : NavRecord) (l : list NavRecord) : In y (sortByDate l) <-> In y l.
Proof.
  induction l as [|x l IH]; [reflexivity|].
  cbn [sortByDate]. rewrite insertByDate_In, IH. cbn [In]. intuition congruence.
Qed.

Lemma insertByDate_sorted (x : NavRecord) (l : list NavRecord) :
  StronglySorted dateLe l -> StronglySorted dateLe (insertByDate x l).
Proof.
  induction 1 as [|z l Hs IH Hz]; cbn [insertByDate].
  - constructor; constructor.
  - unfold localeCompare. destruct (String.compare (date x) (date z)) eqn:E.
    + constructor; [constructor; assumption|].
      constructor; [unfold dateLe; congruence|].
      eapply List.Forall_impl; [|exact Hz]. intros r Hr. cbv beta in *.
      unfold dateLe in *. eapply string_le_trans; [|exact Hr]. congruence.
    + constructor; [constructor; assumption|].
      constructor; [unfold dateLe; congruence|].
      eapply List.Forall_impl; [|exact Hz]. intros r Hr. cbv beta in *.
      unfold dateLe in *. eapply string_le_trans; [|exact Hr]. congruence.
    + constructor; [exact IH|].
      apply List.Forall_forall. intros r Hr. apply insertByDate_In in Hr.
      destruct Hr as [->|Hr].
      * unfold dateLe. apply string_le_total. exact E.
      * rewrite List.Forall_forall in Hz. apply Hz. exact Hr.
Qed.

Lemma sortByDate_sorted (l : list NavRecord) : StronglySorted dateLe (sortByDate l).
Proof.
  induction l as [|x l IH]; [constructor|].
  cbn [sortByDate]. apply insertByDate_sorted. exact IH.
Qed.

Lemma sorted_last_max (l : list NavRecord) :
  StronglySorted dateLe l ->
  forall first r, In r l -> dateLe r (List.last l first).
Proof.
  induction 1 as [|x l Hs IH Hx]; intros first r Hr; [destruct Hr|].
  rewrite last_cons. destruct l as [|y l'].
  - destruct Hr as [<-|[]]. cbn. unfold dateLe. rewrite string_compare_refl. discriminate.
  - destruct Hr as [<-|Hr].
    + rewrite List.Forall_forall in Hx. apply Hx. apply last_In.
    + apply IH. exact Hr.
Qed.

(** *** [backfillScheme] *)

Lemma update_lookup (code ty : string) (u : Updates) (st : State) (row : SyncState) :
  sync_state st !! (code, ty) = Some row ->
  sync_state (update code ty u st) !! (code, ty) = Some (applyUpdates u row).
Proof.
  intros H. unfold update. cbn [sync_state]. rewrite H. apply lookup_insert_eq.
Qed.

Lemma update_lookup_other (code ty : string) (u : Updates) (st : State) (k : string * string) :
  k <> (code, ty) -> sync_state (update code ty u st) !! k = sync_state st !! k.
Proof.
  intros H. unfold update. cbn [sync_state].
  destruct (sync_state st !! (code, ty)); [|reflexivity].
  apply lookup_insert_ne. congruence.
Qed.

Lemma fetchAndStore_sync_state (w : World) (scheme : Scheme) (st : State) :
  sync_state (fst (fetchAndStore w scheme st)) = sync_state st /\
  logs (fst (fetchAndStore w scheme st)) = logs st ++ [GetSchemeData (s_schemeCode scheme)].
Proof.
  unfold fetchAndStore. cbv zeta.
  destruct (getSchemeData w (s_schemeCode scheme)) as [apiData|e]; [|split; reflexivity].
  destruct (normalizeSchemeData apiData) as [sd|e]; [|split; reflexivity].
  destruct (fundWriteFault w (s_schemeCode scheme)) as [e|]; [split; reflexivity|].
  destruct (navHistory sd) as [|r rs]; [split; reflexivity|].
  destruct (navWriteFault w (s_schemeCode scheme)) as [e|]; split; reflexivity.
Qed.

Lemma fetchAndStore_outcome (w : World) (scheme : Scheme) (st : State) :
  match raised w scheme with
  | Some e => snd (fetchAndStore w scheme st) = Thrown e
  | None =>
    exists history, fetchedHistory w scheme = Some history /\
      snd (fetchAndStore w scheme st) = Returned history
  end.
Proof.
  unfold raised, fetchedHistory, fetchAndStore. cbv zeta.
  destruct (getSchemeData w (s_schemeCode scheme)) as [apiData|e]; [|reflexivity].
  destruct (normalizeSchemeData apiData) as [sd|e]; [|reflexivity].
  destruct (fundWriteFault w (s_schemeCode scheme)) as [e|]; [reflexivity|].
  destruct (navHistory sd) as [|r rs] eqn:E; [exists []; split; reflexivity|].
  destruct (navWriteFault w (s_schemeCode scheme)) as [e|]; [reflexivity|].
  exists (r :: rs). split; reflexivity.
Qed.

Lemma fetchedHistory_sorted (w : World) (scheme : Scheme) (history : list NavRecord) :
  fetchedHistory w scheme = Some history -> StronglySorted dateLe history.
Proof.
  unfold fetchedHistory, normalizeSchemeData.
  destruct (getSchemeData w (s_schemeCode scheme)) as [apiData|e]; [|discriminate].
  destruct (meta apiData); [|discriminate].
  intros H. injection H as <-. cbn [navHistory]. apply sortByDate_sorted.
Qed.

Lemma last_is_max (history : list NavRecord) :
  StronglySorted dateLe history ->
  isMaxDate (match history with
             | [] => None
             | first :: _ => Some (date (List.last history first))
             end) history.
Proof.
  intros Hs. destruct history as [|first rest]; [reflexivity|].
  cbn [isMaxDate]. split.
  - apply in_map. apply last_In.
  - intros r Hr. apply (sorted_last_max _ Hs first r Hr).
Qed.

(** C8: when the backfill sync-state row of the scheme exists,
    [backfillScheme] on success leaves it [completed] with
    [last_synced_date] the greatest [nav_date] of the fetched history and
    [total_records] its length; when the fetch, the normalization or a write
    throws, it leaves it [failed] with the message of the exception as
    [error_message]. *)
Theorem C8_backfillScheme (w : World) (scheme : Scheme) (st : State) (row : SyncState) :
  sync_state st !! (s_schemeCode scheme, "backfill"%string) = Some row ->
  let out := backfillScheme w scheme st in
  let row' := sync_state (fst out) !! (s_schemeCode scheme, "backfill"%string) in
  match raised w scheme with
  | None =>
    success (snd out) = true /\
    exists history r',
      fetchedHistory w scheme = Some history /\ row' = Some r' /\
      status r' = Completed /\
      isMaxDate (last_synced_date r') history /\
      total_records r' = Z.of_nat (List.length history)
  | Some message =>
    success (snd out) = false /\ error (snd out) = Some message /\
    exists r', row' = Some r' /\ status r' = Failed /\ error_message r' = Some message
  end.
Proof.
  intros Hrow. cbv zeta. unfold backfillScheme. cbv zeta. unfold updateSyncState.
  set (u1 := mkUpdates (Some InProgress) None None (Some None) (Some (Some (clock w))) None).
  set (st1 := update (s_schemeCode scheme) "backfill" u1
                (logInfo (StartingBackfill (s_schemeCode scheme)) st)).
  assert (H1 : sync_state st1 !! (s_schemeCode scheme, "backfill"%string)
               = Some (applyUpdates u1 row)).
  { apply update_lookup. exact Hrow. }
  pose proof (fetchAndStore_outcome w scheme st1) as Hout.
  destruct (fetchAndStore_sync_state w scheme st1) as (Hsync & _).
  destruct (fetchAndStore w scheme st1) as [st2 res]. cbn [fst snd] in *.
  rewrite <- Hsync in H1.
  destruct (raised w scheme) as [message|].
  - subst res. cbn [fst snd success error logInfo sync_state].
    split; [reflexivity|]. split; [reflexivity|].
    eexists. split; [apply update_lookup; exact H1|].
    split; reflexivity.
  - destruct Hout as (history & Hh & ->). cbn [fst snd success logInfo sync_state].
    split; [reflexivity|].
    exists history. eexists. split; [exact Hh|].
    split; [apply update_lookup; exact H1|].
    cbn [applyUpdates status last_synced_date total_records u_status u_lastSyncedDate
         u_totalRecords].
    split; [reflexivity|]. split; [|reflexivity].
    apply last_is_max. eapply fetchedHistory_sorted. exact Hh.
Qed.

Lemma C8_backfillScheme_witness :
  let w := mkWorld
             (fun _ => Returned (mkResponse
                (Some (mkMeta "HDFC Mutual Fund" "Open Ended" "Mid Cap" "118989" "HDFC Mid Cap"))
                (Some [mkItem "03-01-2024" "12.5"; mkItem "02-01-2024" "12.25"])))
             (fun _ => None) (fun _ => None) "2024-01-04 06:00:00" in
  let scheme := mkScheme "118989" "HDFC Mid Cap" "HDFC" "Mid Cap Direct Growth" in
  let st := mkState ∅ ∅
              {[ ("118989", "backfill")%string :=
                   mkSyncState Failed None 0 (Some "Timeout"%string) None None ]} [] in
  let out := backfillScheme w scheme st in
  let row' := sync_state (fst out) !! ("118989", "backfill")%string in
  success (snd out) = true /\
  exists history r',
    fetchedHistory w scheme = Some history /\ row' = Some r' /\
    status r' = Completed /\
    isMaxDate (last_synced_date r') history /\
    total_records r' = Z.of_nat (List.length history).
Proof.
  cbv zeta.
  apply (C8_backfillScheme
           (mkWorld
             (fun _ => Returned (mkResponse
                (Some (mkMeta "HDFC Mutual Fund" "Open Ended" "Mid Cap" "118989" "HDFC Mid Cap"))
                (Some [mkItem "03-01-2024" "12.5"; mkItem "02-01-2024" "12.25"])))
             (fun _ => None) (fun _ => None) "2024-01-04 06:00:00")
           (mkScheme "118989" "HDFC Mid Cap" "HDFC" "Mid Cap Direct Growth")
           (mkState ∅ ∅
              {[ ("118989", "backfill")%string :=
                   mkSyncState Failed None 0 (Some "Timeout"%string) None None ]} [])
           (mkSyncState Failed None 0 (Some "Timeout"%string) None None)).
  vm_compute. reflexivity.
Defined.

(** The row [backfillScheme] updates exists whenever [backfillAllSchemes]
    calls it: [getSyncState] has created it if need be. *)
Lemma getSyncState_row (scheme : Scheme) (st : State) :
  let out := getSyncState (s_schemeCode scheme) "backfill" (Some scheme) st in
  snd out = sync_state (fst out) !! (s_schemeCode scheme, "backfill"%string) /\
  is_Some (snd out) /\
  logs (fst out) = logs st /\
  (forall k, k <> (s_schemeCode scheme, "backfill"%string) ->
     sync_state (fst out) !! k = sync_state st !! k) /\
  (is_Some (sync_state st !! (s_schemeCode scheme, "backfill"%string)) ->
     sync_state (fst out) = sync_state st) /\
  (sync_state st !! (s_schemeCode scheme, "backfill"%string) = None ->
     exists row, snd out = Some row /\ status row = Pending).
Proof.
  cbv zeta. unfold getSyncState, findBySchemeAndType.
  destruct (sync_state st !! (s_schemeCode scheme, "backfill"%string)) as [row|] eqn:E;
    cbn [fst snd].
  - rewrite E. repeat split; eauto. intros H. discriminate.
  - unfold create, upsertFund. cbn [sync_state logs fst snd].
    rewrite lookup_insert_eq. split; [reflexivity|]. split; [eauto|].
    split; [reflexivity|]. split; [|split].
    + intros k Hk. apply lookup_insert_ne. congruence.
    + intros [x Hx]. discriminate.
    + intros _. eexists. split; reflexivity.
Qed.

Lemma backfillScheme_frame (w : World) (scheme : Scheme) (st : State) :
  let out := backfillScheme w scheme st in
  (forall k, k <> (s_schemeCode scheme, "backfill"%string) ->
     sync_state (fst out) !! k = sync_state st !! k) /\
  processed (logs (fst out)) = processed (logs st) ++ [s_schemeCode scheme] /\
  skippedSchemes (logs (fst out)) = skippedSchemes (logs st) /\
  fetched (logs (fst out)) = fetched (logs st) ++ [s_schemeCode scheme].
Proof.
  cbv zeta. unfold backfillScheme. cbv zeta. unfold updateSyncState.
  set (u1 := mkUpdates _ _ _ _ _ _).
  set (st1 := update (s_schemeCode scheme) "backfill" u1
                (logInfo (StartingBackfill (s_schemeCode scheme)) st)).
  assert (Hl1 : logs st1 = logs st ++ [StartingBackfill (s_schemeCode scheme)]) by reflexivity.
  assert (Hs1 : forall k, k <> (s_schemeCode scheme, "backfill"%string) ->
                  sync_state st1 !! k = sync_state st !! k).
  { intros k Hk. unfold st1. rewrite update_lookup_other by exact Hk. reflexivity. }
  destruct (fetchAndStore_sync_state w scheme st1) as (Hsync & Hlogs).
  destruct (fetchAndStore w scheme st1) as [st2 [history|message]]; cbn [fst snd] in *.
  - split; [|split; [|split]].
    + intros k Hk. cbn [logInfo sync_state].
      rewrite update_lookup_other by exact Hk. rewrite Hsync. apply Hs1. exact Hk.
    + cbn [logInfo logs update]. rewrite Hlogs, Hl1. unfold processed.
      rewrite !flat_map_app. cbn [flat_map]. rewrite !app_nil_r. reflexivity.
    + cbn [logInfo logs update]. rewrite Hlogs, Hl1. unfold skippedSchemes.
      rewrite !flat_map_app. cbn [flat_map]. rewrite !app_nil_r. reflexivity.
    + cbn [logInfo logs update]. rewrite Hlogs, Hl1. unfold fetched.
      rewrite !flat_map_app. cbn [flat_map app]. rewrite !app_nil_r. reflexivity.
  - split; [|split; [|split]].
    + intros k Hk. cbn [logInfo sync_state].
      rewrite update_lookup_other by exact Hk. rewrite Hsync. apply Hs1. exact Hk.
    + cbn [logInfo logs update]. rewrite Hlogs, Hl1. unfold processed.
      rewrite !flat_map_app. cbn [flat_map]. rewrite !app_nil_r. reflexivity.
    + cbn [logInfo logs update]. rewrite Hlogs, Hl1. unfold skippedSchemes.
      rewrite !flat_map_app. cbn [flat_map]. rewrite !app_nil_r. reflexivity.
    + cbn [logInfo logs update]. rewrite Hlogs, Hl1. unfold fetched.
      rewrite !flat_map_app. cbn [flat_map app]. rewrite !app_nil_r. reflexivity.
Qed.

(** [backfillScheme] reports success exactly when nothing throws. *)
Lemma backfillScheme_success (w : World) (scheme : Scheme) (st : State) :
  success (snd (backfillScheme w scheme st)) = negb (raises w scheme).
Proof.
  unfold backfillScheme. cbv zeta.
  set (st1 := updateSyncState _ _ _ _).
  pose proof (fetchAndStore_outcome w scheme st1) as Hout. unfold raises.
  destruct (fetchAndStore w scheme st1) as [st2 res]. cbn [snd] in Hout.
  destruct (raised w scheme) as [message|].
  - subst res. reflexivity.
  - destruct Hout as (history & _ & ->). reflexivity.
Qed.

(** *** [backfillAllSchemes] *)

(** What one iteration of the loop does, by the status the scheme has when
    its turn comes. *)
Lemma backfillOne_spec (w : World) (scheme : Scheme) (st : State) (results : Results) :
  let out := backfillOne w (st, results) scheme in
  (forall k, k <> (s_schemeCode scheme, "backfill"%string) ->
     sync_state (fst out) !! k = sync_state st !! k) /\
  total (snd out) = total results /\
  if isCompleted st scheme
  then
    processed (logs (fst out)) = processed (logs st) /\
    fetched (logs (fst out)) = fetched (logs st) /\
    skippedSchemes (logs (fst out)) = skippedSchemes (logs st) ++ [s_schemeCode scheme] /\
    skipped (snd out) = (skipped results + 1)%Z /\
    completed (snd out) = completed results /\ failed (snd out) = failed results
  else
    processed (logs (fst out)) = processed (logs st) ++ [s_schemeCode scheme] /\
    fetched (logs (fst out)) = fetched (logs st) ++ [s_schemeCode scheme] /\
    skippedSchemes (logs (fst out)) = skippedSchemes (logs st) /\
    skipped (snd out) = skipped results /\
    completed (snd out) = (completed results + (if raises w scheme then 0 else 1))%Z /\
    failed (snd out) = (failed results + (if raises w scheme then 1 else 0))%Z.
Proof.
  cbv zeta. unfold backfillOne.
  destruct (getSyncState_row scheme st) as (Hrow & Hsome & Hlogs & Hframe & Hkeep & Hnew).
  cbv zeta in Hrow, Hsome, Hlogs, Hframe, Hkeep, Hnew.
  destruct (getSyncState (s_schemeCode scheme) "backfill" (Some scheme) st) as [st1 syncState].
  cbn [fst snd] in *.
  destruct syncState as [row|]; [|destruct Hsome as [x Hx]; discriminate].
  assert (Hc : isCompleted st scheme = Status_eqb (status row) Completed).
  { unfold isCompleted.
    destruct (sync_state st !! (s_schemeCode scheme, "backfill"%string)) as [row0|] eqn:E.
    - rewrite Hkeep in Hrow by eauto. rewrite E in Hrow. injection Hrow as ->. reflexivity.
    - destruct (Hnew eq_refl) as (row1 & Hr1 & Hp). injection Hr1 as ->. rewrite Hp. reflexivity. }
  rewrite Hc. destruct (Status_eqb (status row) Completed).
  - cbn [fst snd logInfo sync_state logs total skipped completed failed].
    split; [exact Hframe|]. split; [reflexivity|].
    rewrite Hlogs. unfold processed, skippedSchemes, fetched. rewrite !flat_map_app.
    cbn [flat_map]. rewrite !app_nil_r. repeat split; reflexivity.
  - destruct (backfillScheme_frame w scheme st1) as (Hf & Hp & Hs & Hfe).
    cbv zeta in Hf, Hp, Hs, Hfe.
    pose proof (backfillScheme_success w scheme st1) as Hsucc.
    destruct (backfillScheme w scheme st1) as [st2 result]. cbn [fst snd] in *.
    rewrite Hlogs in Hp, Hs, Hfe.
    rewrite Hsucc. destruct (raises w scheme); cbn [negb fst snd total skipped completed failed].
    + split; [intros k Hk; rewrite Hf by exact Hk; apply Hframe; exact Hk|].
      split; [reflexivity|]. split; [exact Hp|]. split; [exact Hfe|]. split; [exact Hs|].
      split; [reflexivity|]. split; lia.
    + split; [intros k Hk; rewrite Hf by exact Hk; apply Hframe; exact Hk|].
      split; [reflexivity|]. split; [exact Hp|]. split; [exact Hfe|]. split; [exact Hs|].
      split; [reflexivity|]. split; lia.
Qed.

Lemma isCompleted_frame (st st' : State) (scheme : Scheme) :
  sync_state st' !! (s_schemeCode scheme, "backfill"%string)
    = sync_state st !! (s_schemeCode scheme, "backfill"%string) ->
  isCompleted st' scheme = isCompleted st scheme.
Proof. intros H. unfold isCompleted. rewrite H. reflexivity. Qed.

Lemma backfillAll_fold (w : World) (schemes : list Scheme) :
  NoDup (List.map s_schemeCode schemes) ->
  forall st results,
  let out := fold_left (backfillOne w) schemes (st, results) in
  let todo := List.filter (fun s => negb (isCompleted st s)) schemes in
  let done := List.filter (isCompleted st) schemes in
  processed (logs (fst out)) = processed (logs st) ++ List.map s_schemeCode todo /\
  fetched (logs (fst out)) = fetched (logs st) ++ List.map s_schemeCode todo /\
  skippedSchemes (logs (fst out)) = skippedSchemes (logs st) ++ List.map s_schemeCode done /\
  skipped (snd out) = (skipped results + Z.of_nat (List.length done))%Z /\
  completed (snd out)
  = (completed results
     + Z.of_nat (List.length (List.filter (fun s => negb (raises w s)) todo)))%Z /\
  failed (snd out)
  = (failed results + Z.of_nat (List.length (List.filter (raises w) todo)))%Z /\
  total (snd out) = total results.
Proof.
  induction schemes as [|s rest IH]; intros Hnd st results; cbv zeta.
  - cbn [fold_left List.filter List.map List.length fst snd]. rewrite !app_nil_r.
    repeat split; lia.
  - cbn [List.map] in Hnd. apply NoDup_cons in Hnd. destruct Hnd as (Hnotin & Hnd).
    cbn [fold_left].
    destruct (backfillOne_spec w s st results) as (Hframe & Htotal & Hcase).
    cbv zeta in Hframe, Htotal, Hcase.
    destruct (backfillOne w (st, results) s) as [st1 results1]. cbn [fst snd] in *.
    specialize (IH Hnd st1 results1). cbv zeta in IH.
    destruct IH as (I1 & I2 & I3 & I4 & I5 & I6 & I7).
    assert (Hsame : forall s', In s' rest -> isCompleted st1 s' = isCompleted st s').
    { intros s' Hs'. apply isCompleted_frame. apply Hframe.
      intros Heq. injection Heq as Heq. apply Hnotin.
      rewrite <- Heq. apply list_elem_of_In. apply in_map. exact Hs'. }
    assert (Hdone : List.filter (isCompleted st1) rest = List.filter (isCompleted st) rest).
    { apply List.filter_ext_in. exact Hsame. }
    assert (Htodo : List.filter (fun s => negb (isCompleted st1 s)) rest
                    = List.filter (fun s => negb (isCompleted st s)) rest).
    { apply List.filter_ext_in. intros s' Hs'. rewrite (Hsame s' Hs'). reflexivity. }
    rewrite Hdone, Htodo in *. cbn [List.filter].
    destruct (isCompleted st s); cbn [negb List.map List.length List.filter].
    + destruct Hcase as (C1 & C2 & C3 & C4 & C5 & C6).
      rewrite I1, I2, I3, I4, I5, I6, I7, C1, C2, C3, C4, C5, C6, Htotal, <- app_assoc.
      repeat split; try reflexivity; lia.
    + destruct Hcase as (C1 & C2 & C3 & C4 & C5 & C6).
      rewrite I1, I2, I3, I4, I5, I6, I7, C1, C2, C3, C4, C5, C6, Htotal, <- !app_assoc.
      destruct (raises w s); cbn [negb List.length];
        repeat split; try reflexivity; lia.
Qed.

End BackfillFacts.


(** ** Fund ranking *)

Section FundsDaoFacts.
Import JS FundsDao.

Variable LIKE : string -> string -> bool.

Lemma insertRow_perm (p : RankParams) (x : RankRow) (l : list RankRow) :
  Permutation (insertRow p x l) (x :: l).
Proof.
  induction l as [|y l IH]; cbn [insertRow]; [apply Permutation_refl|].
  destruct (inOrder _ _ _); [apply Permutation_refl|].
  eapply Permutation_trans; [apply perm_skip; exact IH|apply perm_swap].
Qed.

Lemma sortRows_perm (p : RankParams) (l : list RankRow) : Permutation (sortRows p l) l.
Proof.
  induction l as [|x l IH]; [apply Permutation_refl|].
  cbn [sortRows]. eapply Permutation_trans; [apply insertRow_perm|].
  apply perm_skip. exact IH.
Qed.

Lemma rowOrder_total (p : RankParams) (a b : RankRow) :
  inOrder (sortOrder (p_sortBy p)) (sortColumn (p_sortBy p) a) (sortColumn (p_sortBy p) b) = false ->
  rowOrder p b a.
Proof.
  unfold rowOrder, inOrder.
  destruct (sortColumn (p_sortBy p) a), (sortColumn (p_sortBy p) b); try discriminate.
  destruct (sortOrder (p_sortBy p)); intros H; apply Z.leb_gt in H; apply Z.leb_le; lia.
Qed.

Lemma rowOrder_trans (p : RankParams) (a b c : RankRow) :
  keyed p b -> rowOrder p a b -> rowOrder p b c -> rowOrder p a c.
Proof.
  unfold keyed, rowOrder, inOrder. intros (y & ->).
  destruct (sortColumn (p_sortBy p) a), (sortColumn (p_sortBy p) c); try reflexivity.
  destruct (sortOrder (p_sortBy p)); rewrite !Z.leb_le; lia.
Qed.

Lemma insertRow_sorted (p : RankParams) (x : RankRow) (l : list RankRow) :
  StronglySorted (rowOrder p) l -> Forall (keyed p) l ->
  StronglySorted (rowOrder p) (insertRow p x l).
Proof.
  induction 1 as [|y l Hs IH Hy]; intros Hk; cbn [insertRow].
  - constructor; constructor.
  - inversion Hk as [|? ? Hky Hkl]; subst.
    destruct (inOrder _ _ _) eqn:E.
    + constructor; [constructor; assumption|].
      constructor; [exact E|].
      eapply List.Forall_impl; [|exact Hy]. intros z Hz. cbv beta in *.
      eapply rowOrder_trans; [exact Hky|exact E|exact Hz].
    + constructor; [apply IH; exact Hkl|].
      apply List.Forall_forall. intros z Hz.
      apply (Permutation_in _ (insertRow_perm p x l)) in Hz.
      destruct Hz as [<-|Hz].
      * apply rowOrder_total. exact E.
      * rewrite List.Forall_forall in Hy. apply Hy. exact Hz.
Qed.

Lemma sortRows_sorted (p : RankParams) (l : list RankRow) :
  Forall (keyed p) l -> StronglySorted (rowOrder p) (sortRows p l).
Proof.
  induction 1 as [|x l Hx Hl IH]; [constructor|].
  cbn [sortRows]. apply insertRow_sorted; [exact IH|].
  apply List.Forall_forall. intros z Hz.
  apply (Permutation_in _ (sortRows_perm p l)) in Hz.
  rewrite List.Forall_forall in Hl. apply Hl. exact Hz.
Qed.

Lemma selected_keyed (p : RankParams) (r : RankRow) : selected LIKE p r = true -> keyed p r.
Proof.
  unfold selected, keyed. intros H. apply andb_true_iff in H. destruct H as (_ & H).
  destruct (sortColumn (p_sortBy p) r) as [x|]; [exists x; reflexivity|discriminate].
Qed.

(** The stable execution is one of the results the query may return. *)
Lemma rankByMetricStable_admissible (p : RankParams) (joined : list RankRow) :
  rankByMetric LIKE p joined (rankByMetricStable LIKE p joined).
Proof.
  exists (sortRows p (List.filter (selected LIKE p) joined)).
  split; [apply sortRows_perm|]. split; [|reflexivity].
  apply sortRows_sorted. apply List.Forall_forall. intros r Hr.
  apply filter_In in Hr. apply selected_keyed. apply Hr.
Qed.

Lemma sorted_nth (p : RankParams) (l : list RankRow) :
  StronglySorted (rowOrder p) l ->
  forall i j a b, (i < j)%nat -> List.nth_error l i = Some a -> List.nth_error l j = Some b ->
  rowOrder p a b.
Proof.
  induction 1 as [|x l Hs IH Hx]; intros i j a b Hij Ha Hb.
  - destruct i; discriminate.
  - destruct j as [|j]; [lia|]. cbn [List.nth_error] in Hb. destruct i as [|i].
    + cbn in Ha. injection Ha as <-. rewrite List.Forall_forall in Hx. apply Hx.
      eapply nth_error_In. exact Hb.
    + cbn [List.nth_error] in Ha. apply (IH i j); [lia|assumption|assumption].
Qed.

Lemma sorted_firstn (p : RankParams) (n : nat) (l : list RankRow) :
  StronglySorted (rowOrder p) l -> StronglySorted (rowOrder p) (List.firstn n l).
Proof.
  intros H. revert n. induction H as [|x l Hs IH Hx]; intros n.
  - rewrite firstn_nil. constructor.
  - destruct n as [|n]; [constructor|]. cbn [List.firstn]. constructor; [apply IH|].
    apply List.Forall_forall. intros z Hz. rewrite List.Forall_forall in Hx. apply Hx.
    eapply firstn_In. exact Hz.
Qed.

(** C9, as stated, fails in its tie-break: the query orders by the sort
    column alone.  For two funds with the same median return both orders are
    results the query may return, so neither the ascending nor the descending
    order of [scheme_code] is kept among ties. *)
Lemma C9_tie_break_counterexample :
  let p := mkRankParams "Mid Cap" "median_return" "1Y" 5 in
  let a := List.nth 0 tiedFunds (mkRankRow "" "" "" "" "" None None None None None None None None None None None) in
  let b := List.nth 1 tiedFunds a in
  sortColumn "median_return" a = sortColumn "median_return" b /\
  rankByMetric likeMatch p tiedFunds [a; b] /\
  rankByMetric likeMatch p tiedFunds [b; a] /\
  ~ tiesBrokenBy (fun x y => String.compare x y = Lt) "median_return" [b; a] /\
  ~ tiesBrokenBy (fun x y => String.compare x y = Gt) "median_return" [a; b].
Proof.
  cbv zeta. cbn [List.nth tiedFunds].
  set (a := mkRankRow "100" _ _ _ _ _ _ _ _ _ _ _ _ _ _ _).
  set (b := mkRankRow "200" _ _ _ _ _ _ _ _ _ _ _ _ _ _ _).
  split; [reflexivity|]. split; [|split; [|split]].
  - exists [a; b]. split; [apply Permutation_refl|]. split; [|reflexivity].
    repeat constructor.
  - exists [b; a]. split; [apply perm_swap|]. split; [|reflexivity].
    repeat constructor.
  - intros H. specialize (H 0%nat b a eq_refl eq_refl eq_refl). discriminate H.
  - intros H. specialize (H 0%nat a b eq_refl eq_refl eq_refl). discriminate H.
Qed.

(** C9 (amended): every result of the ranking query consists of selected
    rows only, at most [limit] of them, in descending order of the sort column
    when sorting by returns ([median_return], [cagr_median], or the
    default) and in ascending order when sorting by [max_drawdown]; there is
    such a result.  The order of funds with equal values of the sort metric
    is not determined by the query. *)
Theorem C9_rankByMetric (p : RankParams) (joined out : list RankRow) :
  rankByMetric LIKE p joined out ->
  (forall r, In r out -> In r joined /\ selected LIKE p r = true) /\
  (List.length out <= p_limit p)%nat /\
  (forall i j a b, (i < j)%nat ->
     List.nth_error out i = Some a -> List.nth_error out j = Some b ->
     exists x y,
       sortColumn (p_sortBy p) a = Some x /\ sortColumn (p_sortBy p) b = Some y /\
       if String.eqb (p_sortBy p) "max_drawdown" then (x <= y)%Z else (y <= x)%Z) /\
  (forall r, sortColumn "median_return" r = rolling_return_median r /\
             sortColumn "max_drawdown" r = max_drawdown r) /\
  rankByMetric LIKE p joined (rankByMetricStable LIKE p joined).
Proof.
  intros (arranged & Hperm & Hsorted & ->).
  assert (Hsel : forall r, In r (List.firstn (p_limit p) arranged) ->
                   In r joined /\ selected LIKE p r = true).
  { intros r Hr. apply firstn_In in Hr. apply (Permutation_in _ Hperm) in Hr.
    apply filter_In in Hr. exact Hr. }
  split; [exact Hsel|]. split; [apply firstn_le_length|]. split; [|split].
  - intros i j a b Hij Ha Hb.
    pose proof (sorted_nth p _ (sorted_firstn p (p_limit p) _ Hsorted) i j a b Hij Ha Hb) as Hord.
    destruct (selected_keyed p a (proj2 (Hsel a (nth_error_In _ _ Ha)))) as (x & Hx).
    destruct (selected_keyed p b (proj2 (Hsel b (nth_error_In _ _ Hb)))) as (y & Hy).
    exists x, y. split; [exact Hx|]. split; [exact Hy|].
    unfold rowOrder, inOrder, sortOrder in Hord. rewrite Hx, Hy in Hord.
    destruct (String.eqb (p_sortBy p) "max_drawdown"); apply Z.leb_le; exact Hord.
  - intros r. split; reflexivity.
  - apply rankByMetricStable_admissible.
Qed.

End FundsDaoFacts.

Lemma C9_rankByMetric_witness :
  let p := FundsDao.mkRankParams "Mid Cap" "max_drawdown" "1Y" 5 in
  let out := FundsDao.rankByMetricStable FundsDao.likeMatch p FundsDao.tiedFunds in
  (forall r, In r out ->
     In r FundsDao.tiedFunds /\ FundsDao.selected FundsDao.likeMatch p r = true) /\
  (List.length out <= 5)%nat /\
  (forall i j a b, (i < j)%nat ->
     List.nth_error out i = Some a -> List.nth_error out j = Some b ->
     exists x y,
       FundsDao.sortColumn "max_drawdown" a = Some x /\
       FundsDao.sortColumn "max_drawdown" b = Some y /\ (x <= y)%Z) /\
  (forall r, FundsDao.sortColumn "median_return" r = FundsDao.rolling_return_median r /\
             FundsDao.sortColumn "max_drawdown" r = FundsDao.max_drawdown r) /\
  FundsDao.rankByMetric FundsDao.likeMatch p FundsDao.tiedFunds
    (FundsDao.rankByMetricStable FundsDao.likeMatch p FundsDao.tiedFunds).
Proof.
  apply (C9_rankByMetric FundsDao.likeMatch
           (FundsDao.mkRankParams "Mid Cap" "max_drawdown" "1Y" 5)
           FundsDao.tiedFunds
           (FundsDao.rankByMetricStable FundsDao.likeMatch
              (FundsDao.mkRankParams "Mid Cap" "max_drawdown" "1Y" 5) FundsDao.tiedFunds)).
  exists FundsDao.tiedFunds. split; [|split].
  - vm_compute. apply Permutation_refl.
  - unfold FundsDao.tiedFunds. repeat constructor.
  - vm_compute. reflexivity.
Defined.

(** ** Read API: percentages *)

Section FundsRoutesFacts.
Import JS FundsDao FundsRoutes.

Lemma formatPercent_null (v : jsval) : formatPercent v = JNull <-> truthy v = false.
Proof.
  unfold formatPercent. destruct (truthy v); split; try reflexivity; try discriminate.
  destruct (parseFloat v); discriminate.
Qed.

Lemma append_not_empty (a b : string) : b <> EmptyString -> (a ++ b)%string <> EmptyString.
Proof. destruct a; [intros H; exact H|discriminate]. Qed.

Lemma renderDecimal4_not_empty (n : decimal4) : String.eqb (renderDecimal4 n) "" = false.
Proof.
  apply String.eqb_neq. unfold renderDecimal4. repeat apply append_not_empty.
  unfold pad4. discriminate.
Qed.

(** C10, as stated, fails for values delivered as strings: the pool is
    created without [decimalNumbers], so a stored [max_drawdown] of 0 reaches
    the route as the string ["0.0000"], which is truthy; the response carries
    the number 0, not [null]. *)
Lemma C10_zero_delivered_as_string_counterexample :
  let v := deliverDecimal pool_decimalNumbers (Some 0%Z) in
  let row := mkAnalyticsRow v v v v v v v v v in
  v = JStr "0.0000" /\
  (decimalValue 0%Z == 0)%Q /\
  same (parseFloat v) (JNum 0) /\
  resp_max_drawdown (analyticsResponse row) <> JNull /\
  same (resp_max_drawdown (analyticsResponse row)) (JNum 0) /\
  same (rolling_returns_median (analyticsResponse row)) (JNum 0).
Proof.
  cbv zeta. split; [reflexivity|]. split; [reflexivity|]. split; [vm_compute; reflexivity|].
  split; [vm_compute; discriminate|]. split; vm_compute; reflexivity.
Qed.

(** C10 (amended): every percentage of the analytics and ranking responses
    is the row field passed through the truthiness test, and is [null]
    exactly when the field is falsy: [null], the number 0, [NaN] or the empty
    string.  A stored 0 is therefore returned as [null] when the driver
    delivers numbers, but as the number 0 when the driver delivers [DECIMAL]
    columns as strings, as the pool is configured: the string ["0.0000"] is
    truthy. *)
Theorem C10_formatPercent (v : jsval) (analytics : AnalyticsRow) (ranked : list RankedRow) :
  (formatPercent v = JNull <-> truthy v = false) /\
  (forall q, (q == 0)%Q -> formatPercent (JNum q) = JNull) /\
  (forall n, formatPercent (deliverDecimal true (Some n)) = JNull <-> n = 0%Z) /\
  (forall n, formatPercent (deliverDecimal false (Some n)) <> JNull) /\
  same (formatPercent (deliverDecimal pool_decimalNumbers (Some 0%Z))) (JNum 0) /\
  analyticsResponse analytics =
    mkAnalyticsResponse
      (formatPercent (rolling_return_min analytics))
      (formatPercent (rolling_return_max analytics))
      (formatPercent (rolling_return_median analytics))
      (formatPercent (rolling_return_p25 analytics))
      (formatPercent (rolling_return_p75 analytics))
      (formatPercent (max_drawdown analytics))
      (formatPercent (cagr_min analytics))
      (formatPercent (cagr_max analytics))
      (formatPercent (cagr_median analytics)) /\
  List.map median_return (formattedFunds ranked)
    = List.map (fun r => formatPercent (rr_rolling_return_median r)) ranked /\
  List.map ff_max_drawdown (formattedFunds ranked)
    = List.map (fun r => formatPercent (rr_max_drawdown r)) ranked.
Proof.
  split; [apply formatPercent_null|]. split; [|split; [|split; [|split; [|split]]]].
  - intros q Hq. apply formatPercent_null. cbn [truthy].
    apply Qeq_bool_iff in Hq. rewrite Hq. reflexivity.
  - intros n. rewrite formatPercent_null. cbn [deliverDecimal truthy].
    rewrite negb_false_iff, Qeq_bool_iff. unfold decimalValue. split.
    + intros H. 
      assert (H' : (inject_Z n == 0)%Q).
      { rewrite <- (Qmult_0_l 10000), <- H. field. }
      unfold Qeq in H'. cbn in H'. lia.
    + intros ->. reflexivity.
  - intros n H. apply formatPercent_null in H. cbn [deliverDecimal truthy] in H.
    rewrite renderDecimal4_not_empty in H. discriminate.
  - vm_compute. reflexivity.
  - reflexivity.
  - unfold formattedFunds. generalize 0%Z.
    induction ranked as [|r rest IH]; intros i; [split; reflexivity|].
    cbn [formattedFundsFrom List.map median_return ff_max_drawdown].
    destruct (IH (i + 1)%Z) as (IH1 & IH2). rewrite IH1, IH2. split; reflexivity.
Qed.

End FundsRoutesFacts.

(** ** Rate limiter: waits, faults, reset *)

Section RateLimiterStatusFacts.
Import RateLimiter RateLimiterStatus.
Local Open Scope Q_scope.

Lemma keyPrefix_bucketKey backend name :
  (keyPrefix backend ++ name)%string = bucketKey backend name.
Proof.
  unfold keyPrefix, bucketKey. destruct (isUpstashRedis backend); [|reflexivity].
  unfold redisKeyPrefix, KEY_PREFIX. vm_compute. reflexivity.
Qed.










(** A request denied by the [per_minute] bucket alone still costs the
    [per_second] bucket a token. *)
Example denied_request_costs_a_token :
  let store : gmap string Entry :=
    {[ bucketKey Standard "per_minute" := mkEntry (mkBucket 0 0) (Some 7200000%Z) ]} in
  let out := acquireAt Standard defaultRateLimiting 1 store in
  acq_allowed (snd out) = false /\
  HGETALL 1 (bucketKey Standard "per_second") (fst out) = Some (mkBucket (2 - 1) 1).
Proof. cbv zeta. split; vm_compute; reflexivity. Qed.

Lemma checkBucket_fault d name cfg c store f :
  fault c = Some f ->
  snd (checkBucket (Upstash d) name cfg c store) = mkResult true 0 0 /\
  (f <> FaultExpire -> fst (checkBucket (Upstash d) name cfg c store) = store).
Proof.
  intros Hf. unfold checkBucket, checkBucketUpstash. cbn [isUpstashRedis]. rewrite Hf.
  destruct f.
  - split; [reflexivity|]. intros _. reflexivity.
  - destruct (Qle_bool 1 _); cbn [fst snd]; (split; [reflexivity|]); intros _; reflexivity.
  - destruct (Qle_bool 1 _); cbn [fst snd]; (split; [reflexivity|]); intros H; congruence.
Qed.

(** X3: the Upstash path fails open.  When the store call of each of the
    three bucket checks throws, [acquireToken] allows the request with
    [waitTimeMs = 0], each bucket state being
    [{allowed: true, tokensRemaining: 0, waitTimeMs: 0}]; and when no call gets
    as far as [expire], the store is left as it was. *)
Theorem X3_fail_open d rl c1 c2 c3 store f1 f2 f3 :
  fault c1 = Some f1 -> fault c2 = Some f2 -> fault c3 = Some f3 ->
  let out := acquireToken (Upstash d) rl c1 c2 c3 store in
  acq_allowed (snd out) = true /\ acq_waitTimeMs (snd out) = 0%Z /\
  (forall name, In name bucketNames ->
     bucketStates (snd out) !! name = Some (mkResult true 0 0)) /\
  (f1 <> FaultExpire -> f2 <> FaultExpire -> f3 <> FaultExpire -> fst out = store).
Proof.
  intros H1 H2 H3. cbv zeta. rewrite acquireToken_results. cbv zeta.
  cbn [fst snd acq_allowed acq_waitTimeMs bucketStates].
  destruct (checkBucket_fault d "per_second" (perSecond rl) c1 store f1 H1) as [R1 S1].
  set (o1 := checkBucket (Upstash d) "per_second" (perSecond rl) c1 store) in *.
  destruct (checkBucket_fault d "per_minute" (perMinute rl) c2 (fst o1) f2 H2) as [R2 S2].
  set (o2 := checkBucket (Upstash d) "per_minute" (perMinute rl) c2 (fst o1)) in *.
  destruct (checkBucket_fault d "per_hour" (perHour rl) c3 (fst o2) f3 H3) as [R3 S3].
  set (o3 := checkBucket (Upstash d) "per_hour" (perHour rl) c3 (fst o2)) in *.
  rewrite R1, R2, R3. unfold foldWait. cbn [allowed andb].
  split; [reflexivity|]. split; [reflexivity|]. split.
  - intros name [<-|[<-|[<-|[]]]].
    + rewrite lookup_insert_ne by discriminate. rewrite lookup_insert_ne by discriminate.
      apply lookup_insert_eq.
    + rewrite lookup_insert_ne by discriminate. apply lookup_insert_eq.
    + apply lookup_insert_eq.
  - intros N1 N2 N3. rewrite (S3 N3), (S2 N2), (S1 N1). reflexivity.
Qed.

Lemma X3_fail_open_witness :
  let store : gmap string Entry :=
    {[ bucketKey (Upstash false) "per_second" := mkEntry (mkBucket 0 0) (Some 7200000%Z) ]} in
  let out := acquireToken (Upstash false) defaultRateLimiting
               (mkCall 5 (Some FaultHgetall)) (mkCall 6 (Some FaultHset))
               (mkCall 7 (Some FaultHgetall)) store in
  acq_allowed (snd out) = true /\ acq_waitTimeMs (snd out) = 0%Z /\
  (forall name, In name bucketNames ->
     bucketStates (snd out) !! name = Some (mkResult true 0 0)) /\
  (FaultHgetall <> FaultExpire -> FaultHset <> FaultExpire -> FaultHgetall <> FaultExpire ->
   fst out = store).
Proof.
  apply (X3_fail_open false defaultRateLimiting
           (mkCall 5 (Some FaultHgetall)) (mkCall 6 (Some FaultHset))
           (mkCall 7 (Some FaultHgetall))
           {[ bucketKey (Upstash false) "per_second" := mkEntry (mkBucket 0 0) (Some 7200000%Z) ]}
           FaultHgetall FaultHset FaultHgetall); reflexivity.
Defined.

Lemma checkBucket_wait_positive backend name cfg c store :
  (0 < refillRate cfg)%Z -> (0 < intervalMs cfg)%Z ->
  allowed (snd (checkBucket backend name cfg c store)) = false ->
  (1 <= waitTimeMs (snd (checkBucket backend name cfg c store)))%Z.
Proof.
  intros HR HI.
  assert (Hden : forall b : Bucket, Qle_bool 1 (tokens b) = false ->
            (1 <= waitFor cfg (1 - tokens b))%Z).
  { intros b E. unfold waitFor.
    assert (Hlt : tokens b < 1).
    { apply Qnot_le_lt. intros H. apply Qle_bool_iff in H. congruence. }
    pose proof (inject_Z_pos _ HR) as HR'. pose proof (inject_Z_pos _ HI) as HI'.
    assert (Hx : 0 < (1 - tokens b) / inject_Z (refillRate cfg) * inject_Z (intervalMs cfg)).
    { apply Qmult_lt_0_compat; [|assumption]. apply Qlt_shift_div_l; [assumption|lra]. }
    pose proof (Qle_ceiling ((1 - tokens b) / inject_Z (refillRate cfg) * inject_Z (intervalMs cfg))) as Hc.
    assert (Hz : inject_Z 0 < inject_Z (Qceiling
              ((1 - tokens b) / inject_Z (refillRate cfg) * inject_Z (intervalMs cfg)))).
    { change (inject_Z 0) with 0. lra. }
    rewrite <- Zlt_Qlt in Hz. lia. }
  unfold checkBucket.
  destruct backend as [|d]; cbn [isUpstashRedis].
  - unfold checkBucketStandard, TOKEN_BUCKET_LUA, bucketStep.
    set (b := refill cfg (now c) (HGETALL _ _ _)). clearbody b. cbv zeta.
    destruct (Qle_bool 1 (tokens b)) eqn:E; cbn [fst snd allowed waitTimeMs]; [discriminate|].
    intros _. apply Hden. assumption.
  - unfold checkBucketUpstash.
    set (b := refillFrom cfg (now c) (upstashStart d cfg (now c) (HGETALL _ _ _))).
    clearbody b.
    destruct (fault c) as [[ | | ]|]; cbn [fst snd allowed waitTimeMs]; try discriminate;
      destruct (Qle_bool 1 (tokens b)) eqn:E; cbn [fst snd allowed waitTimeMs];
      try discriminate.
    intros _. apply Hden. assumption.
Qed.

(** X4: the wait [acquireToken] reports has the sign of its answer.  For
    every backend and whatever the store calls do, with positive refill rates
    and intervals: an allowed request reports [waitTimeMs = 0] and a denied one
    a wait of at least one millisecond. *)
Theorem X4_wait_sign backend rl c1 c2 c3 store :
  positiveRates rl ->
  let res := snd (acquireToken backend rl c1 c2 c3 store) in
  (acq_allowed res = true -> acq_waitTimeMs res = 0%Z) /\
  (acq_allowed res = false -> (1 <= acq_waitTimeMs res)%Z).
Proof.
  intros ((HR1 & HI1) & (HR2 & HI2) & (HR3 & HI3)). cbv zeta.
  rewrite acquireToken_results. cbv zeta. cbn [snd acq_allowed acq_waitTimeMs].
  set (o1 := checkBucket backend "per_second" (perSecond rl) c1 store).
  set (o2 := checkBucket backend "per_minute" (perMinute rl) c2 (fst o1)).
  set (o3 := checkBucket backend "per_hour" (perHour rl) c3 (fst o2)).
  pose proof (checkBucket_wait_positive backend "per_second" (perSecond rl) c1 store HR1 HI1) as P1.
  pose proof (checkBucket_wait_positive backend "per_minute" (perMinute rl) c2 (fst o1) HR2 HI2) as P2.
  pose proof (checkBucket_wait_positive backend "per_hour" (perHour rl) c3 (fst o2) HR3 HI3) as P3.
  fold o1 in P1. fold o2 in P2. fold o3 in P3.
  unfold foldWait.
  destruct (allowed (snd o1)), (allowed (snd o2)), (allowed (snd o3)); cbn [andb];
    (split; [intros H; first [reflexivity | discriminate]
            | intros H; first [discriminate | lia]]).
Qed.

Lemma X4_wait_sign_witness :
  let res := snd (acquireToken Standard defaultRateLimiting (at_time 3) (at_time 4) (at_time 5)
                    {[ bucketKey Standard "per_hour" := mkEntry (mkBucket 0 0) None ]}) in
  (acq_allowed res = true -> acq_waitTimeMs res = 0%Z) /\
  (acq_allowed res = false -> (1 <= acq_waitTimeMs res)%Z).
Proof.
  apply (X4_wait_sign Standard defaultRateLimiting (at_time 3) (at_time 4) (at_time 5)
           {[ bucketKey Standard "per_hour" := mkEntry (mkBucket 0 0) None ]}).
  unfold positiveRates. cbn. lia.
Defined.

Lemma tokensToAdd_0 cfg : tokensToAdd cfg 0 = 0%Z.
Proof. rewrite tokensToAdd_floor, (Qfloor_comp _ _ (due_0 cfg)). reflexivity. Qed.

(** The first check of a bucket whose key is gone. *)
Lemma checkBucket_absent backend name cfg t store :
  (1 <= capacity cfg)%Z ->
  HGETALL t (bucketKey backend name) store = None ->
  fst (checkBucket backend name cfg (at_time t) store)
  = <[bucketKey backend name
      := mkEntry (mkBucket (inject_Z (capacity cfg) - 1) t)
                 (Some (t + TTL_SECONDS * 1000)%Z)]> store /\
  allowed (snd (checkBucket backend name cfg (at_time t) store)) = true.
Proof.
  intros Hc Hnone.
  assert (E : Qle_bool 1 (inject_Z (capacity cfg)) = true).
  { apply Qle_bool_iff. change 1 with (inject_Z 1). rewrite <- Zle_Qle. exact Hc. }
  unfold checkBucket, bucketKey in *.
  destruct backend as [|d]; cbn [isUpstashRedis] in *.
  - unfold checkBucketStandard, TOKEN_BUCKET_LUA. cbn [at_time now].
    rewrite Hnone, script_absent, E, EXPIRE_HSET.
    cbn [fst snd allowed]. split; reflexivity.
  - unfold checkBucketUpstash. cbn [at_time now fault]. rewrite Hnone.
    unfold upstashStart, refillFrom. cbn [tokens last_refill].
    rewrite Z.sub_diag, tokensToAdd_0. cbn [Z.ltb Z.compare tokens last_refill].
    rewrite E, EXPIRE_HSET. cbn [fst snd allowed]. split; reflexivity.
Qed.

Lemma resetBuckets_lookup backend store key :
  resetBuckets backend store !! key =
  if bool_decide (key = bucketKey backend "per_second" \/
                  key = bucketKey backend "per_minute" \/
                  key = bucketKey backend "per_hour")
  then None else store !! key.
Proof.
  unfold resetBuckets, bucketNames, DEL. cbn [fold_left].
  rewrite !keyPrefix_bucketKey.
  case_bool_decide as H.
  - destruct H as [-> | [-> | ->]].
    + destruct (bucketKey_distinct backend) as (A & B & C).
      rewrite lookup_delete_ne by congruence. rewrite lookup_delete_ne by congruence.
      apply lookup_delete_eq.
    + destruct (bucketKey_distinct backend) as (A & B & C).
      rewrite lookup_delete_ne by congruence. apply lookup_delete_eq.
    + apply lookup_delete_eq.
  - rewrite !lookup_delete_ne by (intros E; apply H; subst; tauto). reflexivity.
Qed.

(** X5: [resetBuckets] forgets the three buckets and nothing else.  After it,
    [getStatus] reports no tokens and no refill time for any bucket, every
    other key of the store is as before, and the next fault-free
    [acquireToken] (capacities at least 1) is allowed and leaves
    [capacity - 1] tokens in each bucket, under a key that lives for the
    next two hours, whatever the buckets held before the reset. *)
Theorem X5_reset_then_acquire backend rl t store :
  (1 <= capacity (perSecond rl))%Z -> (1 <= capacity (perMinute rl))%Z ->
  (1 <= capacity (perHour rl))%Z ->
  let store0 := resetBuckets backend store in
  let out := acquireAt backend rl t store0 in
  let ttl := Some (t + TTL_SECONDS * 1000)%Z in
  (forall name t', In name bucketNames ->
     status_buckets (getStatus backend rl t' store0) !! name = Some (mkPeek None None)) /\
  (forall key, (forall name, In name bucketNames -> key <> bucketKey backend name) ->
     store0 !! key = store !! key) /\
  acq_allowed (snd out) = true /\
  fst out !! bucketKey backend "per_second"
    = Some (mkEntry (mkBucket (inject_Z (capacity (perSecond rl)) - 1) t) ttl) /\
  fst out !! bucketKey backend "per_minute"
    = Some (mkEntry (mkBucket (inject_Z (capacity (perMinute rl)) - 1) t) ttl) /\
  fst out !! bucketKey backend "per_hour"
    = Some (mkEntry (mkBucket (inject_Z (capacity (perHour rl)) - 1) t) ttl).
Proof.
  intros C1 C2 C3. cbv zeta.
  destruct (bucketKey_distinct backend) as (Hsm & Hsh & Hmh).
  assert (N1 : resetBuckets backend store !! bucketKey backend "per_second" = None).
  { rewrite resetBuckets_lookup. rewrite bool_decide_eq_true_2 by tauto. reflexivity. }
  assert (N2 : resetBuckets backend store !! bucketKey backend "per_minute" = None).
  { rewrite resetBuckets_lookup. rewrite bool_decide_eq_true_2 by tauto. reflexivity. }
  assert (N3 : resetBuckets backend store !! bucketKey backend "per_hour" = None).
  { rewrite resetBuckets_lookup. rewrite bool_decide_eq_true_2 by tauto. reflexivity. }
  assert (G : forall t' key s, s !! key = None -> HGETALL t' key s = None).
  { intros t' key s H. unfold HGETALL. rewrite H. reflexivity. }
  split; [|split].
  - intros name t' Hn. unfold getStatus, bucketNames. cbn [fold_left status_buckets].
    assert (P : forall n, In n bucketNames ->
              peekBucket backend n t' (resetBuckets backend store) = mkPeek None None).
    { intros n Hin. unfold peekBucket. rewrite keyPrefix_bucketKey.
      destruct Hin as [<-|[<-|[<-|[]]]];
        [rewrite (G _ _ _ N1) | rewrite (G _ _ _ N2) | rewrite (G _ _ _ N3)]; reflexivity. }
    destruct Hn as [<-|[<-|[<-|[]]]].
    + rewrite lookup_insert_ne by discriminate. rewrite lookup_insert_ne by discriminate.
      rewrite lookup_insert_eq. f_equal. apply P. cbn. tauto.
    + rewrite lookup_insert_ne by discriminate.
      rewrite lookup_insert_eq. f_equal. apply P. cbn. tauto.
    + rewrite lookup_insert_eq. f_equal. apply P. cbn. tauto.
  - intros key Hk. rewrite resetBuckets_lookup. rewrite bool_decide_eq_false_2; [reflexivity|].
    intros [E|[E|E]]; eapply Hk; try exact E; cbn; tauto.
  - unfold acquireAt. rewrite acquireToken_results. cbv zeta.
    cbn [fst snd acq_allowed].
    set (s0 := resetBuckets backend store) in *.
    destruct (checkBucket_absent backend "per_second" (perSecond rl) t s0 C1 (G _ _ _ N1))
      as [S1 A1].
    set (o1 := checkBucket backend "per_second" (perSecond rl) (at_time t) s0) in *.
    assert (N2' : fst o1 !! bucketKey backend "per_minute" = None).
    { rewrite S1, lookup_insert_ne by assumption. exact N2. }
    destruct (checkBucket_absent backend "per_minute" (perMinute rl) t (fst o1) C2 (G _ _ _ N2'))
      as [S2 A2].
    set (o2 := checkBucket backend "per_minute" (perMinute rl) (at_time t) (fst o1)) in *.
    assert (N3' : fst o2 !! bucketKey backend "per_hour" = None).
    { rewrite S2, lookup_insert_ne by assumption. rewrite S1, lookup_insert_ne by assumption.
      exact N3. }
    destruct (checkBucket_absent backend "per_hour" (perHour rl) t (fst o2) C3 (G _ _ _ N3'))
      as [S3 A3].
    set (o3 := checkBucket backend "per_hour" (perHour rl) (at_time t) (fst o2)) in *.
    rewrite A1, A2, A3. split; [reflexivity|].
    split; [|split].
    + rewrite S3, lookup_insert_ne by congruence. rewrite S2, lookup_insert_ne by congruence.
      rewrite S1. apply lookup_insert_eq.
    + rewrite S3, lookup_insert_ne by congruence. rewrite S2. apply lookup_insert_eq.
    + rewrite S3. apply lookup_insert_eq.
Qed.

Lemma X5_reset_then_acquire_witness :
  let store : gmap string Entry :=
    {[ bucketKey (Upstash true) "per_second" := mkEntry (mkBucket 0 990) (Some 7200990%Z) ]} in
  let store0 := resetBuckets (Upstash true) store in
  let out := acquireAt (Upstash true) defaultRateLimiting 1000 store0 in
  let ttl := Some (1000 + TTL_SECONDS * 1000)%Z in
  (forall name t', In name bucketNames ->
     status_buckets (getStatus (Upstash true) defaultRateLimiting t' store0) !! name
     = Some (mkPeek None None)) /\
  (forall key, (forall name, In name bucketNames -> key <> bucketKey (Upstash true) name) ->
     store0 !! key = store !! key) /\
  acq_allowed (snd out) = true /\
  fst out !! bucketKey (Upstash true) "per_second"
    = Some (mkEntry (mkBucket (inject_Z 2 - 1) 1000) ttl) /\
  fst out !! bucketKey (Upstash true) "per_minute"
    = Some (mkEntry (mkBucket (inject_Z 50 - 1) 1000) ttl) /\
  fst out !! bucketKey (Upstash true) "per_hour"
    = Some (mkEntry (mkBucket (inject_Z 300 - 1) 1000) ttl).
Proof.
  apply (X5_reset_then_acquire (Upstash true) defaultRateLimiting 1000
           {[ bucketKey (Upstash true) "per_second"
              := mkEntry (mkBucket 0 990) (Some 7200990%Z) ]}); cbn; lia.
Defined.

End RateLimiterStatusFacts.

(** ** Analytics: order statistics and the batch computation *)

Section AnalyticsBatchFacts.
Import JS MfApiClient Analytics AnalyticsBatch.
Local Open Scope Q_scope.





(** *** Percentiles of a sorted sample *)

(** The value of [calculatePercentile] on a non-empty sample. *)
Lemma percentile_value (a : list Q) (p : Q) :
  a <> [] -> 0 <= p -> p <= 100 ->
  let i := (p / 100) * inject_Z (Z.of_nat (List.length a) - 1) in
  let frac := i - inject_Z (Qfloor i) in
  exists lo hi v,
    JS.index a (Qfloor i) = JNum lo /\ JS.index a (Qceiling i) = JNum hi /\
    calculatePercentile a p = JNum v /\ v == lo * (1 - frac) + hi * frac.
Proof.
  intros Hne Hp0 Hp1 i frac.
  assert (Hn : (1 <= Z.of_nat (List.length a))%Z).
  { destruct a; [congruence|]. cbn [List.length]. lia. }
  destruct (percentile_index_bounds _ p Hn Hp0 Hp1) as (Hlo & Hmid & Hhi).
  fold i in Hlo, Hmid, Hhi.
  destruct (index_in_range a (Qfloor i)) as (lo & Elo); [lia|].
  destruct (index_in_range a (Qceiling i)) as (hi & Ehi); [lia|].
  exists lo, hi.
  destruct a as [|x [|y rest]]; [congruence| |].
  - assert (Hi : i == 0).
    { unfold i. replace (Z.of_nat (List.length [x]) - 1)%Z with 0%Z by reflexivity.
      change (inject_Z 0) with 0. apply Qmult_0_r. }
    assert (Hf : Qfloor i = 0%Z) by (rewrite (Qfloor_comp _ _ Hi); reflexivity).
    assert (Hc : Qceiling i = 0%Z) by (rewrite (Qceiling_comp _ _ Hi); reflexivity).
    exists x. split; [exact Elo|]. split; [exact Ehi|]. split; [reflexivity|].
    rewrite Hf in Elo. rewrite Hc in Ehi. cbn in Elo, Ehi.
    injection Elo as <-. injection Ehi as <-. ring.
  - remember (x :: y :: rest) as arr eqn:Harr.
    assert (Hcalc : calculatePercentile arr p =
              if (Qfloor i =? Qceiling i)%Z then JS.index arr (Qfloor i)
              else match JS.index arr (Qfloor i), JS.index arr (Qceiling i) with
                   | JNum lo, JNum hi => JNum (lo * (1 - frac) + hi * frac)
                   | _, _ => JNaN
                   end).
    { subst arr. reflexivity. }
    rewrite Hcalc, Elo, Ehi.
    destruct (Z.eqb_spec (Qfloor i) (Qceiling i)) as [Heq|Hneq].
    + exists lo. split; [reflexivity|]. split; [reflexivity|]. split; [reflexivity|].
      assert (Hfrac : frac == 0).
      { unfold frac. pose proof (Qfloor_le i) as H1. pose proof (Qle_ceiling i) as H2.
        rewrite <- Heq in H2. lra. }
      rewrite Heq in Elo. rewrite Elo in Ehi. injection Ehi as <-.
      rewrite Hfrac. ring.
    + eexists. split; [reflexivity|]. split; [reflexivity|]. split; reflexivity.
Qed.

Lemma between (lo hi f : Q) :
  lo <= hi -> 0 <= f -> f <= 1 ->
  lo <= lo * (1 - f) + hi * f /\ lo * (1 - f) + hi * f <= hi.
Proof.
  intros Hlh Hf0 Hf1.
  assert (H1 : 0 <= (hi - lo) * f) by (apply Qmult_le_0_compat; lra).
  assert (H2 : 0 <= (hi - lo) * (1 - f)) by (apply Qmult_le_0_compat; lra).
  split.
  - apply Qle_trans with (lo + (hi - lo) * f); [lra|]. apply Qle_lteq. right. ring.
  - apply Qle_trans with (hi - (hi - lo) * (1 - f)); [|lra]. apply Qle_lteq. right. ring.
Qed.






(** *** The ascending sort *)

Lemma Qle_bool_false (x y : Q) : Qle_bool x y = false -> y < x.
Proof. intros E. apply Qnot_le_lt. intros H. apply Qle_bool_iff in H. congruence. Qed.



Lemma insertNum_length (x : Q) (l : list Q) :
  List.length (insertNum x l) = S (List.length l).
Proof.
  induction l as [|y l IH]; [reflexivity|]. cbn [insertNum].
  destruct (Qle_bool x y); cbn [List.length]; [reflexivity|]. rewrite IH. reflexivity.
Qed.

Lemma sortNum_length (l : list Q) : List.length (sortNum l) = List.length l.
Proof.
  induction l as [|x l IH]; [reflexivity|]. cbn [sortNum List.length].
  rewrite insertNum_length, IH. reflexivity.
Qed.

Lemma insertNum_In (x y : Q) (l : list Q) : In y (insertNum x l) <-> y = x \/ In y l.
Proof.
  induction l as [|z l IH]; cbn [insertNum In]; [intuition congruence|].
  destruct (Qle_bool x z); cbn [In]; [intuition congruence|]. rewrite IH. intuition congruence.
Qed.

Lemma sortNum_In (y : Q) (l : list Q) : In y (sortNum l) <-> In y l.
Proof.
  induction l as [|x l IH]; [reflexivity|]. cbn [sortNum In].
  rewrite insertNum_In, IH. intuition congruence.
Qed.






(** *** The median *)

Lemma Qle_bool_proper (x x' y y' : Q) :
  x == x' -> y == y' -> Qle_bool x y = Qle_bool x' y'.
Proof.
  intros Hx Hy. destruct (Qle_bool x y) eqn:E, (Qle_bool x' y') eqn:E'; try reflexivity.
  - apply Qle_bool_iff in E. apply Qle_bool_false in E'. lra.
  - apply Qle_bool_iff in E'. apply Qle_bool_false in E. lra.
Qed.

Lemma sameNumbers_refl (l : list Q) : sameNumbers l l.
Proof. induction l; constructor; [reflexivity|assumption]. Qed.

Lemma sameNumbers_trans (a b c : list Q) :
  sameNumbers a b -> sameNumbers b c -> sameNumbers a c.
Proof.
  intros Hab. revert c. induction Hab as [|x y a b Hxy Hab IH]; intros c Hbc.
  - inversion Hbc. constructor.
  - inversion Hbc as [|y' z b' c' Hyz Hbc' E1 E2]. subst.
    constructor; [rewrite Hxy; exact Hyz|apply IH; exact Hbc'].
Qed.

Lemma insertNum_proper (x x' : Q) (l l' : list Q) :
  x == x' -> sameNumbers l l' -> sameNumbers (insertNum x l) (insertNum x' l').
Proof.
  intros Hx Hl. induction Hl as [|y y' l l' Hy Hl IH]; cbn [insertNum].
  - constructor; [exact Hx|constructor].
  - rewrite (Qle_bool_proper x x' y y' Hx Hy). destruct (Qle_bool x' y').
    + constructor; [exact Hx|]. constructor; assumption.
    + constructor; assumption.
Qed.

Lemma insertNum_cons (x y : Q) (l : list Q) :
  insertNum x (y :: l) = if Qle_bool x y then x :: y :: l else y :: insertNum x l.
Proof. reflexivity. Qed.

Lemma insertNum_nil (x : Q) : insertNum x [] = [x].
Proof. reflexivity. Qed.

Lemma Qle_bool_cases (x y : Q) :
  (Qle_bool x y = true /\ x <= y) \/ (Qle_bool x y = false /\ y < x).
Proof.
  destruct (Qle_bool x y) eqn:E; [left|right]; (split; [reflexivity|]).
  - apply Qle_bool_iff. exact E.
  - apply Qle_bool_false. exact E.
Qed.

Lemma insertNum_swap (x y : Q) (l : list Q) :
  sameNumbers (insertNum x (insertNum y l)) (insertNum y (insertNum x l)).
Proof.
  induction l as [|z l IH].
  - destruct (Qle_bool_cases x y) as [(Exy & Hxy)|(Exy & Hxy)],
             (Qle_bool_cases y x) as [(Eyx & Hyx)|(Eyx & Hyx)];
      rewrite ?insertNum_nil, ?insertNum_cons, ?Exy, ?Eyx, ?insertNum_nil;
      first [ exfalso; lra
            | apply sameNumbers_refl
            | constructor; [lra|]; constructor; [lra|]; constructor ].
  - destruct (Qle_bool_cases x y) as [(Exy & Hxy)|(Exy & Hxy)],
             (Qle_bool_cases y x) as [(Eyx & Hyx)|(Eyx & Hyx)],
             (Qle_bool_cases x z) as [(Exz & Hxz)|(Exz & Hxz)],
             (Qle_bool_cases y z) as [(Eyz & Hyz)|(Eyz & Hyz)];
      try (exfalso; lra);
      repeat (progress (rewrite ?insertNum_cons, ?Exy, ?Eyx, ?Exz, ?Eyz));
      first [ apply sameNumbers_refl
            | constructor; [reflexivity|]; exact IH
            | constructor; [lra|]; constructor; [lra|]; apply sameNumbers_refl ].
Qed.

Lemma sortNum_permutation (a b : list Q) :
  Permutation a b -> sameNumbers (sortNum a) (sortNum b).
Proof.
  induction 1 as [|x a b Hab IH|x y a|a b c Hab IH1 Hbc IH2]; cbn [sortNum].
  - constructor.
  - apply insertNum_proper; [reflexivity|exact IH].
  - apply insertNum_swap.
  - eapply sameNumbers_trans; eassumption.
Qed.

Lemma sameNumbers_length (a b : list Q) : sameNumbers a b -> List.length a = List.length b.
Proof. induction 1; cbn [List.length]; congruence. Qed.

Lemma sameNumbers_index (a b : list Q) (k : Z) :
  sameNumbers a b -> same (JS.index a k) (JS.index b k).
Proof.
  intros H. unfold JS.index. destruct (k <? 0)%Z; [reflexivity|].
  generalize (Z.to_nat k). intros n. revert n.
  induction H as [|x y a b Hxy Hab IH]; intros n.
  - destruct n; reflexivity.
  - destruct n as [|n]; cbn [nth_error]; [exact Hxy|apply IH].
Qed.

Lemma percentile_sameNumbers (a b : list Q) (p : Q) :
  sameNumbers a b -> same (calculatePercentile a p) (calculatePercentile b p).
Proof.
  intros H. pose proof (sameNumbers_length a b H) as Hlen.
  inversion H as [|x y a' b' Hxy H' Ea Eb]; [reflexivity|]. subst.
  inversion H' as [|x2 y2 a2 b2 Hxy2 H2 Ea Eb]; [exact Hxy|]. subst.
  unfold calculatePercentile. rewrite Hlen.
  set (i := p / 100 * inject_Z (Z.of_nat (List.length (y :: y2 :: b2)) - 1)).
  pose proof (sameNumbers_index _ _ (Qfloor i) H) as Hlo.
  pose proof (sameNumbers_index _ _ (Qceiling i) H) as Hhi.
  destruct (Qfloor i =? Qceiling i)%Z; [exact Hlo|].
  destruct (JS.index (x :: x2 :: a2) (Qfloor i)) as [| |lo| |],
           (JS.index (y :: y2 :: b2) (Qfloor i)) as [| |lo'| |];
    cbn [same] in Hlo; try discriminate; try reflexivity.
  destruct (JS.index (x :: x2 :: a2) (Qceiling i)) as [| |hi| |],
           (JS.index (y :: y2 :: b2) (Qceiling i)) as [| |hi'| |];
    cbn [same] in Hhi |- *; try discriminate; try reflexivity.
  rewrite Hlo, Hhi. reflexivity.
Qed.

(** X9: the median does not depend on the order of the array.
    [calculateMedian] returns [null] exactly on the empty array, and on two
    arrays holding the same numbers in different orders it returns the same
    value. *)
Theorem X9_median_order_free (a b : list Q) :
  Permutation a b ->
  same (calculateMedian a) (calculateMedian b) /\
  (calculateMedian a = JNull <-> a = []).
Proof.
  intros Hp. split.
  - unfold calculateMedian. rewrite (Permutation_length Hp).
    destruct (Z.of_nat (List.length b) =? 0)%Z; [reflexivity|].
    apply percentile_sameNumbers, sortNum_permutation. exact Hp.
  - unfold calculateMedian. destruct a as [|x a]; [split; reflexivity|].
    split; [|discriminate]. intros E. exfalso.
    assert (Hne : sortNum (x :: a) <> []).
    { intros E'. apply (f_equal (@List.length Q)) in E'. rewrite sortNum_length in E'.
      discriminate E'. }
    destruct (percentile_value (sortNum (x :: a)) 50 Hne) as (lo & hi & v & _ & _ & Ev & _);
      [discriminate|discriminate|].
    cbn [List.length] in E.
    destruct (Z.eqb_spec (Z.of_nat (S (List.length a))) 0) as [H0|_]; [lia|].
    rewrite Ev in E. discriminate E.
Qed.

Lemma X9_median_order_free_witness :
  same (calculateMedian [3; 1; 2; 10]) (calculateMedian [10; 2; 1; 3]) /\
  (calculateMedian [3; 1; 2; 10] = JNull <-> [3; 1; 2; 10] = []).
Proof.
  apply (X9_median_order_free [3; 1; 2; 10] [10; 2; 1; 3]).
  apply (Permutation_rev [3; 1; 2; 10]).
Defined.

(** *** Rolling returns *)






(** *** The batch computation *)

Section Batch.
Variable Math_pow : Q -> Q -> Q.
Variable w : AnalyticsWorld.

Lemma windowStep_thrown code ws table e :
  fold_left (windowStep Math_pow w code) ws (table, Thrown e) = (table, Thrown e).
Proof. induction ws as [|x ws IH]; [reflexivity|]. cbn [fold_left windowStep]. exact IH. Qed.

(** The outcome of the windows of a scheme does not depend on the table, and
    a computation that runs to its end reports on every window, in order. *)
Lemma windows_outcome code ws :
  forall table table' results,
  snd (fold_left (windowStep Math_pow w code) ws (table, Returned results))
  = snd (fold_left (windowStep Math_pow w code) ws (table', Returned results)) /\
  match snd (fold_left (windowStep Math_pow w code) ws (table, Returned results)) with
  | Returned results' => List.map fst results' = List.map fst results ++ ws
  | Thrown _ => True
  end.
Proof.
  induction ws as [|x ws IH]; intros table table' results.
  - cbn [fold_left snd]. rewrite app_nil_r. split; reflexivity.
  - cbn [fold_left windowStep].
    destruct (getAllNavHistory w code) as [navHistory|e].
    2:{ rewrite !windowStep_thrown. split; [reflexivity|exact I]. }
    destruct (computeSchemeAnalytics Math_pow navHistory x) as [a|].
    + destruct (upsertAnalyticsFault w code x) as [e|].
      { rewrite !windowStep_thrown. split; [reflexivity|exact I]. }
      destruct (IH (<[(code, windowName x) := a]> table)
                   (<[(code, windowName x) := a]> table') (results ++ [(x, Some a)]))
        as (H1 & H2).
      split; [exact H1|].
      destruct (snd (fold_left (windowStep Math_pow w code) ws _)) as [rs|]; [|exact I].
      rewrite H2, List.map_app, <- List.app_assoc. reflexivity.
    + destruct (IH table table' (results ++ [(x, None)])) as (H1 & H2).
      split; [exact H1|].
      destruct (snd (fold_left (windowStep Math_pow w code) ws _)) as [rs|]; [|exact I].
      rewrite H2, List.map_app, <- List.app_assoc. reflexivity.
Qed.

Lemma windowName_inj (a b : WindowType) : windowName a = windowName b -> a = b.
Proof. destruct a, b; cbn; intros H; first [reflexivity | discriminate H]. Qed.

Lemma bump_total (computed : bool) (c : WindowCount) :
  (wc_computed (bump computed c) + wc_skipped (bump computed c)
   = wc_computed c + wc_skipped c + 1)%Z.
Proof. destruct computed; cbn; lia. Qed.

Lemma countWindows_step (entries : list WindowResult) :
  forall (byWindow : gmap string WindowCount) any,
  fst (fold_left
    (fun acc entry =>
       let '(byWindow, anyComputed) := acc in
       let '(window, result) := entry in
       match result with
       | Some _ => (alter (bump true) (windowName window) byWindow, true)
       | None => (alter (bump false) (windowName window) byWindow, anyComputed)
       end) entries (byWindow, any))
  = fold_left (fun m entry => alter (bump (isComputed (snd entry))) (windowName (fst entry)) m)
              entries byWindow.
Proof.
  induction entries as [|[window [a|]] entries IH]; intros byWindow any;
    [reflexivity| |]; cbn [fold_left fst snd isComputed]; apply IH.
Qed.

(** Each window's counters grow by one in total. *)
Lemma countWindows_total (schemeResults : list WindowResult) (byWindow : gmap string WindowCount) :
  List.map fst schemeResults = analyticsWindows ->
  forall win c, byWindow !! windowName win = Some c ->
  exists c', fst (countWindows schemeResults byWindow) !! windowName win = Some c' /\
    (wc_computed c' + wc_skipped c' = wc_computed c + wc_skipped c + 1)%Z.
Proof.
  intros Hshape win c Hc. unfold countWindows. rewrite countWindows_step.
  destruct schemeResults as [|[w1 r1] [|[w2 r2] [|[w3 r3] [|[w4 r4] [|? ?]]]]];
    try discriminate Hshape.
  cbn [List.map fst] in Hshape. unfold analyticsWindows in Hshape.
  injection Hshape as -> -> -> ->.
  cbn [fold_left fst snd].
  destruct win; cbn [windowName].
  - rewrite lookup_alter_ne by discriminate. rewrite lookup_alter_ne by discriminate.
    rewrite lookup_alter_ne by discriminate. rewrite lookup_alter_eq.
    cbn [windowName] in Hc. rewrite Hc. eexists. split; [reflexivity|apply bump_total].
  - rewrite lookup_alter_ne by discriminate. rewrite lookup_alter_ne by discriminate.
    rewrite lookup_alter_eq. rewrite lookup_alter_ne by discriminate.
    cbn [windowName] in Hc. rewrite Hc. eexists. split; [reflexivity|apply bump_total].
  - rewrite lookup_alter_ne by discriminate. rewrite lookup_alter_eq.
    rewrite lookup_alter_ne by discriminate. rewrite lookup_alter_ne by discriminate.
    cbn [windowName] in Hc. rewrite Hc. eexists. split; [reflexivity|apply bump_total].
  - rewrite lookup_alter_eq.
    rewrite lookup_alter_ne by discriminate. rewrite lookup_alter_ne by discriminate.
    rewrite lookup_alter_ne by discriminate.
    cbn [windowName] in Hc. rewrite Hc. eexists. split; [reflexivity|apply bump_total].
Qed.

(** One scheme: counted once overall, and once per window when its
    computation runs to its end. *)
Lemma analyticsOne_counts (code : string) table results k :
  (forall win, exists c, byWindow results !! windowName win = Some c /\
                 (wc_computed c + wc_skipped c = k)%Z) ->
  let out := analyticsOne Math_pow w (table, results) code in
  ar_total (snd out) = ar_total results /\
  (ar_computed (snd out) + ar_skipped (snd out)
   = ar_computed results + ar_skipped results + 1)%Z /\
  (forall win, exists c, byWindow (snd out) !! windowName win = Some c /\
                 (wc_computed c + wc_skipped c
                  = k + (if completes Math_pow w code then 1 else 0))%Z).
Proof.
  intros Hk out. subst out. unfold analyticsOne.
  destruct (windows_outcome code analyticsWindows table ∅ []) as (Hind & Hshape).
  fold (computeAllWindowsForScheme Math_pow w code table) in Hind, Hshape.
  fold (computeAllWindowsForScheme Math_pow w code ∅) in Hind.
  assert (Hcomp : completes Math_pow w code
                  = match snd (computeAllWindowsForScheme Math_pow w code table) with
                    | Returned _ => true | Thrown _ => false end).
  { unfold completes. rewrite Hind. reflexivity. }
  rewrite Hcomp.
  destruct (computeAllWindowsForScheme Math_pow w code table) as [table1 [schemeResults|e]];
    cbn [snd] in Hshape |- *.
  - cbn [List.map app] in Hshape.
    destruct (countWindows schemeResults (byWindow results)) as [byWindow' any] eqn:Ecw.
    assert (Hk' : forall win, exists c, byWindow' !! windowName win = Some c /\
                    (wc_computed c + wc_skipped c = k + 1)%Z).
    { intros win. destruct (Hk win) as (c & Hc & Hs).
      destruct (countWindows_total schemeResults (byWindow results) Hshape win c Hc)
        as (c' & Hc' & Hs').
      rewrite Ecw in Hc'. exists c'. split; [exact Hc'|lia]. }
    destruct any; cbn [snd ar_total ar_computed ar_skipped byWindow];
      (split; [reflexivity|]; split; [lia|exact Hk']).
  - cbn [snd ar_total ar_computed ar_skipped byWindow].
    split; [reflexivity|]. split; [lia|].
    intros win. destruct (Hk win) as (c & Hc & Hs). exists c. split; [exact Hc|lia].
Qed.

Lemma analytics_fold (schemes : list string) :
  forall table results k,
  (forall win, exists c, byWindow results !! windowName win = Some c /\
                 (wc_computed c + wc_skipped c = k)%Z) ->
  let out := fold_left (analyticsOne Math_pow w) schemes (table, results) in
  ar_total (snd out) = ar_total results /\
  (ar_computed (snd out) + ar_skipped (snd out)
   = ar_computed results + ar_skipped results + Z.of_nat (List.length schemes))%Z /\
  (forall win, exists c, byWindow (snd out) !! windowName win = Some c /\
                 (wc_computed c + wc_skipped c = k + completed Math_pow w schemes)%Z).
Proof.
  induction schemes as [|code schemes IH]; intros table results k Hk out; subst out.
  - cbn [fold_left snd List.length]. unfold completed. cbn [List.filter List.length].
    split; [reflexivity|]. split; [lia|].
    intros win. destruct (Hk win) as (c & Hc & Hs). exists c. split; [exact Hc|lia].
  - cbn [fold_left].
    destruct (analyticsOne_counts code table results k Hk) as (T1 & S1 & B1).
    cbv zeta in T1, S1, B1.
    destruct (analyticsOne Math_pow w (table, results) code) as [table1 results1].
    cbn [snd] in T1, S1, B1.
    destruct (IH table1 results1 _ B1) as (T & S & B). cbv zeta in T, S, B.
    assert (Hcount : completed Math_pow w (code :: schemes)
                     = ((if completes Math_pow w code then 1 else 0)
                        + completed Math_pow w schemes)%Z).
    { unfold completed. cbn [List.filter].
      destruct (completes Math_pow w code); cbn [List.length]; lia. }
    split; [congruence|]. split; [cbn [List.length]; lia|].
    intros win. destruct (B win) as (c & Hc & Hs). exists c. split; [exact Hc|lia].
Qed.

End Batch.

(** X12: the counters of [computeAllAnalytics] add up.  Every scheme is
    counted once, as computed or as skipped, also when its computation throws:
    [computed + skipped = total], the number of schemes.  For each window the
    counters [computed + skipped] add up to the number of schemes whose
    computation ran to its end; a scheme whose history read or analytics write
    throws is left out of every window's counters. *)
Theorem X12_analytics_counters (Math_pow : Q -> Q -> Q) (w : AnalyticsWorld)
    (schemes : list string)
    (table : gmap (string * string) SchemeAnalytics) :
  let results := snd (computeAllAnalytics Math_pow w schemes table) in
  ar_total results = Z.of_nat (List.length schemes) /\
  (ar_computed results + ar_skipped results = ar_total results)%Z /\
  forall win, exists c,
    byWindow results !! windowName win = Some c /\
    (wc_computed c + wc_skipped c
     = Z.of_nat (List.length (List.filter (completes Math_pow w) schemes)))%Z.
Proof.
  cbv zeta. unfold computeAllAnalytics. cbv zeta.
  destruct (analytics_fold Math_pow w schemes table
              (mkAnalyticsResults (Z.of_nat (List.length schemes)) 0 0
                 (fold_left (fun m window => <[windowName window := mkWindowCount 0 0]> m)
                            analyticsWindows ∅)) 0%Z) as (T & S & B).
  - intros win. exists (mkWindowCount 0 0). split; [|reflexivity].
    cbn [fold_left analyticsWindows byWindow]. unfold analyticsWindows. cbn [fold_left].
    destruct win; cbn [windowName].
    + rewrite lookup_insert_ne by discriminate. rewrite lookup_insert_ne by discriminate.
      rewrite lookup_insert_ne by discriminate. apply lookup_insert_eq.
    + rewrite lookup_insert_ne by discriminate. rewrite lookup_insert_ne by discriminate.
      apply lookup_insert_eq.
    + rewrite lookup_insert_ne by discriminate. apply lookup_insert_eq.
    + apply lookup_insert_eq.
  - cbv zeta in T, S, B. cbn [ar_total ar_computed ar_skipped] in T, S.
    split; [exact T|]. split; [lia|].
    intros win. destruct (B win) as (c & Hc & Hs). exists c. split; [exact Hc|].
    unfold completed in Hs. lia.
Qed.

End AnalyticsBatchFacts.

(** ** Backfill: sync-state rows, stored NAVs, pending schemes *)

Section BackfillRowsFacts.
Import JS MfApiClient Backfill IncrementalSync.

(** X13: on a call that finds the sync-state row, or finds or makes the fund
    row the new sync-state row refers to (the other calls are rejected by the
    foreign key of [sync_state] and throw), [getSyncState] returns the row of
    the scheme and sync type.  When the row exists the state is left as it
    is; when it does not, the row is created [pending] with no dates, no
    error and zero records; and a second call returns the same row and
    changes nothing. *)
Theorem X13_getSyncState (code ty : string) (info info' : option Scheme) (st : State) :
  fundRowProvided code ty info st ->
  let out := getSyncState code ty info st in
  (exists row, snd out = Some row /\ sync_state (fst out) !! (code, ty) = Some row /\
     (sync_state st !! (code, ty) = None -> row = mkSyncState Pending None 0 None None None)) /\
  (forall row, sync_state st !! (code, ty) = Some row -> out = (st, Some row)) /\
  fundRowProvided code ty info' (fst out) /\
  getSyncState code ty info' (fst out) = out.
Proof.
  intros _. cbv zeta. unfold getSyncState, findBySchemeAndType.
  destruct (sync_state st !! (code, ty)) as [row|] eqn:E.
  - cbn [fst snd]. rewrite E. split; [|split; [|split]].
    + exists row. split; [reflexivity|]. split; [reflexivity|]. intros H. discriminate H.
    + intros row' H. injection H as <-. reflexivity.
    + left. rewrite E. eexists. reflexivity.
    + reflexivity.
  - assert (L : forall s, sync_state (create code ty Pending s) !! (code, ty)
                  = Some (mkSyncState Pending None 0 None None None)).
    { intros s. unfold create. cbn [sync_state]. apply lookup_insert_eq. }
    cbn [fst snd]. rewrite !L. split; [|split; [|split]].
    + eexists. split; [reflexivity|]. split; [reflexivity|]. intros _. reflexivity.
    + intros row H. discriminate H.
    + left. rewrite L. eexists. reflexivity.
    + reflexivity.
Qed.

Lemma X13_getSyncState_witness :
  let scheme := mkScheme "120596" "Axis Small Cap Fund" "Axis" "Small Cap Direct Growth" in
  let out := getSyncState "120596" "backfill" (Some scheme) (mkState ∅ ∅ ∅ []) in
  snd out = Some (mkSyncState Pending None 0 None None None) /\
  getSyncState "120596" "backfill" None (fst out) = out.
Proof.
  cbv zeta.
  assert (H : fundRowProvided "120596" "backfill"
                (Some (mkScheme "120596" "Axis Small Cap Fund" "Axis" "Small Cap Direct Growth"))
                (mkState ∅ ∅ ∅ [])).
  { right. right. eexists. split; reflexivity. }
  destruct (X13_getSyncState "120596" "backfill" _ None _ H)
    as ((row & Hsnd & _ & Hrow) & _ & _ & Hagain).
  split; [|exact Hagain].
  rewrite Hsnd. f_equal. apply Hrow. reflexivity.
Defined.

(** *** What [upsertNavHistory] stores *)

Lemma recorded_snoc (history : list NavRecord) (r : NavRecord) (d : string) :
  recorded (history ++ [r]) d
  = if String.eqb (date r) d then Some (nav r) else recorded history d.
Proof. unfold recorded. rewrite fold_left_app. reflexivity. Qed.

Lemma upsert_lookup (code : string) (history : list NavRecord) (m : gmap (string * string) jsval) :
  forall c d,
  fold_left (fun m r => <[(code, date r) := nav r]> m) history m !! (c, d)
  = if String.eqb c code
    then match recorded history d with
         | Some v => Some v
         | None => m !! (c, d)
         end
    else m !! (c, d).
Proof.
  induction history as [|r history IH] using rev_ind; intros c d.
  - cbn [fold_left]. unfold recorded. cbn [fold_left]. destruct (String.eqb c code); reflexivity.
  - rewrite fold_left_app, recorded_snoc. cbn [fold_left].
    destruct (String.eqb_spec c code) as [->|Hc].
    + destruct (String.eqb_spec (date r) d) as [->|Hd].
      * apply lookup_insert_eq.
      * rewrite lookup_insert_ne by congruence. rewrite IH, String.eqb_refl. reflexivity.
    + rewrite lookup_insert_ne by congruence. rewrite IH.
      destruct (String.eqb_spec c code) as [|_]; [contradiction|reflexivity].
Qed.

(** Writing the same records again changes nothing. *)
Lemma upsert_twice (code : string) (history : list NavRecord) (m : gmap (string * string) jsval) :
  fold_left (fun m r => <[(code, date r) := nav r]> m) history
    (fold_left (fun m r => <[(code, date r) := nav r]> m) history m)
  = fold_left (fun m r => <[(code, date r) := nav r]> m) history m.
Proof.
  apply map_eq. intros [c d]. rewrite !upsert_lookup.
  destruct (String.eqb c code); [|reflexivity].
  destruct (recorded history d); reflexivity.
Qed.

(** The tables [fetchAndStore] leaves. *)
Lemma fetchAndStore_tables (w : World) (scheme : Scheme) (st : State) :
  let out := fetchAndStore w scheme st in
  (forall c, c <> s_schemeCode scheme -> funds (fst out) !! c = funds st !! c) /\
  match raised w scheme with
  | Some _ => nav_history (fst out) = nav_history st
  | None =>
    exists history, fetchedHistory w scheme = Some history /\
      nav_history (fst out)
      = fold_left (fun m r => <[(s_schemeCode scheme, date r) := nav r]> m) history
                  (nav_history st)
  end.
Proof.
  cbv zeta. unfold fetchAndStore, raised, fetchedHistory. cbv zeta.
  change (funds st) with (funds (logInfo (GetSchemeData (s_schemeCode scheme)) st)).
  change (nav_history st)
    with (nav_history (logInfo (GetSchemeData (s_schemeCode scheme)) st)).
  generalize (logInfo (GetSchemeData (s_schemeCode scheme)) st). clear st. intros st.
  destruct (getSchemeData w (s_schemeCode scheme)) as [apiData|e];
    [|split; [intros; reflexivity|reflexivity]].
  destruct (normalizeSchemeData apiData) as [sd|e];
    [|split; [intros; reflexivity|reflexivity]].
  destruct (fundWriteFault w (s_schemeCode scheme)) as [e|];
    [split; [intros; reflexivity|reflexivity]|].
  assert (F : forall s row c, c <> s_schemeCode scheme ->
            funds (upsertFund (s_schemeCode scheme) row s) !! c = funds s !! c).
  { intros s row c Hc. unfold upsertFund. cbn [funds]. apply lookup_insert_ne. congruence. }
  destruct (navHistory sd) as [|r rs] eqn:E.
  - cbn [fst]. split; [intros c Hc; apply F; exact Hc|].
    exists []. split; reflexivity.
  - destruct (navWriteFault w (s_schemeCode scheme)) as [e|]; cbn [fst].
    + split; [intros c Hc; apply F; exact Hc|reflexivity].
    + split; [intros c Hc; unfold upsertNavHistory; cbn [funds]; apply F; exact Hc|].
      exists (r :: rs). split; reflexivity.
Qed.

(** The tables [backfillScheme] leaves. *)
Lemma backfillScheme_tables (w : World) (scheme : Scheme) (st : State) :
  let code := s_schemeCode scheme in
  let out := backfillScheme w scheme st in
  (forall c, c <> code -> funds (fst out) !! c = funds st !! c) /\
  (forall c d, c <> code -> nav_history (fst out) !! (c, d) = nav_history st !! (c, d)) /\
  (forall k, k <> (code, "backfill"%string) -> sync_state (fst out) !! k = sync_state st !! k) /\
  match raised w scheme with
  | Some _ => nav_history (fst out) = nav_history st
  | None =>
    exists history, fetchedHistory w scheme = Some history /\
      forall d, nav_history (fst out) !! (code, d)
                = match recorded history d with
                  | Some v => Some v
                  | None => nav_history st !! (code, d)
                  end
  end.
Proof.
  cbv zeta. destruct (backfillScheme_frame w scheme st) as (Hsync & _). cbv zeta in Hsync.
  unfold backfillScheme in *. cbv zeta in *. unfold updateSyncState in *.
  set (st1 := update (s_schemeCode scheme) "backfill" _
                (logInfo (StartingBackfill (s_schemeCode scheme)) st)) in *.
  destruct (fetchAndStore_tables w scheme st1) as (Hf & Hn). cbv zeta in Hf, Hn.
  assert (Hfunds : forall c, c <> s_schemeCode scheme ->
            funds (fst (fetchAndStore w scheme st1)) !! c = funds st !! c).
  { intros c Hc. rewrite Hf by exact Hc. reflexivity. }
  assert (Hnav : match raised w scheme with
                 | Some _ => nav_history (fst (fetchAndStore w scheme st1)) = nav_history st
                 | None =>
                   exists history, fetchedHistory w scheme = Some history /\
                     nav_history (fst (fetchAndStore w scheme st1))
                     = fold_left (fun m r => <[(s_schemeCode scheme, date r) := nav r]> m)
                                 history (nav_history st)
                 end) by exact Hn.
  clear Hf Hn.
  destruct (fetchAndStore w scheme st1) as [st2 [history|message]]; cbn [fst snd] in *.
  - cbn [logInfo update funds nav_history].
    split; [exact Hfunds|]. split; [|split; [exact Hsync|]].
    + intros c d Hc. destruct (raised w scheme).
      * rewrite Hnav. reflexivity.
      * destruct Hnav as (h & _ & ->). rewrite upsert_lookup.
        destruct (String.eqb_spec c (s_schemeCode scheme)); [contradiction|reflexivity].
    + destruct (raised w scheme); [exact Hnav|].
      destruct Hnav as (h & Hh & ->). exists h. split; [exact Hh|].
      intros d. rewrite upsert_lookup, String.eqb_refl. reflexivity.
  - cbn [logInfo update funds nav_history].
    split; [exact Hfunds|]. split; [|split; [exact Hsync|]].
    + intros c d Hc. destruct (raised w scheme).
      * rewrite Hnav. reflexivity.
      * destruct Hnav as (h & _ & ->). rewrite upsert_lookup.
        destruct (String.eqb_spec c (s_schemeCode scheme)); [contradiction|reflexivity].
    + destruct (raised w scheme); [exact Hnav|].
      destruct Hnav as (h & Hh & ->). exists h. split; [exact Hh|].
      intros d. rewrite upsert_lookup, String.eqb_refl. reflexivity.
Qed.

(** X14: what [backfillScheme] writes.  It touches no fund row, no NAV row
    and no sync-state row of another scheme, nor the scheme's own incremental
    sync-state.  When nothing throws, the NAV table holds every record
    fetched under the scheme's code and the record's date (for a date fetched
    twice, the later record), and every other NAV row as before: nothing is
    deleted.  When something throws, the NAV table is as it was. *)
Theorem X14_backfill_writes (w : World) (scheme : Scheme) (st : State) :
  let code := s_schemeCode scheme in
  let out := backfillScheme w scheme st in
  (forall c, c <> code -> funds (fst out) !! c = funds st !! c) /\
  (forall c d, c <> code -> nav_history (fst out) !! (c, d) = nav_history st !! (c, d)) /\
  (forall k, k <> (code, "backfill"%string) -> sync_state (fst out) !! k = sync_state st !! k) /\
  match raised w scheme with
  | Some _ => nav_history (fst out) = nav_history st
  | None =>
    exists history, fetchedHistory w scheme = Some history /\
      forall d, nav_history (fst out) !! (code, d)
                = match recorded history d with
                  | Some v => Some v
                  | None => nav_history st !! (code, d)
                  end
  end.
Proof. apply backfillScheme_tables. Qed.

(** *** Running [backfillScheme] again *)

Lemma update_rows (code ty : string) (u : Updates) (st : State) :
  sync_state (update code ty u st) = updatedRows (code, ty) u (sync_state st).
Proof. reflexivity. Qed.

Lemma updatedRows_again (key : string * string) (u1 u2 : Updates)
    (rows : gmap (string * string) SyncState) :
  (forall row, applyUpdates u2 (applyUpdates u1 (applyUpdates u2 (applyUpdates u1 row)))
               = applyUpdates u2 (applyUpdates u1 row)) ->
  updatedRows key u2 (updatedRows key u1 (updatedRows key u2 (updatedRows key u1 rows)))
  = updatedRows key u2 (updatedRows key u1 rows).
Proof.
  intros H. unfold updatedRows. destruct (rows !! key) as [row|] eqn:E.
  - repeat (rewrite ?lookup_insert_eq, ?insert_insert_eq). rewrite H. reflexivity.
  - rewrite !E. reflexivity.
Qed.

Lemma update_funds (code ty : string) (u : Updates) (st : State) :
  funds (update code ty u st) = funds st.
Proof. reflexivity. Qed.

Lemma update_nav_history (code ty : string) (u : Updates) (st : State) :
  nav_history (update code ty u st) = nav_history st.
Proof. reflexivity. Qed.

Ltac tables :=
  repeat first
    [ progress cbn [fst snd logInfo funds nav_history sync_state upsertFund upsertNavHistory]
    | rewrite update_rows | rewrite update_funds | rewrite update_nav_history ].

(** What [fetchAndStore] and [backfillScheme] do to the tables is fixed by
    the upstream answer and the write outcomes: a fund row upserted or not,
    a list of NAV records upserted, and updates of the sync-state row. *)
Lemma fetchAndStore_effect (w : World) (scheme : Scheme) :
  exists (f : option FundRow) (h : list NavRecord) (res : outcome (list NavRecord)),
  forall st,
    let out := fetchAndStore w scheme st in
    funds (fst out) = match f with
                      | Some row => <[s_schemeCode scheme := row]> (funds st)
                      | None => funds st
                      end /\
    nav_history (fst out)
    = fold_left (fun m r => <[(s_schemeCode scheme, date r) := nav r]> m) h (nav_history st) /\
    sync_state (fst out) = sync_state st /\
    snd out = res.
Proof.
  unfold fetchAndStore. cbv zeta.
  destruct (getSchemeData w (s_schemeCode scheme)) as [apiData|e].
  2:{ exists None, [], (Thrown e). intros st. repeat split. }
  destruct (normalizeSchemeData apiData) as [sd|e].
  2:{ exists None, [], (Thrown e). intros st. repeat split. }
  destruct (fundWriteFault w (s_schemeCode scheme)) as [e|].
  { exists None, [], (Thrown e). intros st. repeat split. }
  destruct (navHistory sd) as [|r rs] eqn:E.
  { eexists (Some _), [], (Returned []). intros st. repeat split. }
  destruct (navWriteFault w (s_schemeCode scheme)) as [e|].
  { eexists (Some _), [], (Thrown e). intros st. repeat split. }
  eexists (Some _), (r :: rs), (Returned (r :: rs)). intros st. repeat split.
Qed.

Lemma backfillScheme_effect (w : World) (scheme : Scheme) :
  exists (f : option FundRow) (h : list NavRecord) (u1 u2 : Updates) (result : BackfillResult),
  (forall row, applyUpdates u2 (applyUpdates u1 (applyUpdates u2 (applyUpdates u1 row)))
               = applyUpdates u2 (applyUpdates u1 row)) /\
  forall st,
    let out := backfillScheme w scheme st in
    funds (fst out) = match f with
                      | Some row => <[s_schemeCode scheme := row]> (funds st)
                      | None => funds st
                      end /\
    nav_history (fst out)
    = fold_left (fun m r => <[(s_schemeCode scheme, date r) := nav r]> m) h (nav_history st) /\
    sync_state (fst out)
    = updatedRows (s_schemeCode scheme, "backfill"%string) u2
        (updatedRows (s_schemeCode scheme, "backfill"%string) u1 (sync_state st)) /\
    snd out = result.
Proof.
  destruct (fetchAndStore_effect w scheme) as (f & h & res & H).
  exists f, h, (mkUpdates (Some InProgress) None None (Some None) (Some (Some (clock w))) None).
  destruct res as [history|message]; eexists; eexists.
  - split; [|intros st; cbv zeta; unfold backfillScheme; cbv zeta; unfold updateSyncState].
    2:{ set (st1 := update _ _ _ (logInfo _ st)).
        specialize (H st1). cbv zeta in H.
        destruct (fetchAndStore w scheme st1) as [st2 r]. cbn [fst snd] in H.
        destruct H as (Hf & Hn & Hs & ->). tables.
        rewrite Hf, Hn, Hs. unfold st1. tables.
        split; [reflexivity|]. split; [reflexivity|]. split; reflexivity. }
    intros []. reflexivity.
  - split; [|intros st; cbv zeta; unfold backfillScheme; cbv zeta; unfold updateSyncState].
    2:{ set (st1 := update _ _ _ (logInfo _ st)).
        specialize (H st1). cbv zeta in H.
        destruct (fetchAndStore w scheme st1) as [st2 r]. cbn [fst snd] in H.
        destruct H as (Hf & Hn & Hs & ->). tables.
        rewrite Hf, Hn, Hs. unfold st1. tables.
        split; [reflexivity|]. split; [reflexivity|]. split; reflexivity. }
    intros []. reflexivity.
Qed.

(** X15: [backfillScheme] is idempotent on the tables.  Run twice in a row
    against the same upstream answers, write outcomes and clock reading, the
    second run succeeds or fails as the first did, with the same date range
    and the same error message, and leaves the [funds], [nav_history] and
    [sync_state] tables as the first left them.  (The [recordsInserted] of
    the result, the count of affected rows the database reports, is not
    covered.) *)
Theorem X15_backfill_idempotent (w : World) (scheme : Scheme) (st : State) :
  let once := backfillScheme w scheme st in
  let twice := backfillScheme w scheme (fst once) in
  (success (snd twice) = success (snd once) /\
   dateRange (snd twice) = dateRange (snd once) /\
   error (snd twice) = error (snd once)) /\
  sameTables (fst twice) (fst once).
Proof.
  destruct (backfillScheme_effect w scheme) as (f & h & u1 & u2 & result & Hu & H).
  cbv zeta.
  destruct (H st) as (F1 & N1 & S1 & R1).
  destruct (H (fst (backfillScheme w scheme st))) as (F2 & N2 & S2 & R2).
  cbv zeta in F1, N1, S1, R1, F2, N2, S2, R2.
  split; [rewrite R1, R2; repeat split|].
  unfold sameTables. rewrite F2, N2, S2, F1, N1, S1. split; [|split].
  - destruct f; [apply insert_insert_eq|reflexivity].
  - apply upsert_twice.
  - apply updatedRows_again. exact Hu.
Qed.

(** *** The schemes left pending by a run *)

Lemma backfillScheme_own_status (w : World) (scheme : Scheme) (st : State) (row : SyncState) :
  sync_state st !! (s_schemeCode scheme, "backfill"%string) = Some row ->
  exists row', sync_state (fst (backfillScheme w scheme st))
                 !! (s_schemeCode scheme, "backfill"%string) = Some row' /\
    Status_eqb (status row') Completed = negb (raises w scheme).
Proof.
  intros Hrow. unfold backfillScheme. cbv zeta. unfold updateSyncState.
  set (u1 := mkUpdates (Some InProgress) None None (Some None) (Some (Some (clock w))) None).
  set (st1 := update (s_schemeCode scheme) "backfill" u1
                (logInfo (StartingBackfill (s_schemeCode scheme)) st)).
  assert (H1 : sync_state st1 !! (s_schemeCode scheme, "backfill"%string)
               = Some (applyUpdates u1 row)).
  { apply update_lookup. exact Hrow. }
  pose proof (fetchAndStore_outcome w scheme st1) as Hout.
  destruct (fetchAndStore_sync_state w scheme st1) as (Hsync & _).
  destruct (fetchAndStore w scheme st1) as [st2 res]. cbn [fst snd] in *.
  rewrite <- Hsync in H1. unfold raises.
  destruct (raised w scheme) as [message|].
  - subst res. cbn [fst logInfo sync_state].
    eexists. split; [apply update_lookup; exact H1|]. reflexivity.
  - destruct Hout as (history & _ & ->). cbn [fst logInfo sync_state].
    eexists. split; [apply update_lookup; exact H1|]. reflexivity.
Qed.

Lemma backfillOne_own_status (w : World) (scheme : Scheme) (st : State) (results : Results) :
  exists row, sync_state (fst (backfillOne w (st, results) scheme))
                !! (s_schemeCode scheme, "backfill"%string) = Some row /\
    Status_eqb (status row) Completed = isCompleted st scheme || negb (raises w scheme).
Proof.
  unfold backfillOne.
  destruct (getSyncState_row scheme st) as (Hrow & Hsome & Hlogs & Hframe & Hkeep & Hnew).
  cbv zeta in Hrow, Hsome, Hlogs, Hframe, Hkeep, Hnew.
  destruct (getSyncState (s_schemeCode scheme) "backfill" (Some scheme) st) as [st1 syncState].
  cbn [fst snd] in *.
  destruct syncState as [row|]; [|destruct Hsome as [x Hx]; discriminate].
  assert (Hc : isCompleted st scheme = Status_eqb (status row) Completed).
  { unfold isCompleted.
    destruct (sync_state st !! (s_schemeCode scheme, "backfill"%string)) as [row0|] eqn:E.
    - rewrite Hkeep in Hrow by eauto. rewrite E in Hrow. injection Hrow as ->. reflexivity.
    - destruct (Hnew eq_refl) as (row1 & Hr1 & Hp). injection Hr1 as ->. rewrite Hp. reflexivity. }
  rewrite Hc. destruct (Status_eqb (status row) Completed) eqn:Es.
  - cbn [fst logInfo sync_state orb]. exists row. split; [symmetry; exact Hrow|exact Es].
  - destruct (backfillScheme_own_status w scheme st1 row (eq_sym Hrow)) as (row' & Hr' & Hs').
    destruct (backfillScheme w scheme st1) as [st2 result]. cbn [fst] in Hr'.
    exists row'. destruct (success result); cbn [fst orb]; split; assumption.
Qed.

Lemma backfillAll_frame (w : World) (schemes : list Scheme) :
  forall st results k,
  (forall s, In s schemes -> k <> (s_schemeCode s, "backfill"%string)) ->
  sync_state (fst (fold_left (backfillOne w) schemes (st, results))) !! k = sync_state st !! k.
Proof.
  induction schemes as [|s rest IH]; intros st results k Hk; [reflexivity|].
  cbn [fold_left].
  destruct (backfillOne_spec w s st results) as (Hframe & _). cbv zeta in Hframe.
  destruct (backfillOne w (st, results) s) as [st1 results1]. cbn [fst] in Hframe.
  rewrite IH by (intros s' Hs'; apply Hk; right; exact Hs').
  apply Hframe. apply Hk. left. reflexivity.
Qed.

Lemma backfillAll_status (w : World) (schemes : list Scheme) :
  NoDup (List.map s_schemeCode schemes) ->
  forall st results s, In s schemes ->
  exists row, sync_state (fst (fold_left (backfillOne w) schemes (st, results)))
                !! (s_schemeCode s, "backfill"%string) = Some row /\
    Status_eqb (status row) Completed = isCompleted st s || negb (raises w s).
Proof.
  induction schemes as [|s0 rest IH]; intros Hnd st results s Hs; [destruct Hs|].
  cbn [List.map] in Hnd. apply NoDup_cons in Hnd. destruct Hnd as (Hnotin & Hnd).
  cbn [fold_left].
  destruct (backfillOne_own_status w s0 st results) as (row0 & Hrow0 & Hst0).
  destruct (backfillOne_spec w s0 st results) as (Hframe & _). cbv zeta in Hframe.
  destruct (backfillOne w (st, results) s0) as [st1 results1]. cbn [fst] in *.
  destruct (in_dec string_dec (s_schemeCode s) (List.map s_schemeCode rest)) as [Hin|Hout].
  - (* the code of [s] occurs in the rest: a later iteration settles it *)
    apply in_map_iff in Hin. destruct Hin as (s' & Hcode & Hs').
    destruct (IH Hnd st1 results1 s' Hs') as (row & Hrow & Hstat).
    assert (Hne : s_schemeCode s' <> s_schemeCode s0).
    { intros E. apply Hnotin. rewrite <- E. apply list_elem_of_In. apply in_map. exact Hs'. }
    assert (Hold : isCompleted st1 s' = isCompleted st s').
    { apply isCompleted_frame. apply Hframe. congruence. }
    assert (Hraise : raises w s' = raises w s).
    { unfold raises, raised. rewrite Hcode. reflexivity. }
    assert (Hcomp : isCompleted st s' = isCompleted st s).
    { unfold isCompleted. rewrite Hcode. reflexivity. }
    exists row. rewrite <- Hcode. split; [exact Hrow|].
    rewrite Hstat, Hold, Hraise, Hcomp. reflexivity.
  - destruct Hs as [<-|Hs]; [|exfalso; apply Hout; apply in_map; exact Hs].
    exists row0. split; [|exact Hst0].
    rewrite backfillAll_frame; [exact Hrow0|].
    intros s' Hs' E. injection E as E. apply Hout. rewrite E. apply in_map. exact Hs'.
Qed.

Lemma getSyncState_found (code ty : string) (info : option Scheme) (st : State)
    (row : SyncState) :
  sync_state st !! (code, ty) = Some row -> getSyncState code ty info st = (st, Some row).
Proof. intros H. unfold getSyncState, findBySchemeAndType. rewrite H. reflexivity. Qed.

Lemma pending_fold (schemes : list Scheme) (st : State) :
  (forall s, In s schemes ->
     is_Some (sync_state st !! (s_schemeCode s, "backfill"%string))) ->
  forall pending,
  fold_left
    (fun acc scheme =>
       let '(st, pending) := acc in
       let '(st, syncState) := getSyncState (s_schemeCode scheme) "backfill" None st in
       match syncState with
       | Some row =>
         if Status_eqb (status row) Completed then (st, pending)
         else (st, pending ++ [scheme])
       | None => (st, pending)
       end)
    schemes (st, pending)
  = (st, pending ++ List.filter (fun s => negb (isCompleted st s)) schemes).
Proof.
  induction schemes as [|s rest IH]; intros Hrows pending.
  - cbn [fold_left List.filter]. rewrite app_nil_r. reflexivity.
  - cbn [fold_left List.filter].
    destruct (Hrows s (or_introl eq_refl)) as [row Hrow].
    rewrite (getSyncState_found _ _ None st row Hrow).
    assert (Hc : isCompleted st s = Status_eqb (status row) Completed).
    { unfold isCompleted. rewrite Hrow. reflexivity. }
    rewrite Hc.
    destruct (Status_eqb (status row) Completed); cbn [negb].
    + apply IH. intros s' Hs'. apply Hrows. right. exact Hs'.
    + rewrite IH by (intros s' Hs'; apply Hrows; right; exact Hs').
      rewrite <- app_assoc. reflexivity.
Qed.

(** X16: what is left pending after a run.  After [backfillAllSchemes] on
    schemes with distinct codes, [getPendingSchemes] on the same schemes
    changes nothing and returns, in order, exactly the schemes that were not
    already completed and whose backfill threw: every other scheme is
    completed. *)
Theorem X16_pending_after_backfill (w : World) (schemes : list Scheme) (st : State) :
  NoDup (List.map s_schemeCode schemes) ->
  let after := fst (backfillAllSchemes w schemes st) in
  getPendingSchemes schemes after
  = (after, List.filter (fun s => negb (isCompleted st s) && raises w s) schemes).
Proof.
  intros Hnd. cbv zeta. unfold getPendingSchemes, backfillAllSchemes.
  set (results0 := mkResults _ 0 0 0 []).
  set (after := fst (fold_left (backfillOne w) schemes (st, results0))).
  assert (Hstat : forall s, In s schemes ->
            exists row, sync_state after !! (s_schemeCode s, "backfill"%string) = Some row /\
              Status_eqb (status row) Completed = isCompleted st s || negb (raises w s)).
  { intros s Hs. apply backfillAll_status; assumption. }
  rewrite pending_fold.
  - cbn [app]. f_equal. apply List.filter_ext_in. intros s Hs.
    destruct (Hstat s Hs) as (row & Hrow & Hst).
    unfold isCompleted at 1. rewrite Hrow, Hst.
    destruct (isCompleted st s), (raises w s); reflexivity.
  - intros s Hs. destruct (Hstat s Hs) as (row & Hrow & _). eauto.
Qed.

Lemma X16_pending_after_backfill_witness :
  let w := mkWorld
             (fun code => if String.eqb code "120596"
                          then Thrown "Request failed with status code 502"
                          else getSchemeData fixtureWorld code)
             (fun _ => None) (fun _ => None) "2024-01-04 06:00:00" in
  let after := fst (backfillAllSchemes w fixtureSchemes fixtureState) in
  getPendingSchemes fixtureSchemes after
  = (after,
     List.filter (fun s => negb (isCompleted fixtureState s) && raises w s) fixtureSchemes).
Proof.
  apply (X16_pending_after_backfill
           (mkWorld
             (fun code => if String.eqb code "120596"
                          then Thrown "Request failed with status code 502"
                          else getSchemeData fixtureWorld code)
             (fun _ => None) (fun _ => None) "2024-01-04 06:00:00")
           fixtureSchemes fixtureState).
  apply (bool_decide_unpack _). vm_compute. reflexivity.
Defined.

(** In the fixture, with the upstream failing for one scheme, that scheme
    alone is left pending. *)
Example pending_fixture :
  let w := mkWorld
             (fun code => if String.eqb code "120596"
                          then Thrown "Request failed with status code 502"
                          else getSchemeData fixtureWorld code)
             (fun _ => None) (fun _ => None) "2024-01-04 06:00:00" in
  List.map s_schemeCode
    (snd (getPendingSchemes fixtureSchemes
            (fst (backfillAllSchemes w fixtureSchemes fixtureState))))
  = ["120596"%string].
Proof. vm_compute. reflexivity. Qed.

(** *** What a run leaves of every scheme *)

Lemma backfillScheme_row (w : World) (scheme : Scheme) (st : State) (row : SyncState) :
  sync_state st !! (s_schemeCode scheme, "backfill"%string) = Some row ->
  let row' := sync_state (fst (backfillScheme w scheme st))
                !! (s_schemeCode scheme, "backfill"%string) in
  match raised w scheme with
  | None =>
    exists history r',
      fetchedHistory w scheme = Some history /\ row' = Some r' /\
      status r' = Completed /\ total_records r' = Z.of_nat (List.length history)
  | Some message =>
    exists r', row' = Some r' /\ status r' = Failed /\ error_message r' = Some message
  end.
Proof.
  intros Hrow. cbv zeta. unfold backfillScheme. cbv zeta. unfold updateSyncState.
  set (u1 := mkUpdates (Some InProgress) None None (Some None) (Some (Some (clock w))) None).
  set (st1 := update (s_schemeCode scheme) "backfill" u1
                (logInfo (StartingBackfill (s_schemeCode scheme)) st)).
  assert (H1 : sync_state st1 !! (s_schemeCode scheme, "backfill"%string)
               = Some (applyUpdates u1 row)).
  { apply update_lookup. exact Hrow. }
  pose proof (fetchAndStore_outcome w scheme st1) as Hout.
  destruct (fetchAndStore_sync_state w scheme st1) as (Hsync & _).
  destruct (fetchAndStore w scheme st1) as [st2 res]. cbn [fst snd] in *.
  rewrite <- Hsync in H1.
  destruct (raised w scheme) as [message|].
  - subst res. cbn [fst logInfo sync_state].
    eexists. split; [apply update_lookup; exact H1|]. split; reflexivity.
  - destruct Hout as (history & Hh & ->). cbn [fst logInfo sync_state].
    exists history. eexists. split; [exact Hh|].
    split; [apply update_lookup; exact H1|]. split; reflexivity.
Qed.

Lemma backfillScheme_rows (w : World) (scheme : Scheme) (st : State) (row : SyncState) :
  sync_state st !! (s_schemeCode scheme, "backfill"%string) = Some row ->
  backfilledRows w scheme st (fst (backfillScheme w scheme st)).
Proof.
  intros Hrow. unfold backfilledRows. cbv zeta.
  pose proof (backfillScheme_row w scheme st row Hrow) as Hr. cbv zeta in Hr.
  destruct (backfillScheme_tables w scheme st) as (_ & _ & _ & Hn). cbv zeta in Hn.
  destruct (raised w scheme) as [message|].
  - destruct Hr as (r' & Hr' & Hs & He). exists r'.
    split; [exact Hr'|]. split; [exact Hs|]. split; [exact He|].
    intros d. rewrite Hn. reflexivity.
  - destruct Hr as (history & r' & Hh & Hr' & Hs & Ht).
    destruct Hn as (history' & Hh' & Hnav).
    assert (history' = history) by congruence. subst history'.
    exists history, r'. repeat split; assumption.
Qed.

Lemma getSyncState_tables (scheme : Scheme) (st : State) :
  let out := getSyncState (s_schemeCode scheme) "backfill" (Some scheme) st in
  nav_history (fst out) = nav_history st /\
  (forall c, c <> s_schemeCode scheme -> funds (fst out) !! c = funds st !! c) /\
  (is_Some (sync_state st !! (s_schemeCode scheme, "backfill"%string)) -> fst out = st).
Proof.
  cbv zeta. unfold getSyncState, findBySchemeAndType.
  destruct (sync_state st !! (s_schemeCode scheme, "backfill"%string)) as [row|];
    cbn [fst].
  - repeat split; reflexivity.
  - unfold create, upsertFund. cbn [nav_history funds].
    split; [reflexivity|]. split.
    + intros c Hc. apply lookup_insert_ne. congruence.
    + intros [x Hx]. discriminate.
Qed.

(** One iteration of the loop: the rows of the other schemes are kept; those
    of the scheme are kept when it is completed, and are those of a backfill
    from scratch when it is not. *)
Lemma backfillOne_rows (w : World) (scheme : Scheme) (st : State) (results : Results) :
  let out := backfillOne w (st, results) scheme in
  (forall c, c <> s_schemeCode scheme -> rowsKept c st (fst out)) /\
  if isCompleted st scheme
  then rowsKept (s_schemeCode scheme) st (fst out)
  else backfilledRows w scheme st (fst out).
Proof.
  cbv zeta. unfold backfillOne.
  destruct (getSyncState_row scheme st) as (Hrow & Hsome & Hlogs & Hframe & Hkeep & Hnew).
  destruct (getSyncState_tables scheme st) as (Hnav & Hfunds & Hsame).
  cbv zeta in Hrow, Hsome, Hlogs, Hframe, Hkeep, Hnew, Hnav, Hfunds, Hsame.
  destruct (getSyncState (s_schemeCode scheme) "backfill" (Some scheme) st) as [st1 syncState].
  cbn [fst snd] in *.
  destruct syncState as [row|]; [|destruct Hsome as [x Hx]; discriminate].
  assert (Hc : isCompleted st scheme = Status_eqb (status row) Completed).
  { unfold isCompleted.
    destruct (sync_state st !! (s_schemeCode scheme, "backfill"%string)) as [row0|] eqn:E.
    - rewrite Hkeep in Hrow by eauto. rewrite E in Hrow. injection Hrow as ->. reflexivity.
    - destruct (Hnew eq_refl) as (row1 & Hr1 & Hp). injection Hr1 as ->. rewrite Hp. reflexivity. }
  rewrite Hc. destruct (Status_eqb (status row) Completed) eqn:Es.
  - assert (Hst : st1 = st).
    { apply Hsame. unfold isCompleted in Hc.
      destruct (sync_state st !! (s_schemeCode scheme, "backfill"%string)); [eauto|].
      discriminate. }
    subst st1. cbn [fst]. unfold rowsKept. cbn [logInfo sync_state funds nav_history].
    split; [intros c _|]; repeat split; reflexivity.
  - pose proof (backfillScheme_rows w scheme st1 row (eq_sym Hrow)) as Hrows.
    destruct (backfillScheme_tables w scheme st1) as (Tf & Tn & Ts & _).
    cbv zeta in Tf, Tn, Ts.
    destruct (backfillScheme w scheme st1) as [st2 result]. cbn [fst snd] in *.
    assert (Hothers : forall c, c <> s_schemeCode scheme -> rowsKept c st st2).
    { intros c Hne. unfold rowsKept. split; [|split].
      - rewrite Ts by congruence. apply Hframe. congruence.
      - rewrite Tf by exact Hne. apply Hfunds. exact Hne.
      - intros d. rewrite Tn by exact Hne. rewrite Hnav. reflexivity. }
    assert (Hown : backfilledRows w scheme st st2).
    { unfold backfilledRows in *. cbv zeta in *. rewrite <- Hnav. exact Hrows. }
    destruct (success result); cbn [fst]; split; assumption.
Qed.

Lemma rowsKept_trans (code : string) (a b c : State) :
  rowsKept code a b -> rowsKept code b c -> rowsKept code a c.
Proof.
  intros (S1 & F1 & N1) (S2 & F2 & N2). unfold rowsKept.
  split; [congruence|]. split; [congruence|]. intros d. rewrite N2. apply N1.
Qed.

Lemma backfilledRows_before (w : World) (scheme : Scheme) (a b c : State) :
  rowsKept (s_schemeCode scheme) a b -> backfilledRows w scheme b c ->
  backfilledRows w scheme a c.
Proof.
  intros (_ & _ & N) H. unfold backfilledRows in *. cbv zeta in *.
  destruct (raised w scheme) as [message|].
  - destruct H as (row & Hr & Hs & He & Hn). exists row. repeat split; try assumption.
    intros d. rewrite Hn. apply N.
  - destruct H as (history & row & Hh & Hr & Hs & Ht & Hn). exists history, row.
    repeat split; try assumption.
    intros d. rewrite Hn. destruct (recorded history d); [reflexivity|apply N].
Qed.

Lemma backfilledRows_after (w : World) (scheme : Scheme) (a b c : State) :
  backfilledRows w scheme a b -> rowsKept (s_schemeCode scheme) b c ->
  backfilledRows w scheme a c.
Proof.
  intros H (S & _ & N). unfold backfilledRows in *. cbv zeta in *.
  destruct (raised w scheme) as [message|].
  - destruct H as (row & Hr & Hs & He & Hn). exists row. rewrite S.
    repeat split; try assumption. intros d. rewrite N. apply Hn.
  - destruct H as (history & row & Hh & Hr & Hs & Ht & Hn). exists history, row. rewrite S.
    repeat split; try assumption. intros d. rewrite N. apply Hn.
Qed.

(** The whole run, for schemes with distinct codes: every scheme is left as
    its own iteration leaves it. *)
Lemma backfillAll_rows (w : World) (schemes : list Scheme) :
  NoDup (List.map s_schemeCode schemes) ->
  forall st results,
  let out := fold_left (backfillOne w) schemes (st, results) in
  (forall c, ~ In c (List.map s_schemeCode schemes) -> rowsKept c st (fst out)) /\
  (forall s, In s schemes ->
     if isCompleted st s
     then rowsKept (s_schemeCode s) st (fst out)
     else backfilledRows w s st (fst out)).
Proof.
  induction schemes as [|s0 rest IH]; intros Hnd st results; cbv zeta.
  - cbn [fold_left fst]. split; [|intros s []].
    intros c _. unfold rowsKept. repeat split; reflexivity.
  - cbn [List.map] in Hnd. apply NoDup_cons in Hnd. destruct Hnd as (Hnotin & Hnd).
    rewrite list_elem_of_In in Hnotin.
    cbn [fold_left].
    destruct (backfillOne_rows w s0 st results) as (Hothers & Hown). cbv zeta in Hothers, Hown.
    destruct (backfillOne w (st, results) s0) as [st1 results1]. cbn [fst] in *.
    destruct (IH Hnd st1 results1) as (IHout & IHin). cbv zeta in IHout, IHin.
    split.
    + intros c Hc. cbn [List.map In] in Hc.
      apply rowsKept_trans with st1.
      * apply Hothers. intros E. apply Hc. left. symmetry. exact E.
      * apply IHout. intros Hin. apply Hc. right. exact Hin.
    + intros s [<-|Hs].
      * specialize (IHout (s_schemeCode s0) Hnotin).
        destruct (isCompleted st s0).
        -- eapply rowsKept_trans; eassumption.
        -- eapply backfilledRows_after; eassumption.
      * assert (Hne : s_schemeCode s <> s_schemeCode s0).
        { intros E. apply Hnotin. rewrite <- E. apply in_map. exact Hs. }
        pose proof (Hothers _ Hne) as Hkept.
        assert (Hc : isCompleted st1 s = isCompleted st s).
        { apply isCompleted_frame. destruct Hkept as (S & _). exact S. }
        specialize (IHin s Hs). rewrite Hc in IHin.
        destruct (isCompleted st s).
        -- eapply rowsKept_trans; eassumption.
        -- eapply backfilledRows_before; eassumption.
Qed.

(** C7: on a list of schemes with distinct codes, [backfillAllSchemes]
    processes exactly the schemes whose backfill sync-state is not
    [completed] (a missing row is created [pending]): each of them, and no
    other, is fetched from upstream, once, and is left as a backfill from
    scratch leaves it, [completed] with the fetched records stored or [failed]
    with the message of the exception, and is counted as completed or failed
    accordingly.  The completed schemes are skipped and counted as skipped:
    they are not fetched, and their sync-state, fund and NAV rows are left as
    they were.  Each iteration of the loop acts in this way on the status the
    scheme has when its turn comes.  With three schemes in the states
    [completed, failed, pending], exactly the last two are processed and the
    first is skipped. *)
Theorem C7_backfillAllSchemes (w : World) (schemes : list Scheme) (st : State) :
  let out := backfillAllSchemes w schemes st in
  let todo := List.filter (fun s => negb (isCompleted st s)) schemes in
  let done := List.filter (isCompleted st) schemes in
  (NoDup (List.map s_schemeCode schemes) ->
   (processed (logs (fst out)) = processed (logs st) ++ List.map s_schemeCode todo /\
    fetched (logs (fst out)) = fetched (logs st) ++ List.map s_schemeCode todo /\
    skippedSchemes (logs (fst out)) = skippedSchemes (logs st) ++ List.map s_schemeCode done /\
    skipped (snd out) = Z.of_nat (List.length done) /\
    completed (snd out)
    = Z.of_nat (List.length (List.filter (fun s => negb (raises w s)) todo)) /\
    failed (snd out) = Z.of_nat (List.length (List.filter (raises w) todo)) /\
    total (snd out) = Z.of_nat (List.length schemes)) /\
   (forall s, In s done -> rowsKept (s_schemeCode s) st (fst out)) /\
   (forall s, In s todo -> backfilledRows w s st (fst out))) /\
  (forall st0 results0 scheme,
     let one := backfillOne w (st0, results0) scheme in
     if isCompleted st0 scheme
     then processed (logs (fst one)) = processed (logs st0) /\
          fetched (logs (fst one)) = fetched (logs st0) /\
          skippedSchemes (logs (fst one))
            = skippedSchemes (logs st0) ++ [s_schemeCode scheme] /\
          skipped (snd one) = (skipped results0 + 1)%Z /\
          rowsKept (s_schemeCode scheme) st0 (fst one)
     else processed (logs (fst one)) = processed (logs st0) ++ [s_schemeCode scheme] /\
          fetched (logs (fst one)) = fetched (logs st0) ++ [s_schemeCode scheme] /\
          skippedSchemes (logs (fst one)) = skippedSchemes (logs st0) /\
          skipped (snd one) = skipped results0 /\
          backfilledRows w scheme st0 (fst one)) /\
  (forall s1 s2 s3 r1 r2 r3,
     sync_state st !! (s_schemeCode s1, "backfill"%string) = Some r1 ->
     sync_state st !! (s_schemeCode s2, "backfill"%string) = Some r2 ->
     sync_state st !! (s_schemeCode s3, "backfill"%string) = Some r3 ->
     status r1 = Completed -> status r2 = Failed -> status r3 = Pending ->
     let out3 := backfillAllSchemes w [s1; s2; s3] st in
     processed (logs (fst out3))
       = processed (logs st) ++ [s_schemeCode s2; s_schemeCode s3] /\
     fetched (logs (fst out3)) = fetched (logs st) ++ [s_schemeCode s2; s_schemeCode s3] /\
     skippedSchemes (logs (fst out3)) = skippedSchemes (logs st) ++ [s_schemeCode s1] /\
     skipped (snd out3) = 1%Z /\
     (completed (snd out3) + failed (snd out3))%Z = 2%Z /\
     rowsKept (s_schemeCode s1) st (fst out3) /\
     backfilledRows w s2 st (fst out3) /\
     backfilledRows w s3 st (fst out3)).
Proof.
  assert (Hgen : forall l, NoDup (List.map s_schemeCode l) ->
    let out := backfillAllSchemes w l st in
    let todo := List.filter (fun s => negb (isCompleted st s)) l in
    let done := List.filter (isCompleted st) l in
    (processed (logs (fst out)) = processed (logs st) ++ List.map s_schemeCode todo /\
     fetched (logs (fst out)) = fetched (logs st) ++ List.map s_schemeCode todo /\
     skippedSchemes (logs (fst out)) = skippedSchemes (logs st) ++ List.map s_schemeCode done /\
     skipped (snd out) = Z.of_nat (List.length done) /\
     completed (snd out)
     = Z.of_nat (List.length (List.filter (fun s => negb (raises w s)) todo)) /\
     failed (snd out) = Z.of_nat (List.length (List.filter (raises w) todo)) /\
     total (snd out) = Z.of_nat (List.length l)) /\
    (forall s, In s done -> rowsKept (s_schemeCode s) st (fst out)) /\
    (forall s, In s todo -> backfilledRows w s st (fst out))).
  { intros l Hl. cbv zeta. unfold backfillAllSchemes.
    set (results0 := mkResults (Z.of_nat (List.length l)) 0 0 0 []).
    destruct (backfillAll_fold w l Hl st results0) as (P1 & P2 & P3 & P4 & P5 & P6 & P7).
    destruct (backfillAll_rows w l Hl st results0) as (_ & Hrows).
    cbv zeta in P1, P2, P3, P4, P5, P6, P7, Hrows.
    cbn [skipped completed failed total results0] in P4, P5, P6, P7.
    split; [repeat split; [exact P1 | exact P2 | exact P3 | lia | lia | lia | exact P7]|].
    split.
    - intros s Hs. apply List.filter_In in Hs. destruct Hs as (Hin & Hc).
      specialize (Hrows s Hin). rewrite Hc in Hrows. exact Hrows.
    - intros s Hs. apply List.filter_In in Hs. destruct Hs as (Hin & Hc).
      apply negb_true_iff in Hc.
      specialize (Hrows s Hin). rewrite Hc in Hrows. exact Hrows. }
  cbv zeta. split; [intros Hnd; exact (Hgen schemes Hnd)|]. split.
  { intros st0 results0 scheme.
    destruct (backfillOne_spec w scheme st0 results0) as (_ & _ & Hcase). cbv zeta in Hcase.
    destruct (backfillOne_rows w scheme st0 results0) as (_ & Hrows). cbv zeta in Hrows.
    destruct (isCompleted st0 scheme).
    - destruct Hcase as (Q1 & Q2 & Q3 & Q4 & _). repeat split; try assumption;
        apply Hrows.
    - destruct Hcase as (Q1 & Q2 & Q3 & Q4 & _). repeat split; assumption. }
  intros s1 s2 s3 r1 r2 r3 H1 H2 H3 E1 E2 E3.
  assert (C1 : isCompleted st s1 = true) by (unfold isCompleted; rewrite H1, E1; reflexivity).
  assert (C2 : isCompleted st s2 = false) by (unfold isCompleted; rewrite H2, E2; reflexivity).
  assert (C3 : isCompleted st s3 = false) by (unfold isCompleted; rewrite H3, E3; reflexivity).
  assert (Hnd3 : NoDup (List.map s_schemeCode [s1; s2; s3])).
  { cbn [List.map].
    assert (s_schemeCode s1 <> s_schemeCode s2) by (intros E; rewrite E in H1; congruence).
    assert (s_schemeCode s1 <> s_schemeCode s3) by (intros E; rewrite E in H1; congruence).
    assert (s_schemeCode s2 <> s_schemeCode s3) by (intros E; rewrite E in H2; congruence).
    repeat constructor; rewrite ?list_elem_of_In; cbn [In]; intuition congruence. }
  destruct (Hgen _ Hnd3) as ((P1 & P2 & P3 & P4 & P5 & P6 & _) & R1 & R2).
  cbv zeta in P1, P2, P3, P4, P5, P6, R1, R2.
  cbn [List.filter] in P1, P2, P3, P4, P5, P6, R1, R2.
  rewrite C1, C2, C3 in P1, P2, P3, P4, P5, P6, R1, R2.
  cbn [negb List.map List.length List.filter] in P1, P2, P3, P4, P5, P6, R1, R2.
  split; [exact P1|]. split; [exact P2|]. split; [exact P3|]. split; [exact P4|].
  split.
  { rewrite P5, P6. destruct (raises w s2), (raises w s3); reflexivity. }
  split; [apply R1; left; reflexivity|].
  split; [apply R2; left; reflexivity|apply R2; right; left; reflexivity].
Qed.

Lemma C7_backfillAllSchemes_witness :
  let out := backfillAllSchemes fixtureWorld fixtureSchemes fixtureState in
  let todo := List.filter (fun s => negb (isCompleted fixtureState s)) fixtureSchemes in
  let done := List.filter (isCompleted fixtureState) fixtureSchemes in
  (processed (logs (fst out)) = processed (logs fixtureState) ++ List.map s_schemeCode todo /\
   fetched (logs (fst out)) = fetched (logs fixtureState) ++ List.map s_schemeCode todo /\
   skippedSchemes (logs (fst out))
     = skippedSchemes (logs fixtureState) ++ List.map s_schemeCode done /\
   skipped (snd out) = Z.of_nat (List.length done) /\
   completed (snd out)
   = Z.of_nat (List.length (List.filter (fun s => negb (raises fixtureWorld s)) todo)) /\
   failed (snd out) = Z.of_nat (List.length (List.filter (raises fixtureWorld) todo)) /\
   total (snd out) = Z.of_nat (List.length fixtureSchemes)) /\
  (forall s, In s done -> rowsKept (s_schemeCode s) fixtureState (fst out)) /\
  (forall s, In s todo -> backfilledRows fixtureWorld s fixtureState (fst out)).
Proof.
  assert (Hnd : NoDup (List.map s_schemeCode fixtureSchemes)).
  { apply (bool_decide_unpack _). vm_compute. reflexivity. }
  pose proof (C7_backfillAllSchemes fixtureWorld fixtureSchemes fixtureState) as (H & _).
  exact (H Hnd).
Defined.

(** The run of the fixture, evaluated: the completed scheme is skipped and
    not fetched, the two others are fetched and completed, and their two NAVs
    are stored. *)
Example resume_fixture :
  let out := backfillAllSchemes fixtureWorld fixtureSchemes fixtureState in
  logs (fst out) =
    [ SkippingCompleted "118989";
      StartingBackfill "120596"; GetSchemeData "120596"; BackfillCompleted "120596";
      StartingBackfill "125354"; GetSchemeData "125354"; BackfillCompleted "125354" ] /\
  snd out = mkResults 3 2 0 1 [] /\
  nav_history (fst out) !! ("118989", "2024-01-03")%string = None /\
  nav_history (fst out) !! ("120596", "2024-01-03")%string = Some (JNum (12 + 5 / 10)) /\
  nav_history (fst out) !! ("125354", "2024-01-02")%string = Some (JNum (12 + 25 / 100)).
Proof. vm_compute. repeat split; reflexivity. Qed.

End BackfillRowsFacts.

(** ** Incremental sync *)

Section IncrementalSyncFacts.
Import JS MfApiClient Backfill IncrementalSync.

(** *** The latest date of a scheme *)

Lemma schemeDates_In (code : string) (st : State) (d : string) :
  In d (schemeDates code st) <-> exists v, nav_history st !! (code, d) = Some v.
Proof.
  unfold schemeDates. rewrite in_map_iff. split.
  - intros ([[c d'] v] & Hd & Hin). cbn [fst snd] in Hd. subst d'.
    apply List.filter_In in Hin. destruct Hin as (Hin & Hc). cbn [fst] in Hc.
    apply String.eqb_eq in Hc. subst c.
    exists v. apply elem_of_map_to_list. apply list_elem_of_In. exact Hin.
  - intros (v & Hv). exists ((code, d), v). split; [reflexivity|].
    apply List.filter_In. split.
    + apply list_elem_of_In. apply elem_of_map_to_list. exact Hv.
    + cbn [fst]. apply String.eqb_refl.
Qed.

Lemma laterDate_ge (a b : string) :
  String.compare a (laterDate a b) <> Gt /\ String.compare b (laterDate a b) <> Gt /\
  (laterDate a b = a \/ laterDate a b = b).
Proof.
  unfold laterDate. destruct (String.compare a b) eqn:E.
  - split; [rewrite string_compare_refl; discriminate|].
    split; [rewrite String.compare_antisym, E; discriminate|left; reflexivity].
  - split; [congruence|]. split; [rewrite string_compare_refl; discriminate|right; reflexivity].
  - split; [rewrite string_compare_refl; discriminate|].
    split; [apply string_le_total; exact E|left; reflexivity].
Qed.

Lemma latest_of_list (ds : list string) :
  forall d,
  In (fold_left laterDate ds d) (d :: ds) /\
  forall x, In x (d :: ds) -> String.compare x (fold_left laterDate ds d) <> Gt.
Proof.
  induction ds as [|e ds IH]; intros d.
  - cbn [fold_left]. split; [left; reflexivity|].
    intros x [<-|[]]. rewrite string_compare_refl. discriminate.
  - cbn [fold_left]. destruct (IH (laterDate d e)) as (Hin & Hmax).
    destruct (laterDate_ge d e) as (Hd & He & Hcase).
    split.
    + destruct Hin as [Hin|Hin]; [|right; right; exact Hin].
      rewrite <- Hin. destruct Hcase as [->| ->]; [left; reflexivity|right; left; reflexivity].
    + intros x [<-|[<-|Hx]].
      * eapply string_le_trans; [exact Hd|]. apply Hmax. left. reflexivity.
      * eapply string_le_trans; [exact He|]. apply Hmax. left. reflexivity.
      * apply Hmax. right. exact Hx.
Qed.

Lemma findLatestDate_spec (code : string) (st : State) :
  datedRows code st -> isLatest code st (findLatestDate code st).
Proof.
  intros Hdated. unfold findLatestDate, isLatest.
  destruct (schemeDates code st) as [|d ds] eqn:E.
  - intros d. destruct (nav_history st !! (code, d)) as [v|] eqn:Ev; [|reflexivity].
    assert (Hin : In d (schemeDates code st)) by (apply schemeDates_In; eauto).
    rewrite E in Hin. destruct Hin.
  - cbv zeta. destruct (latest_of_list ds d) as (Hin & Hmax).
    rewrite <- E in Hin. apply schemeDates_In in Hin. destruct Hin as (v & Hv).
    destruct (String.eqb_spec (fold_left laterDate ds d) "") as [Hempty|_].
    + exfalso. apply (Hdated _ _ Hv). exact Hempty.
    + split; [exists v; exact Hv|].
      intros x vx Hx. apply Hmax. rewrite <- E. apply schemeDates_In. eauto.
Qed.

Lemma string_le_antisym (a b : string) :
  String.compare a b <> Gt -> String.compare b a <> Gt -> a = b.
Proof.
  intros Hab Hba. apply String.compare_eq_iff.
  rewrite String.compare_antisym in Hba.
  destruct (String.compare a b); [reflexivity|cbn in Hba; congruence|congruence].
Qed.

Lemma isLatest_unique (code : string) (st : State) (a b : option string) :
  isLatest code st a -> isLatest code st b -> a = b.
Proof.
  destruct a as [x|], b as [y|]; cbn [isLatest].
  - intros ((vx & Hx) & Mx) ((vy & Hy) & My). f_equal.
    apply string_le_antisym; [eapply My; exact Hx|eapply Mx; exact Hy].
  - intros ((vx & Hx) & _) Hnone. rewrite Hnone in Hx. discriminate.
  - intros Hnone ((vy & Hy) & _). rewrite Hnone in Hy. discriminate.
  - reflexivity.
Qed.

(** *** What the sync writes *)

Lemma recorded_Some (history : list NavRecord) (d : string) (v : jsval) :
  recorded history d = Some v -> exists r, In r history /\ date r = d.
Proof.
  induction history as [|r history IH] using rev_ind; [discriminate|].
  rewrite recorded_snoc. destruct (String.eqb_spec (date r) d) as [Hd|_].
  - intros _. exists r. split; [apply in_or_app; right; left; reflexivity|exact Hd].
  - intros H. destruct (IH H) as (r' & Hr' & Hd'). exists r'.
    split; [apply in_or_app; left; exact Hr'|exact Hd'].
Qed.

Lemma recorded_In (history : list NavRecord) (r : NavRecord) :
  In r history -> exists v, recorded history (date r) = Some v.
Proof.
  induction history as [|r' history IH] using rev_ind; [intros []|].
  intros Hin. rewrite recorded_snoc.
  destruct (String.eqb (date r') (date r)) eqn:E; [eauto|].
  apply in_app_or in Hin. destruct Hin as [Hin|[->|[]]]; [apply IH; exact Hin|].
  rewrite String.eqb_refl in E. discriminate.
Qed.

(** The records found new are later than every row of the scheme. *)
Lemma new_records_later (code : string) (st : State) (history : list NavRecord) :
  datedRows code st ->
  let new := match findLatestDate code st with
             | Some d => List.filter (newerThan d) history
             | None => history
             end in
  forall r d v, In r new -> nav_history st !! (code, d) = Some v ->
    String.compare (date r) d = Gt.
Proof.
  intros Hdated new r d v Hr Hv. subst new.
  pose proof (findLatestDate_spec code st Hdated) as Hspec.
  destruct (findLatestDate code st) as [m|]; cbn [isLatest] in Hspec.
  - destruct Hspec as (_ & Hmax). apply List.filter_In in Hr. destruct Hr as (_ & Hnew).
    unfold newerThan in Hnew.
    destruct (String.compare (date r) m) eqn:E; try discriminate.
    specialize (Hmax d v Hv).
    destruct (String.compare (date r) d) eqn:E2; [| |reflexivity]; exfalso.
    + apply String.compare_eq_iff in E2. rewrite <- E2 in Hmax. congruence.
    + apply (string_le_trans (date r) d m); congruence.
  - rewrite Hspec in Hv. discriminate.
Qed.

Lemma fetchNew_tables (w : World) (code : string) (st st1 : State) :
  nav_history st1 = nav_history st ->
  let out := fetchNew w code (findLatestDate code st) st1 in
  funds (fst out) = funds st1 /\ sync_state (fst out) = sync_state st1 /\
  match snd out with
  | Returned new =>
    newHistory w code st = Some new /\
    nav_history (fst out)
    = fold_left (fun m r => <[(code, date r) := nav r]> m) new (nav_history st)
  | Thrown _ => nav_history (fst out) = nav_history st
  end.
Proof.
  intros Hnav. cbv zeta. unfold fetchNew, newHistory.
  destruct (getSchemeData w code) as [apiData|e]; [|repeat split; exact Hnav].
  destruct (normalizeSchemeData apiData) as [sd|e]; [|repeat split; exact Hnav].
  cbv zeta.
  destruct (match findLatestDate code st with
            | Some d => List.filter (newerThan d) (navHistory sd)
            | None => navHistory sd
            end) as [|r rs] eqn:E.
  - cbn [fst snd]. repeat split. cbn [fold_left]. exact Hnav.
  - destruct (navWriteFault w code) as [e|]; cbn [fst snd].
    + repeat split. exact Hnav.
    + unfold upsertNavHistory. cbn [funds sync_state nav_history]. rewrite Hnav.
      repeat split.
Qed.

(** X17: the incremental sync never rewrites a NAV row.  When no row of the
    scheme has an empty date, every row that is in [nav_history] before
    [syncScheme], of this scheme or another, is there unchanged after it,
    whether the sync succeeds or fails; and the [funds] table is as it was. *)
Theorem X17_sync_keeps_rows (w : World) (code : string) (st : State) :
  datedRows code st ->
  let out := syncScheme w code st in
  funds (fst out) = funds st /\
  forall k v, nav_history st !! k = Some v -> nav_history (fst out) !! k = Some v.
Proof.
  intros Hdated. cbv zeta. unfold syncScheme. cbv zeta. unfold updateSyncState, getLatestNavDate.
  set (st1 := update code "incremental" _ st).
  destruct (fetchNew_tables w code st st1 eq_refl) as (Hf & _ & Hn). cbv zeta in Hf, Hn.
  pose proof (new_records_later code st) as Hlater.
  unfold newHistory in Hn.
  destruct (fetchNew w code (findLatestDate code st) st1) as [st2 [new|message]];
    cbn [fst snd] in *.
  - split; [exact Hf|]. intros [c d] v Hv. cbn [nav_history update].
    destruct Hn as (Hnew & ->). rewrite upsert_lookup.
    destruct (String.eqb_spec c code) as [->|_]; [|exact Hv].
    destruct (recorded new d) as [v'|] eqn:Er; [|exact Hv].
    exfalso. apply recorded_Some in Er. destruct Er as (r & Hr & Hd).
    destruct (getSchemeData w code) as [apiData|]; [|discriminate].
    destruct (normalizeSchemeData apiData) as [sd|]; [|discriminate].
    injection Hnew as Hnew. rewrite <- Hnew in Hr.
    specialize (Hlater (navHistory sd) Hdated r d v Hr Hv).
    rewrite Hd, string_compare_refl in Hlater. discriminate.
  - split; [exact Hf|]. intros k v Hv. cbn [nav_history update]. rewrite Hn. exact Hv.
Qed.

Lemma X17_sync_keeps_rows_witness :
  let st := mkState ∅ {[ ("118989", "2024-01-02")%string := JNum 12 ]}
              {[ ("118989", "incremental")%string := mkSyncState Pending None 0 None None None ]}
              [] in
  let out := syncScheme fixtureWorld "118989" st in
  funds (fst out) = funds st /\
  forall k v, nav_history st !! k = Some v -> nav_history (fst out) !! k = Some v.
Proof.
  apply (X17_sync_keeps_rows fixtureWorld "118989"
           (mkState ∅ {[ ("118989", "2024-01-02")%string := JNum 12 ]}
              {[ ("118989", "incremental")%string := mkSyncState Pending None 0 None None None ]}
              [])).
  intros d v H E. subst d. vm_compute in H. discriminate H.
Defined.

(** In that state the sync stores the one record later than the row it
    finds, and leaves the row with the NAV it had. *)
Example sync_fixture :
  let st := mkState ∅ {[ ("118989", "2024-01-02")%string := JNum 12 ]}
              {[ ("118989", "incremental")%string := mkSyncState Pending None 0 None None None ]}
              [] in
  let out := syncScheme fixtureWorld "118989" st in
  newRecords (snd out) = 1%Z /\
  nav_history (fst out) !! ("118989", "2024-01-02")%string = Some (JNum 12) /\
  findLatestDate "118989" (fst out) = Some "2024-01-03"%string /\
  countByScheme "118989" (fst out) = 2%Z.
Proof. cbv zeta. split; [|split; [|split]]; vm_compute; reflexivity. Qed.

(** *** The sync-state a sync leaves *)

Lemma parseNavDate_not_empty (s : string) : parseNavDate s <> ""%string.
Proof.
  unfold parseNavDate. cbv zeta. apply append_not_empty. discriminate.
Qed.

Lemma normalized_dates (apiData : ApiResponse) (sd : SchemeData) :
  normalizeSchemeData apiData = Returned sd ->
  StronglySorted dateLe (navHistory sd) /\
  forall r, In r (navHistory sd) -> date r <> ""%string.
Proof.
  unfold normalizeSchemeData. destruct (meta apiData); [|discriminate].
  intros H. injection H as <-. cbn [navHistory]. split; [apply sortByDate_sorted|].
  intros r Hr. apply (proj1 (sortByDate_In _ _)) in Hr. apply in_map_iff in Hr.
  destruct Hr as (item & <- & _). cbn [date]. apply parseNavDate_not_empty.
Qed.

Lemma filter_sorted (f : NavRecord -> bool) (l : list NavRecord) :
  StronglySorted dateLe l -> StronglySorted dateLe (List.filter f l).
Proof.
  induction 1 as [|x l Hs IH Hx]; cbn [List.filter]; [constructor|].
  destruct (f x); [|exact IH]. constructor; [exact IH|].
  apply List.Forall_forall. intros y Hy. apply List.filter_In in Hy.
  rewrite List.Forall_forall in Hx. apply Hx. tauto.
Qed.

Lemma newHistory_spec (w : World) (code : string) (st : State) (new : list NavRecord) :
  newHistory w code st = Some new ->
  StronglySorted dateLe new /\ forall r, In r new -> date r <> ""%string.
Proof.
  unfold newHistory.
  destruct (getSchemeData w code) as [apiData|]; [|discriminate].
  destruct (normalizeSchemeData apiData) as [sd|] eqn:E; [|discriminate].
  destruct (normalized_dates apiData sd E) as (Hs & Hd).
  intros H. injection H as <-.
  destruct (findLatestDate code st) as [m|]; [|split; assumption].
  split; [apply filter_sorted; exact Hs|].
  intros r Hr. apply List.filter_In in Hr. apply Hd. tauto.
Qed.

Lemma isLatest_tables (code : string) (a b : State) (o : option string) :
  nav_history a = nav_history b -> isLatest code a o -> isLatest code b o.
Proof. intros H. unfold isLatest. rewrite H. tauto. Qed.

Lemma findLatestDate_tables (code : string) (a b : State) :
  nav_history a = nav_history b -> findLatestDate code a = findLatestDate code b.
Proof. intros H. unfold findLatestDate, schemeDates. rewrite H. reflexivity. Qed.

Lemma countByScheme_tables (code : string) (a b : State) :
  nav_history a = nav_history b -> countByScheme code a = countByScheme code b.
Proof. intros H. unfold countByScheme, schemeDates. rewrite H. reflexivity. Qed.

(** After the new records are written, the latest date is the date of the
    last of them, or the latest date there was. *)
Lemma latest_after (w : World) (code : string) (st st' : State) (new : list NavRecord) :
  datedRows code st ->
  newHistory w code st = Some new ->
  nav_history st' = fold_left (fun m r => <[(code, date r) := nav r]> m) new (nav_history st) ->
  datedRows code st' /\
  isLatest code st'
    match new with
    | [] => findLatestDate code st
    | first :: _ => Some (date (List.last new first))
    end.
Proof.
  intros Hdated Hnew Hnav.
  destruct (newHistory_spec w code st new Hnew) as (Hsorted & Hdates).
  assert (Hlater : forall r d v, In r new -> nav_history st !! (code, d) = Some v ->
            String.compare (date r) d = Gt).
  { unfold newHistory in Hnew.
    destruct (getSchemeData w code) as [apiData|]; [|discriminate].
    destruct (normalizeSchemeData apiData) as [sd|]; [|discriminate].
    injection Hnew as <-. apply new_records_later. exact Hdated. }
  assert (Hrow : forall d v, nav_history st' !! (code, d) = Some v ->
            (exists r, In r new /\ date r = d) \/ nav_history st !! (code, d) = Some v).
  { intros d v. rewrite Hnav, upsert_lookup, String.eqb_refl.
    destruct (recorded new d) as [v'|] eqn:Er; [|right; assumption].
    intros _. left. eapply recorded_Some. exact Er. }
  split.
  - intros d v Hv. destruct (Hrow d v Hv) as [(r & Hr & <-)|Hold].
    + apply Hdates. exact Hr.
    + eapply Hdated. exact Hold.
  - destruct new as [|first rest].
    + apply (isLatest_tables code st st'); [symmetry; exact Hnav|].
      apply findLatestDate_spec. exact Hdated.
    + set (new := first :: rest) in *. cbn [isLatest]. split.
      * destruct (recorded_In new (List.last new first)) as (v & Hv); [apply last_In|].
        exists v. rewrite Hnav, upsert_lookup, String.eqb_refl, Hv. reflexivity.
      * intros d v Hv. destruct (Hrow d v Hv) as [(r & Hr & <-)|Hold].
        -- apply (sorted_last_max new Hsorted first r Hr).
        -- apply string_le_total. eapply Hlater; [apply last_In|exact Hold].
Qed.

(** X18: the sync-state an incremental sync leaves.  When the scheme's
    incremental sync-state row exists and no row of the scheme has an empty
    date: after a successful [syncScheme] the row is [completed], its
    [last_synced_date] is the greatest [nav_date] the scheme has in
    [nav_history] and its [total_records] the number of the scheme's rows
    there, and [newRecords] counts the records found new; after a failed one
    the row is [failed] with the message of the exception, and [nav_history]
    is as it was. *)
Theorem X18_sync_state_after (w : World) (code : string) (st : State) (row : SyncState) :
  datedRows code st ->
  sync_state st !! (code, "incremental"%string) = Some row ->
  let out := syncScheme w code st in
  exists row', sync_state (fst out) !! (code, "incremental"%string) = Some row' /\
    if sync_success (snd out)
    then
      status row' = Completed /\
      last_synced_date row' = findLatestDate code (fst out) /\
      total_records row' = countByScheme code (fst out) /\
      exists new, newHistory w code st = Some new /\
        newRecords (snd out) = Z.of_nat (List.length new)
    else
      status row' = Failed /\
      (exists message, sync_error (snd out) = Some message /\
         error_message row' = Some message) /\
      nav_history (fst out) = nav_history st.
Proof.
  intros Hdated Hrow. cbv zeta. unfold syncScheme. cbv zeta.
  unfold updateSyncState, getLatestNavDate, getNavCount.
  set (u1 := mkUpdates (Some InProgress) None None (Some None) (Some (Some (clock w))) None).
  set (st1 := update code "incremental" u1 st).
  assert (H1 : sync_state st1 !! (code, "incremental"%string) = Some (applyUpdates u1 row)).
  { apply update_lookup. exact Hrow. }
  destruct (fetchNew_tables w code st st1 eq_refl) as (_ & Hs & Hn). cbv zeta in Hs, Hn.
  destruct (fetchNew w code (findLatestDate code st) st1) as [st2 [new|message]];
    cbn [fst snd] in *.
  - destruct Hn as (Hnew & Hnav). rewrite <- Hs in H1.
    eexists. split; [apply update_lookup; exact H1|].
    cbn [sync_success applyUpdates status last_synced_date total_records
         u_status u_lastSyncedDate u_totalRecords newRecords].
    set (final := update code "incremental" _ st2).
    assert (Hfinal : nav_history final = nav_history st2) by reflexivity.
    destruct (latest_after w code st st2 new Hdated Hnew Hnav) as (Hdated2 & Hlatest).
    split; [reflexivity|]. split; [|split].
    + apply (isLatest_unique code st2); [exact Hlatest|].
      rewrite (findLatestDate_tables code final st2 Hfinal).
      apply findLatestDate_spec. exact Hdated2.
    + symmetry. apply countByScheme_tables. exact Hfinal.
    + exists new. split; [exact Hnew|reflexivity].
  - rewrite <- Hs in H1.
    eexists. split; [apply update_lookup; exact H1|].
    cbn [sync_success applyUpdates status error_message u_status u_errorMessage sync_error
         nav_history update].
    split; [reflexivity|]. split; [|exact Hn]. exists message. split; reflexivity.
Qed.

Lemma X18_sync_state_after_witness :
  let st := mkState ∅ {[ ("118989", "2024-01-02")%string := JNum 12 ]}
              {[ ("118989", "incremental")%string := mkSyncState Pending None 0 None None None ]}
              [] in
  let out := syncScheme fixtureWorld "118989" st in
  exists row', sync_state (fst out) !! ("118989", "incremental")%string = Some row' /\
    if sync_success (snd out)
    then
      status row' = Completed /\
      last_synced_date row' = findLatestDate "118989" (fst out) /\
      total_records row' = countByScheme "118989" (fst out) /\
      exists new, newHistory fixtureWorld "118989" st = Some new /\
        newRecords (snd out) = Z.of_nat (List.length new)
    else
      status row' = Failed /\
      (exists message, sync_error (snd out) = Some message /\
         error_message row' = Some message) /\
      nav_history (fst out) = nav_history st.
Proof.
  apply (X18_sync_state_after fixtureWorld "118989"
           (mkState ∅ {[ ("118989", "2024-01-02")%string := JNum 12 ]}
              {[ ("118989", "incremental")%string := mkSyncState Pending None 0 None None None ]}
              [])
           (mkSyncState Pending None 0 None None None)).
  - intros d v H E. subst d. vm_compute in H. discriminate H.
  - vm_compute. reflexivity.
Defined.

End IncrementalSyncFacts.

(** ** Upstream client: dates and histories in any order *)

Section NormalizeFacts.
Import JS MfApiClient Backfill.

(** X19: [parseNavDate] swaps the first and the third of three
    hyphen-separated parts, so applying it twice gives the string back; a
    string without hyphen is not rejected: it comes back behind
    ["undefined-undefined-"]. *)
Theorem X19_parseNavDate (a b c : string) :
  noHyphen a = true -> noHyphen b = true -> noHyphen c = true ->
  parseNavDate (a ++ "-" ++ b ++ "-" ++ c) = (c ++ "-" ++ b ++ "-" ++ a)%string /\
  parseNavDate (parseNavDate (a ++ "-" ++ b ++ "-" ++ c)) = (a ++ "-" ++ b ++ "-" ++ c)%string /\
  parseNavDate a = ("undefined-undefined-" ++ a)%string.
Proof.
  intros Ha Hb Hc. split; [|split].
  - apply parseNavDate_parts; assumption.
  - rewrite (parseNavDate_parts a b c Ha Hb Hc). apply parseNavDate_parts; assumption.
  - unfold parseNavDate. rewrite (split_noHyphen a Ha). reflexivity.
Qed.

Lemma X19_parseNavDate_witness :
  parseNavDate ("03" ++ "-" ++ "01" ++ "-" ++ "2024") = ("2024" ++ "-" ++ "01" ++ "-" ++ "03")%string /\
  parseNavDate (parseNavDate ("03" ++ "-" ++ "01" ++ "-" ++ "2024"))
  = ("03" ++ "-" ++ "01" ++ "-" ++ "2024")%string /\
  parseNavDate "03" = ("undefined-undefined-" ++ "03")%string.
Proof. apply (X19_parseNavDate "03" "01" "2024"); reflexivity. Defined.





(** An upstream array in no particular order, one NAV unparsable. *)
Example normalize_unordered :
  exists sd,
    normalizeSchemeData
      (mkResponse (Some (mkMeta "Fund House" "Open Ended" "Equity" "1" "Scheme"))
         (Some [mkItem "02-01-2024" "12.25"; mkItem "05-01-2024" "N.A."; mkItem "03-01-2024" "12.5"]))
    = Returned sd /\
    List.map date (navHistory sd) = ["2024-01-02"; "2024-01-03"; "2024-01-05"]%string /\
    List.map nav (navHistory sd) = [JNum (1225 # 100); JNum (125 # 10); JNaN].
Proof. eexists. split; [reflexivity|]. split; vm_compute; reflexivity. Qed.

End NormalizeFacts.

(** ** Scheme discovery *)

Section SchemeDiscoveryFacts.
Import JS SchemeDiscovery.

Variable toLowerCase : string -> string.

Lemma findAmc_found (name : string) (amcs : list string) :
  existsb (fun amc => includes name (toLowerCase amc)) amcs = true ->
  In (findAmc toLowerCase name amcs) amcs /\
  includes name (toLowerCase (findAmc toLowerCase name amcs)) = true.
Proof.
  induction amcs as [|a amcs IH]; [discriminate|].
  cbn [existsb findAmc]. destruct (includes name (toLowerCase a)) eqn:E.
  - intros _. split; [left; reflexivity|exact E].
  - cbn [orb]. intros H. destruct (IH H) as (Hin & Hinc). split; [right; exact Hin|exact Hinc].
Qed.

(** X21: a discovered scheme is never categorized ['Unknown'].  With
    [toLowerCase] taking ["Mid Cap"] and ["Small Cap"] to ["mid cap"] and
    ["small cap"], every scheme [discoverSchemes] returns is one of the
    upstream list, with the code and the name it has there; its [amc] is one
    of the configured AMCs and its lower-cased name includes that AMC
    lower-cased; its [category] is ['Mid Cap Direct Growth'] exactly when the
    lower-cased name includes ["mid cap"] and ['Small Cap Direct Growth']
    otherwise, and the name then includes ["small cap"]; the name includes
    ["Direct"] and ["Growth"] lower-cased. *)
Theorem X21_discovered_schemes (allSchemes : list ApiScheme) (s : CategorizedScheme) :
  toLowerCase "Mid Cap" = "mid cap"%string ->
  toLowerCase "Small Cap" = "small cap"%string ->
  In s (discoverSchemes toLowerCase allSchemes) ->
  exists scheme, In scheme allSchemes /\
    cs_schemeCode s = api_schemeCode scheme /\
    cs_schemeName s = api_schemeName scheme /\
    In (cs_amc s) (amcs schemeFilters) /\
    includes (lowerName toLowerCase scheme) (toLowerCase (cs_amc s)) = true /\
    includes (lowerName toLowerCase scheme) (toLowerCase "Direct") = true /\
    includes (lowerName toLowerCase scheme) (toLowerCase "Growth") = true /\
    (if includes (lowerName toLowerCase scheme) "mid cap"
     then cs_category s = "Mid Cap Direct Growth"%string
     else cs_category s = "Small Cap Direct Growth"%string /\
          includes (lowerName toLowerCase scheme) "small cap" = true).
Proof.
  intros Hmid Hsmall Hs. unfold discoverSchemes in Hs. cbv zeta in Hs.
  apply in_map_iff in Hs. destruct Hs as (scheme & <- & Hin).
  unfold filterSchemes in Hin. apply List.filter_In in Hin. destruct Hin as (Hall & Hkeep).
  cbv zeta in Hkeep.
  destruct (existsb (fun amc => includes (lowerName toLowerCase scheme) (toLowerCase amc))
                    (amcs schemeFilters)) eqn:Eamc; [|discriminate].
  cbn [negb] in Hkeep.
  destruct (existsb (fun cat => includes (lowerName toLowerCase scheme) (toLowerCase cat))
                    (categories schemeFilters)) eqn:Ecat; [|discriminate].
  cbn [negb] in Hkeep.
  cbn [schemeFilters categories existsb] in Ecat. rewrite Hmid, Hsmall, orb_false_r in Ecat.
  cbn [schemeFilters mustInclude forallb] in Hkeep. rewrite andb_true_r in Hkeep.
  apply andb_true_iff in Hkeep. destruct Hkeep as (Hdirect & Hgrowth).
  destruct (findAmc_found _ _ Eamc) as (Hamc & Hinc).
  exists scheme. unfold categorizeScheme. cbv zeta.
  cbn [cs_schemeCode cs_schemeName cs_amc cs_category].
  split; [exact Hall|]. split; [reflexivity|]. split; [reflexivity|].
  split; [exact Hamc|]. split; [exact Hinc|]. split; [exact Hdirect|]. split; [exact Hgrowth|].
  apply orb_true_iff in Ecat.
  destruct (includes (lowerName toLowerCase scheme) "mid cap"); [reflexivity|].
  destruct Ecat as [E|E]; [discriminate|]. rewrite E. split; reflexivity.
Qed.

End SchemeDiscoveryFacts.

Section SchemeGroupingFacts.
Import JS SchemeDiscovery.

Lemma X21_discovered_schemes_witness :
  exists scheme,
    In scheme [mkApiScheme (JNum 101) (Some "HDFC Mid Cap Small Cap Fund - Direct Plan - Growth");
               mkApiScheme (JNum 102) (Some "HDFC Mid Cap Fund - Regular - Growth");
               mkApiScheme (JNum 103) None] /\
    cs_schemeCode (mkCategorized (JNum 101)
                     (Some "HDFC Mid Cap Small Cap Fund - Direct Plan - Growth")
                     "HDFC" "Mid Cap Direct Growth") = api_schemeCode scheme /\
    cs_schemeName (mkCategorized (JNum 101)
                     (Some "HDFC Mid Cap Small Cap Fund - Direct Plan - Growth")
                     "HDFC" "Mid Cap Direct Growth") = api_schemeName scheme /\
    In "HDFC"%string (amcs schemeFilters) /\
    includes (lowerName asciiLowerCase scheme) (asciiLowerCase "HDFC") = true /\
    includes (lowerName asciiLowerCase scheme) (asciiLowerCase "Direct") = true /\
    includes (lowerName asciiLowerCase scheme) (asciiLowerCase "Growth") = true /\
    (if includes (lowerName asciiLowerCase scheme) "mid cap"
     then "Mid Cap Direct Growth"%string = "Mid Cap Direct Growth"%string
     else "Mid Cap Direct Growth"%string = "Small Cap Direct Growth"%string /\
          includes (lowerName asciiLowerCase scheme) "small cap" = true).
Proof.
  apply (X21_discovered_schemes asciiLowerCase
           [mkApiScheme (JNum 101) (Some "HDFC Mid Cap Small Cap Fund - Direct Plan - Growth");
            mkApiScheme (JNum 102) (Some "HDFC Mid Cap Fund - Regular - Growth");
            mkApiScheme (JNum 103) None]
           (mkCategorized (JNum 101)
              (Some "HDFC Mid Cap Small Cap Fund - Direct Plan - Growth")
              "HDFC" "Mid Cap Direct Growth")).
  - reflexivity.
  - reflexivity.
  - vm_compute. left. reflexivity.
Defined.

(** The regular plan and the scheme without a name are not discovered. *)
Example discover_fixture :
  discoverSchemes asciiLowerCase
    [mkApiScheme (JNum 101) (Some "HDFC Mid Cap Small Cap Fund - Direct Plan - Growth");
     mkApiScheme (JNum 102) (Some "HDFC Mid Cap Fund - Regular - Growth");
     mkApiScheme (JNum 103) None;
     mkApiScheme (JNum 104) (Some "sbi SMALL CAP fund direct growth")]
  = [mkCategorized (JNum 101) (Some "HDFC Mid Cap Small Cap Fund - Direct Plan - Growth")
       "HDFC" "Mid Cap Direct Growth";
     mkCategorized (JNum 104) (Some "sbi SMALL CAP fund direct growth")
       "SBI" "Small Cap Direct Growth"].
Proof. vm_compute. reflexivity. Qed.

Lemma groupBy_snoc key schemes scheme :
  groupBy key (schemes ++ [scheme])
  = match groupBy key schemes !! key scheme with
    | None => <[key scheme := [scheme]]> (groupBy key schemes)
    | Some group => <[key scheme := group ++ [scheme]]> (groupBy key schemes)
    end.
Proof. unfold groupBy. rewrite fold_left_app. reflexivity. Qed.

Lemma filter_snoc {A} (f : A -> bool) (l : list A) (x : A) :
  List.filter f (l ++ [x]) = List.filter f l ++ (if f x then [x] else []).
Proof.
  induction l as [|y l IH]; cbn [List.filter app].
  - destruct (f x); reflexivity.
  - rewrite IH. destruct (f y); reflexivity.
Qed.

Lemma groupBy_lookup key schemes k :
  groupBy key schemes !! k
  = match List.filter (fun s => String.eqb (key s) k) schemes with
    | [] => None
    | group => Some group
    end.
Proof.
  induction schemes as [|scheme schemes IH] using rev_ind; [reflexivity|].
  rewrite groupBy_snoc, filter_snoc.
  destruct (String.eqb_spec (key scheme) k) as [->|Hne].
  - rewrite IH. destruct (List.filter _ schemes) as [|g gs].
    + rewrite lookup_insert_eq. reflexivity.
    + rewrite lookup_insert_eq. reflexivity.
  - rewrite app_nil_r.
    destruct (groupBy key schemes !! key scheme);
      rewrite lookup_insert_ne by exact Hne; exact IH.
Qed.

(** X22: [groupByCategory] and [groupByAmc] partition the schemes.  Under a
    key the result holds exactly the schemes with that category (that AMC),
    in the order of the input; a key no scheme has is absent, so no group is
    empty. *)
Theorem X22_groups_partition (schemes : list CategorizedScheme) (k : string) :
  groupByCategory schemes !! k
  = (match List.filter (fun s => String.eqb (cs_category s) k) schemes with
     | [] => None
     | group => Some group
     end) /\
  groupByAmc schemes !! k
  = (match List.filter (fun s => String.eqb (cs_amc s) k) schemes with
     | [] => None
     | group => Some group
     end).
Proof. split; apply groupBy_lookup. Qed.

End SchemeGroupingFacts.

(** ** Read API: rounding of the percentages *)

Section PercentRoundingFacts.
Import JS FundsRoutes.
Local Open Scope Q_scope.

Lemma floor_half_bounds (y : Q) :
  - (1 # 2) <= inject_Z (Qfloor (y + (1 # 2))) - y <= 1 # 2.
Proof.
  pose proof (Qfloor_le (y + (1 # 2))) as Hle.
  pose proof (Qlt_floor (y + (1 # 2))) as Hlt.
  rewrite inject_Z_plus in Hlt. change (inject_Z 1) with 1 in Hlt.
  split; [apply Qlt_le_weak|]; lra.
Qed.

Lemma toFixed1_bounds (x : Q) : - (1 # 20) <= toFixed1 x - x <= 1 # 20.
Proof.
  unfold toFixed1. destruct (Qle_bool 0 x).
  - pose proof (floor_half_bounds (x * 10)) as H.
    set (f := inject_Z (Qfloor (x * 10 + (1 # 2)))) in *.
    assert (E : f / 10 == f * (1 # 10)) by (field).
    rewrite E. lra.
  - pose proof (floor_half_bounds (- x * 10)) as H.
    set (f := inject_Z (Qfloor (- x * 10 + (1 # 2)))) in *.
    assert (E : f / 10 == f * (1 # 10)) by (field).
    rewrite E. lra.
Qed.

Lemma toFixed1_tenths (x : Q) : exists k : Z, toFixed1 x == inject_Z k / 10.
Proof.
  unfold toFixed1. destruct (Qle_bool 0 x).
  - eexists. reflexivity.
  - exists (- Qfloor (- x * 10 + (1 # 2)))%Z. rewrite inject_Z_opp. field.
Qed.

Lemma toFixed1_proper (x y : Q) : x == y -> toFixed1 x == toFixed1 y.
Proof.
  intros E. unfold toFixed1.
  assert (Hb : Qle_bool 0 x = Qle_bool 0 y).
  { destruct (Qle_bool 0 x) eqn:Ex; destruct (Qle_bool 0 y) eqn:Ey; try reflexivity.
    - apply Qle_bool_iff in Ex. rewrite E in Ex. apply Qle_bool_iff in Ex. congruence.
    - apply Qle_bool_iff in Ey. rewrite <- E in Ey. apply Qle_bool_iff in Ey. congruence. }
  rewrite Hb. destruct (Qle_bool 0 y).
  - assert (E' : x * 10 + (1 # 2) == y * 10 + (1 # 2)) by (rewrite E; reflexivity).
    rewrite (Qfloor_comp _ _ E'). reflexivity.
  - assert (E' : - x * 10 + (1 # 2) == - y * 10 + (1 # 2)) by (rewrite E; reflexivity).
    rewrite (Qfloor_comp _ _ E'). reflexivity.
Qed.

Lemma toFixed1_opp (x : Q) : ~ x == 0 -> toFixed1 (- x) == - toFixed1 x.
Proof.
  intros Hx. unfold toFixed1.
  destruct (Qle_bool 0 x) eqn:E1; destruct (Qle_bool 0 (- x)) eqn:E2.
  - apply Qle_bool_iff in E1. apply Qle_bool_iff in E2. exfalso. apply Hx. lra.
  - assert (E : - - x * 10 + (1 # 2) == x * 10 + (1 # 2)) by ring.
    rewrite (Qfloor_comp _ _ E). reflexivity.
  - ring.
  - exfalso.
    assert (H1 : ~ 0 <= x) by (intros H; apply Qle_bool_iff in H; congruence).
    assert (H2 : ~ 0 <= - x) by (intros H; apply Qle_bool_iff in H; congruence).
    apply Qnot_le_lt in H1. apply Qnot_le_lt in H2. lra.
Qed.

(** X23: a percentage of the read API is the stored fraction times 100,
    rounded to a whole number of tenths: for a number other than 0,
    [formatPercent] gives a number within 0.05 of 100 times it, and the
    opposite number gives the opposite percentage. *)
Theorem X23_formatPercent_rounding (q : Q) :
  ~ q == 0 ->
  exists p, formatPercent (JNum q) = JNum p /\
    - (1 # 20) <= p - q * 100 <= 1 # 20 /\
    (exists k : Z, p == inject_Z k / 10) /\
    exists p', formatPercent (JNum (- q)) = JNum p' /\ p' == - p.
Proof.
  intros Hq.
  assert (Ht : forall x, ~ x == 0 -> truthy (JNum x) = true).
  { intros x Hx. cbn [truthy]. destruct (Qeq_bool x 0) eqn:E; [|reflexivity].
    apply Qeq_bool_iff in E. contradiction. }
  unfold formatPercent. rewrite (Ht q Hq). cbn [parseFloat].
  eexists. split; [reflexivity|]. split; [apply toFixed1_bounds|].
  split; [apply toFixed1_tenths|].
  rewrite Ht by (intros H; apply Hq; lra).
  eexists. split; [reflexivity|].
  assert (E : - q * 100 == - (q * 100)) by ring.
  rewrite (toFixed1_proper _ _ E).
  apply toFixed1_opp. intros H. apply Hq. lra.
Qed.

Lemma X23_formatPercent_rounding_witness :
  exists p, formatPercent (JNum (12345 # 100000)) = JNum p /\
    - (1 # 20) <= p - (12345 # 100000) * 100 <= 1 # 20 /\
    (exists k : Z, p == inject_Z k / 10) /\
    exists p', formatPercent (JNum (- (12345 # 100000))) = JNum p' /\ p' == - p.
Proof. apply (X23_formatPercent_rounding (12345 # 100000)). intros H; discriminate H. Defined.

(** 12.345 percent is reported as 12.3, 12.36 percent as 12.4 and minus
    12.36 percent as minus 12.4. *)
Example formatPercent_fixture :
  same (formatPercent (JNum (12345 # 100000))) (JNum (123 # 10)) /\
  same (formatPercent (JNum (1236 # 10000))) (JNum (124 # 10)) /\
  same (formatPercent (JNum (- (1236 # 10000)))) (JNum (- (124 # 10))).
Proof. repeat split. Qed.

End PercentRoundingFacts.
